(** * Cryvex: wallet feed, trade heuristics, portfolio value and price cache

    A shallow embedding of the domain logic of the Cryvex dashboard:
    - [Solana.processTransaction] and [Solana.getTokenAccounts]
      (src/lib/solana.ts, class SolanaConnectionManager),
    - [Analysis.isTradeTransaction], [Analysis.classifyTradeType],
      [Analysis.calculateTradeValue] and the metrics of
      [Analysis.analyzeBatch] (class TransactionAnalyzer),
    - [Price.getSolanaPrice] (class PriceManager),
    - the portfolio total of [Wallet.fetchWalletData] (WalletAnalyzer.tsx).

    Modelling conventions.
    - A number in a JSON payload is the rational ([Q]) that its literal
      denotes; [JS.round64] gives the double that JSON.parse makes of it.
      The numbers that the program computes live in [JS.number]: the
      doubles, as the rationals they are, with NaN and the two infinities.
      [JS.add], [JS.mul] and [JS.div] round to the nearest double, ties to
      even, and overflow to an infinity, as binary64 does; [Number_toString]
      and [Number_toFixed] print a double as JavaScript does.  The sign of
      zero is not tracked: no operation of this program tells the two
      zeros apart.
    - The typed model of a transaction ([Helius.HeliusTransaction]) keeps
      the amounts of a record ([Solana.amount]) and the value of a trade
      ([Analysis.calculateTradeValue]) as the exact rationals; the totals
      that [classifyTradeType] compares with zero, the average of
      [analyzeBatch], the portfolio total and every printed number are
      computed in binary64.  [Dynamic] models [processTransaction] on any
      value that JSON.parse can return.
    - A string is a [string] of ASCII characters.
    - A property that the source guards with [&&], [?.] or [||] may be
      absent: an array property is an [option (list _)], a transaction may be
      null ([option HeliusTransaction]).  Reading a property of null raises
      a TypeError, modelled in the [JS.result] monad.
    - The clock ([Date.now()]) and the network are explicit arguments. *)

From Stdlib Require Import ZArith QArith Qabs Qround Lqa Lia List Bool Ascii String.
From Stdlib Require Import DecimalString Sorted Permutation.
From stdpp Require Import gmap strings.

Import ListNotations.
Local Open Scope string_scope.

(** ** JavaScript runtime: exceptions, numbers, strings *)

Module JS.

Inductive exn : Type :=
| TypeError (msg : string).

Inductive result (A : Type) : Type :=
| Ok (a : A)
| Throw (e : exn).
Arguments Ok {A} a.
Arguments Throw {A} e.

Definition bind {A B} (m : result A) (k : A -> result B) : result B :=
  match m with
  | Ok a => k a
  | Throw e => Throw e
  end.

(** [o.p] where [o] may be null or undefined. *)
Definition deref {A} (o : option A) : result A :=
  match o with
  | Some a => Ok a
  | None => Throw (TypeError "Cannot read properties of null")
  end.

(** [try { body } catch (error) { return handler }] for a handler that
    does not itself raise. *)
Definition try_catch {A} (body : result A) (handler : exn -> A) : A :=
  match body with
  | Ok a => a
  | Throw e => handler e
  end.

(** *** Numbers *)

Inductive number : Type :=
| Fin (q : Q)
| PInf
| NInf
| NaN.

Definition Qsgn_pos (q : Q) : bool := (0 <? Qnum q)%Z.
Definition Qis_zero (q : Q) : bool := (Qnum q =? 0)%Z.

Definition neg (x : number) : number :=
  match x with
  | Fin q => Fin (- q)
  | PInf => NInf
  | NInf => PInf
  | NaN => NaN
  end.

(** *** Rounding to binary64 *)

(** The fraction [n / d] divided by [2 ^ u]. *)
Definition scale (n d u : Z) : Z * Z :=
  if (0 <=? u)%Z then (n, d * 2 ^ u)%Z else (n * 2 ^ (- u), d)%Z.

(** The integer nearest to [a / b], the even one of two that are equally
    near. *)
Definition nearest_even (a b : Z) : Z :=
  let q := (a / b)%Z in
  let r := (a mod b)%Z in
  if (2 * r <? b)%Z then q
  else if (b <? 2 * r)%Z then (q + 1)%Z
  else if Z.even q then q else (q + 1)%Z.

(** The integer part of the binary logarithm of [n / d]. *)
Definition floor_log2 (n d : Z) : Z :=
  let e := (Z.log2 n - Z.log2 d)%Z in
  let '(a, b) := scale n d e in
  if (a <? b)%Z then (e - 1)%Z else e.

(** [m * 2 ^ u], in lowest terms. *)
Definition times_pow2 (m u : Z) : Q :=
  Qred (if (0 <=? u)%Z then inject_Z (m * 2 ^ u)
        else Qmake m (Z.to_pos (2 ^ (- u)))).

(** The double nearest to [n / d] for positive [n] and [d]: a significand
    of 53 bits above the exponent -1022, multiples of [2 ^ -1074] below,
    +Infinity from [2 ^ 1024 - 2 ^ 970] on. *)
Definition round_pos (n d : Z) : number :=
  let e := floor_log2 n d in
  let u := Z.max (e - 52) (-1074) in
  let '(a, b) := scale n d u in
  let m := nearest_even a b in
  if (1024 <=? Z.log2 m + u)%Z then PInf else Fin (times_pow2 m u).

(** The double nearest to [q]: what JSON.parse makes of a literal, and
    the rounding of every arithmetic operation. *)
Definition round64 (q : Q) : number :=
  match Qnum q with
  | Z0 => Fin 0
  | Zpos n => round_pos (Zpos n) (Zpos (Qden q))
  | Zneg n => neg (round_pos (Zpos n) (Zpos (Qden q)))
  end.

(** *** Arithmetic *)

Definition add (x y : number) : number :=
  match x, y with
  | NaN, _ | _, NaN => NaN
  | Fin a, Fin b => round64 (a + b)
  | PInf, NInf | NInf, PInf => NaN
  | PInf, _ | _, PInf => PInf
  | NInf, _ | _, NInf => NInf
  end.



(** IEEE division: [0/0] is NaN, a non-zero numerator over [0] an
    infinity (the divisors of this program are never negative zero). *)
Definition div (x y : number) : number :=
  match x, y with
  | NaN, _ | _, NaN => NaN
  | Fin a, Fin b =>
      if Qis_zero b then
        if Qis_zero a then NaN else if Qsgn_pos a then PInf else NInf
      else round64 (a / b)
  | Fin _, (PInf | NInf) => Fin 0
  | (PInf | NInf), (PInf | NInf) => NaN
  | PInf, Fin b => if Qsgn_pos b || Qis_zero b then PInf else NInf
  | NInf, Fin b => if Qsgn_pos b || Qis_zero b then NInf else PInf
  end.

(** Truthiness of a number: [0] and NaN are falsy. *)
Definition truthy (x : number) : bool :=
  match x with
  | Fin q => negb (Qis_zero q)
  | PInf | NInf => true
  | NaN => false
  end.

(** [x || d] on numbers. *)
Definition or_else (x d : number) : number := if truthy x then x else d.


(** [x || d] on the finite numbers of a JSON payload. *)
Definition Qor_else (x d : Q) : Q := if Qis_zero x then d else x.

(** [x < y], [x > y] and [x === y] on finite numbers. *)
Definition Qlt_b (x y : Q) : bool := negb (Qle_bool y x).
Definition Qgt_b (x y : Q) : bool := Qlt_b y x.
Definition Qstrict_eq (x y : Q) : bool := Qeq_bool x y.

(** [x < y], [x > y] and [x === y] on numbers: a comparison with NaN is
    false. *)
Definition lt (x y : number) : bool :=
  match x, y with
  | NaN, _ | _, NaN => false
  | Fin a, Fin b => Qlt_b a b
  | NInf, (Fin _ | PInf) | Fin _, PInf => true
  | _, _ => false
  end.

Definition gt (x y : number) : bool := lt y x.

(** A number that is not negative: zero, a positive double or +Infinity. *)
Definition nonneg (x : number) : Prop :=
  match x with
  | Fin q => (0 <= q)%Q
  | PInf => True
  | NInf | NaN => False
  end.

(** A multiple of [2 ^ -1074], as every double is. *)
Definition on_grid (r : Q) : Prop :=
  exists k : Z, (r * inject_Z (2 ^ 1074) == inject_Z k)%Q.

(** A double that is not negative, or +Infinity. *)
Definition nonneg_double (x : number) : Prop :=
  match x with
  | Fin r => (0 <= r)%Q /\ on_grid r
  | PInf => True
  | NInf | NaN => False
  end.

(** [x > 0] *)
Definition positive (x : number) : Prop := lt (Fin 0) x = true.

(** Zero, a positive double or +Infinity. *)
Definition zero_or_positive (x : number) : Prop :=
  x = Fin 0 \/ (nonneg_double x /\ positive x).

Definition strict_eq (x y : number) : bool :=
  match x, y with
  | Fin a, Fin b => Qstrict_eq a b
  | PInf, PInf | NInf, NInf => true
  | _, _ => false
  end.

(** [Math.abs] and [Math.max] on finite numbers. *)
Definition Math_abs (x : Q) : Q := Qabs x.
Definition Math_max (x y : Q) : Q := if Qle_bool x y then y else x.

(** *** Strings *)

Definition lower_ascii (c : ascii) : ascii :=
  let n := nat_of_ascii c in
  if (65 <=? n)%nat && (n <=? 90)%nat then ascii_of_nat (n + 32) else c.

Fixpoint toLowerCase (s : string) : string :=
  match s with
  | EmptyString => EmptyString
  | String c s' => String (lower_ascii c) (toLowerCase s')
  end.

(** [s.includes(pat)] *)
Fixpoint includes (s pat : string) : bool :=
  if String.prefix pat s then true
  else match s with
       | EmptyString => false
       | String _ s' => includes s' pat
       end.

(** [s || d] on strings: the empty string is falsy. *)
Definition str_or_else (s d : string) : string :=
  match s with
  | EmptyString => d
  | _ => s
  end.

(** [a === b] where [a] or [b] may be undefined. *)
Definition strict_eq_str (a b : option string) : bool :=
  match a, b with
  | Some x, Some y => String.eqb x y
  | None, None => true
  | _, _ => false
  end.

(** [a.some(p)] *)
Definition some {A} (p : A -> bool) (a : list A) : bool := existsb p a.

(** [a?.length > 0] for an array property that may be absent:
    [undefined > 0] is false. *)
Definition nonempty {A} (a : option (list A)) : bool :=
  match a with
  | Some (_ :: _) => true
  | _ => false
  end.

End JS.

#[global] Instance result_ret : MRet JS.result := @JS.Ok.
#[global] Instance result_bind : MBind JS.result := fun A B k m => JS.bind m k.

(** ** JSON values and [JSON.stringify] *)

Module Json.

Definition Z_to_string (z : Z) : string :=
  NilZero.string_of_int (Z.to_int z).

Fixpoint zeros (n : nat) : string :=
  match n with
  | O => EmptyString
  | S n' => String "0" (zeros n')
  end.

(** *** Number::toString *)

(** [10 ^ k <= a / b] *)
Definition pow10_le (k a b : Z) : bool :=
  if (0 <=? k)%Z then (b * 10 ^ k <=? a)%Z else (b <=? a * 10 ^ (- k))%Z.

(** The integer part of the decimal logarithm of [a / b]: the estimate
    from the binary logarithm is off by one at most. *)
Definition floor_log10 (a b : Z) : Z :=
  let g := (JS.floor_log2 a b * 30103 / 100000)%Z in
  if pow10_le (g + 1) a b then (g + 1)%Z
  else if pow10_le g a b then g
  else (g - 1)%Z.

(** [s * 10 ^ p] *)
Definition times_pow10 (s p : Z) : Q :=
  if (0 <=? p)%Z then inject_Z (s * 10 ^ p)
  else Qmake s (Z.to_pos (10 ^ (- p))).

(** [reads_back x s p]: the decimal [s * 10 ^ p] denotes the double [x]. *)
Definition reads_back (x : Q) (s p : Z) : bool :=
  match JS.round64 (times_pow10 s p) with
  | JS.Fin y => Qeq_bool y x
  | _ => false
  end.

(** The shortest decimal that denotes the positive double [x], among
    those of [k] digits or more: [(s, p)] stands for [s * 10 ^ p]; of two
    decimals of the same length the nearer to [x], the even one when they
    are equally near.  [n] is such that [10 ^ (n - 1) <= x < 10 ^ n]; 17
    digits always suffice. *)
Fixpoint shortest (fuel : nat) (k : Z) (x : Q) (n : Z) : Z * Z :=
  match fuel with
  | O => (0, 0)%Z
  | S fuel' =>
      let p := (n - k)%Z in
      let lo := Qfloor (x * times_pow10 1 (- p)) in
      let hi := (lo + 1)%Z in
      match reads_back x lo p, reads_back x hi p with
      | true, false => (lo, p)
      | false, true => (hi, p)
      | true, true =>
          let below := (x - times_pow10 lo p)%Q in
          let above := (times_pow10 hi p - x)%Q in
          if Qle_bool below above && negb (Qeq_bool below above && Z.odd lo)
          then (lo, p) else (hi, p)
      | false, false => shortest fuel' (k + 1)%Z x n
      end
  end.

(** A string of digits without the zeros at its end. *)
Fixpoint strip_zeros (s : string) : string :=
  match s with
  | EmptyString => EmptyString
  | String c s' =>
      match strip_zeros s' with
      | EmptyString => if Ascii.eqb c "0" then EmptyString else String c EmptyString
      | t => String c t
      end
  end.

(** The digits [d] with the decimal point after the [n]-th of them, as
    Number::toString lays them out: in full for [-6 < n <= 21], with an
    exponent otherwise. *)
Definition layout (d : string) (n : Z) : string :=
  let k := Z.of_nat (String.length d) in
  if ((k <=? n) && (n <=? 21))%Z then d ++ zeros (Z.to_nat (n - k))
  else if ((0 <? n) && (n <=? 21))%Z
       then substring 0 (Z.to_nat n) d ++ "."
            ++ substring (Z.to_nat n) (Z.to_nat (k - n)) d
  else if ((-6 <? n) && (n <=? 0))%Z then "0." ++ zeros (Z.to_nat (- n)) ++ d
  else
    let e := (n - 1)%Z in
    let exponent := (if (e <? 0)%Z then "-" else "+") ++ Z_to_string (Z.abs e) in
    if (k =? 1)%Z then d ++ "e" ++ exponent
    else substring 0 1 d ++ "." ++ substring 1 (Z.to_nat (k - 1)) d
         ++ "e" ++ exponent.

Definition positive_to_string (x : Q) : string :=
  let n := (floor_log10 (Qnum x) (Zpos (Qden x)) + 1)%Z in
  let '(s, p) := shortest 17 1 x n in
  let digits := Z_to_string s in
  layout (strip_zeros digits) (p + Z.of_nat (String.length digits)).

(** [String(x)] for a double [x]. *)
Definition Number_toString (x : JS.number) : string :=
  match x with
  | JS.NaN => "NaN"
  | JS.PInf => "Infinity"
  | JS.NInf => "-Infinity"
  | JS.Fin q =>
      match Qnum q with
      | Z0 => "0"
      | Zpos _ => positive_to_string q
      | Zneg _ => "-" ++ positive_to_string (- q)
      end
  end.

(** [String(x)] for the number that the literal [x] of a JSON text
    denotes. *)
Definition number_to_string (x : Q) : string := Number_toString (JS.round64 x).

(** [x.toFixed(f)] for a double [x]: from 10^21 on, [String(x)]; below,
    the integer [n] with [n / 10^f] nearest to [|x|] (the larger one on a
    tie), printed with [f] fractional digits. *)
Definition toFixed (x : Q) (f : nat) : string :=
  if Qle_bool (inject_Z (10 ^ 21)) (Qabs x) then Number_toString (JS.Fin x)
  else
    let sign := if JS.Qlt_b x 0 then "-" else EmptyString in
    let scale := inject_Z (10 ^ Z.of_nat f) in
    let n := Qfloor (Qabs x * scale + (1 # 2))%Q in
    let m := Z_to_string n in
    let m := if (String.length m <=? f)%nat
             then zeros (f + 1 - String.length m) ++ m else m in
    let k := String.length m in
    sign ++ (if (f =? 0)%nat then m
             else substring 0 (k - f) m ++ "." ++ substring (k - f) f m).

(** [x.toFixed(f)] *)
Definition Number_toFixed (x : JS.number) (f : nat) : string :=
  match x with
  | JS.Fin q => toFixed q f
  | _ => Number_toString x
  end.

Definition dquote : string := String (ascii_of_nat 34) EmptyString.

Definition hex_digit (n : nat) : ascii :=
  if (n <? 10)%nat then ascii_of_nat (48 + n) else ascii_of_nat (87 + n).

(** One character of a JSON string literal. *)
Definition escape_char (c : ascii) : string :=
  let n := nat_of_ascii c in
  if (n =? 34)%nat then String "\" dquote
  else if (n =? 92)%nat then "\\"
  else if (n =? 8)%nat then "\b"
  else if (n =? 12)%nat then "\f"
  else if (n =? 10)%nat then "\n"
  else if (n =? 13)%nat then "\r"
  else if (n =? 9)%nat then "\t"
  else if (n <? 32)%nat
       then "\u00" ++ String (hex_digit (n / 16)) (String (hex_digit (n mod 16)) EmptyString)
  else String c EmptyString.

Fixpoint escape (s : string) : string :=
  match s with
  | EmptyString => EmptyString
  | String c s' => escape_char c ++ escape s'
  end.

Definition quote (s : string) : string := dquote ++ escape s ++ dquote.

#[local] Unset Elimination Schemes.
Inductive json : Type :=
| JNull
| JBool (b : bool)
| JNum (x : Q)
| JStr (s : string)
| JArr (items : list json)
| JObj (props : list (string * json)).
#[local] Set Elimination Schemes.

Fixpoint join (sep : string) (l : list string) : string :=
  match l with
  | [] => EmptyString
  | [s] => s
  | s :: l' => s ++ sep ++ join sep l'
  end.

Fixpoint stringify (j : json) : string :=
  match j with
  | JNull => "null"
  | JBool true => "true"
  | JBool false => "false"
  | JNum x =>
      (* a number that is not finite is serialized as null *)
      match JS.round64 x with
      | JS.Fin _ => number_to_string x
      | _ => "null"
      end
  | JStr s => quote s
  | JArr items => "[" ++ join "," (map stringify items) ++ "]"
  | JObj props =>
      "{" ++ join "," (map (fun kv => quote (fst kv) ++ ":" ++ stringify (snd kv)) props)
          ++ "}"
  end.

(** A property whose value is undefined is left out by [JSON.stringify]. *)
Definition prop_opt {A} (k : string) (f : A -> json) (v : option A)
  : list (string * json) :=
  match v with
  | Some a => [(k, f a)]
  | None => []
  end.

End Json.

(** ** Raw transactions (lib/helius.ts, interface HeliusTransaction) *)

Module NativeTransfer.
Record t : Type := mk {
  fromUserAccount : string;
  toUserAccount : string;
  amount : Q
}.

Definition to_json (x : t) : Json.json :=
  Json.JObj [("fromUserAccount", Json.JStr (fromUserAccount x));
             ("toUserAccount", Json.JStr (toUserAccount x));
             ("amount", Json.JNum (amount x))].
End NativeTransfer.

Module TokenTransfer.
Record t : Type := mk {
  fromUserAccount : string;
  toUserAccount : string;
  mint : string;
  amount : Q
}.

Definition to_json (x : t) : Json.json :=
  Json.JObj [("fromUserAccount", Json.JStr (fromUserAccount x));
             ("toUserAccount", Json.JStr (toUserAccount x));
             ("mint", Json.JStr (mint x));
             ("amount", Json.JNum (amount x))].
End TokenTransfer.

Module TokenBalanceChange.
Record t : Type := mk {
  mint : string;
  amount : Q
}.

Definition to_json (x : t) : Json.json :=
  Json.JObj [("mint", Json.JStr (mint x)); ("amount", Json.JNum (amount x))].
End TokenBalanceChange.

Module AccountData.
Record t : Type := mk {
  account : string;
  nativeBalanceChange : Q;
  tokenBalanceChanges : option (list TokenBalanceChange.t)
}.

Definition to_json (x : t) : Json.json :=
  Json.JObj ([("account", Json.JStr (account x));
              ("nativeBalanceChange", Json.JNum (nativeBalanceChange x))]
             ++ Json.prop_opt "tokenBalanceChanges"
                  (fun l => Json.JArr (map TokenBalanceChange.to_json l))
                  (tokenBalanceChanges x)).
End AccountData.

Module Helius.

(** The declared properties of [HeliusTransaction], and [source], which
    the interface does not declare but [classifyTradeType] reads
    ([tx.source]): it is undefined unless the payload carries it. *)
Record HeliusTransaction : Type := mkTx {
  signature : string;
  type : string;
  timestamp : Q;
  slot : Q;
  fee : Q;
  nativeTransfers : option (list NativeTransfer.t);
  tokenTransfers : option (list TokenTransfer.t);
  accountData : option (list AccountData.t);
  source : option string
}.

Definition to_json (tx : HeliusTransaction) : Json.json :=
  Json.JObj ([("signature", Json.JStr (signature tx));
              ("type", Json.JStr (type tx));
              ("timestamp", Json.JNum (timestamp tx));
              ("slot", Json.JNum (slot tx));
              ("fee", Json.JNum (fee tx))]
             ++ Json.prop_opt "nativeTransfers"
                  (fun l => Json.JArr (map NativeTransfer.to_json l))
                  (nativeTransfers tx)
             ++ Json.prop_opt "tokenTransfers"
                  (fun l => Json.JArr (map TokenTransfer.to_json l))
                  (tokenTransfers tx)
             ++ Json.prop_opt "accountData"
                  (fun l => Json.JArr (map AccountData.to_json l))
                  (accountData tx)
             ++ Json.prop_opt "source" Json.JStr (source tx)).

Record TokenMetadata : Type := mkMetadata {
  md_mint : string;
  md_name : string;
  md_symbol : string;
  md_decimals : Q;
  logoURI : option string
}.

(** [JSON.stringify(tx)] for a transaction object. *)
Definition JSON_stringify (tx : HeliusTransaction) : string :=
  Json.stringify (to_json tx).

End Helius.

(** ** lib/solana.ts: SolanaConnectionManager *)

Module Solana.
Import Helius.

(** Modelled from the spec: the constant [LAMPORTS_PER_SOL] is imported
    from @solana/web3.js; the spec gives the native unit as 1e9. *)
Definition LAMPORTS_PER_SOL : Q := 1000000000.

Inductive Status : Type := success | error.

Record ProcessedTransaction : Type := mkProcessed {
  signature : string;
  type : string;
  amount : Q;
  timestamp : Q;
  status : Status;
  tokenSymbol : string;
  fee : Q;
  description : string
}.

Definition MIN_SOL_AMOUNT : Q := 1 # 1000.
Definition MIN_USD_VALUE : Q := 1.

(** The four [let] variables of [processTransaction]. *)
Record locals : Type := mkLocals {
  l_type : string;
  l_amount : Q;
  l_tokenSymbol : string;
  l_description : string
}.

(** [let type = tx.type || 'Unknown'; let amount = 0;
     let tokenSymbol = 'SOL'; let description = '';] *)
Definition init_locals (tx : HeliusTransaction) : locals :=
  {| l_type := JS.str_or_else (Helius.type tx) "Unknown";
     l_amount := 0;
     l_tokenSymbol := "SOL";
     l_description := EmptyString |}.

(** [amount.toFixed(3)] for [amount = transfer.amount / LAMPORTS_PER_SOL]:
    the digits are those of the binary64 quotient. *)
Definition amount_toFixed (lamports : Q) : string :=
  Json.Number_toFixed (JS.div (JS.round64 lamports) (JS.Fin LAMPORTS_PER_SOL)) 3.

(** [// Process native SOL transfers] *)
Definition native_step (tx : HeliusTransaction) (walletAddress : string)
           (v : locals) : locals :=
  match nativeTransfers tx with
  | Some (transfer :: _) =>
      let amount := (NativeTransfer.amount transfer / LAMPORTS_PER_SOL)%Q in
      if String.eqb (NativeTransfer.fromUserAccount transfer) walletAddress then
        {| l_type := "Send SOL";
           l_amount := amount;
           l_tokenSymbol := l_tokenSymbol v;
           l_description :=
             "Sent " ++ amount_toFixed (NativeTransfer.amount transfer) ++ " SOL" |}
      else if String.eqb (NativeTransfer.toUserAccount transfer) walletAddress then
        {| l_type := "Receive SOL";
           l_amount := amount;
           l_tokenSymbol := l_tokenSymbol v;
           l_description :=
             "Received " ++ amount_toFixed (NativeTransfer.amount transfer) ++ " SOL" |}
      else
        {| l_type := l_type v;
           l_amount := amount;
           l_tokenSymbol := l_tokenSymbol v;
           l_description := l_description v |}
  | _ => v
  end.

(** [// Process token transfers] *)
Definition token_step (tx : HeliusTransaction) (walletAddress : string)
           (v : locals) : locals :=
  match tokenTransfers tx with
  | Some (transfer :: _) =>
      let amount := TokenTransfer.amount transfer in
      let tokenSymbol := "Token" in
      if String.eqb (TokenTransfer.fromUserAccount transfer) walletAddress then
        {| l_type := "Send Token";
           l_amount := amount;
           l_tokenSymbol := tokenSymbol;
           l_description :=
             "Sent " ++ Json.number_to_string amount ++ " " ++ tokenSymbol |}
      else if String.eqb (TokenTransfer.toUserAccount transfer) walletAddress then
        {| l_type := "Receive Token";
           l_amount := amount;
           l_tokenSymbol := tokenSymbol;
           l_description :=
             "Received " ++ Json.number_to_string amount ++ " " ++ tokenSymbol |}
      else
        {| l_type := l_type v;
           l_amount := amount;
           l_tokenSymbol := tokenSymbol;
           l_description := l_description v |}
  | _ => v
  end.

(** [txString.includes('swap') || txString.includes('jupiter') ||
     txString.includes('orca')] *)
Definition mentions_swap (tx : HeliusTransaction) : bool :=
  let txString := JS.toLowerCase (JSON_stringify tx) in
  JS.includes txString "swap" || JS.includes txString "jupiter"
  || JS.includes txString "orca".

(** [// Check for swaps] *)
Definition swap_step (tx : HeliusTransaction) (v : locals) : locals :=
  if mentions_swap tx then
    {| l_type := "Swap";
       l_amount := l_amount v;
       l_tokenSymbol := l_tokenSymbol v;
       l_description := "Token Swap" |}
  else v.

(** The variables after the native, token and swap steps. *)
Definition resolve (tx : HeliusTransaction) (walletAddress : string) : locals :=
  let v := init_locals tx in
  let v := native_step tx walletAddress v in
  let v := token_step tx walletAddress v in
  swap_step tx v.

(** [// Filter out small transactions],
    [// Skip transactions with no meaningful amount], and the record that
    is returned otherwise.  [now] is the value of [Date.now()]. *)
Definition finish (now : Q) (tx : HeliusTransaction) (v : locals)
  : option ProcessedTransaction :=
  if String.eqb (l_tokenSymbol v) "SOL" && JS.Qlt_b (l_amount v) MIN_SOL_AMOUNT
  then None
  else if JS.Qstrict_eq (l_amount v) 0
  then None
  else Some {| signature := JS.str_or_else (Helius.signature tx) EmptyString;
               type := l_type v;
               amount := l_amount v;
               timestamp := JS.Qor_else (Helius.timestamp tx) now;
               status := success;
               tokenSymbol := l_tokenSymbol v;
               fee := JS.Qor_else (Helius.fee tx) 0;
               description := l_description v |}.

(** The body of the [try] block, for a transaction that is null or an
    object with the declared properties: reading [tx.type] raises when [tx]
    is null, and nothing raises on such an object.  ([Dynamic] has the
    function on every other value.) *)
Definition processTransaction_try (now : Q) (tx : option HeliusTransaction)
           (walletAddress : string) : JS.result (option ProcessedTransaction) :=
  tx ← JS.deref tx;
  mret (finish now tx (resolve tx walletAddress)).

(** [processTransaction]: the [catch] block logs the error and returns
    null ([Logger.log] builds an entry and prints it; it raises nothing). *)
Definition processTransaction (now : Q) (tx : option HeliusTransaction)
           (walletAddress : string) : option ProcessedTransaction :=
  JS.try_catch (processTransaction_try now tx walletAddress) (fun _ => None).

(** The [map] and [filter] stages of [getTransactions]; the [i]-th call
    reads the clock as [clock i].  (The caller then sorts the survivors by
    descending timestamp.) *)
Fixpoint processAll (clock : nat -> Q) (i : nat)
         (txs : list (option HeliusTransaction)) (address : string)
  : list ProcessedTransaction :=
  match txs with
  | [] => []
  | tx :: rest =>
      match processTransaction (clock i) tx address with
      | Some p => p :: processAll clock (S i) rest address
      | None => processAll clock (S i) rest address
      end
  end.

(** *** [getTokenAccounts], the path through getParsedTokenAccountsByOwner *)

Record TokenAmount : Type := mkTokenAmount {
  uiAmount : Q;
  ta_decimals : Q
}.

(** [account.account.data.parsed?.info] *)
Record ParsedInfo : Type := mkParsedInfo {
  pi_mint : string;
  pi_owner : string;
  tokenAmount : option TokenAmount
}.

Record ParsedAccount : Type := mkParsedAccount {
  info : option ParsedInfo
}.

(** The objects [getTokenAccounts] returns ([TokenAccountInfo]).  The
    page stores them as [TokenBalance] (WalletAnalyzer.tsx), which also
    declares [price], [change24h] and [value]: a property that was never
    set reads as undefined ([None]). *)
Record TokenAccountInfo : Type := mkToken {
  mint : string;
  owner : string;
  tk_amount : Q;
  decimals : Q;
  symbol : string;
  name : string;
  logo : option string;
  price : option JS.number;
  change24h : option JS.number;
  value : option JS.number
}.

(** The [filter] and the first [map]: an account is kept when
    [info && info.tokenAmount?.uiAmount > 0], and becomes
    [{mint, owner, amount, decimals}]. *)
Definition basic_account (a : ParsedAccount) : option (string * string * Q * Q) :=
  match info a with
  | Some i =>
      match tokenAmount i with
      | Some ta =>
          if JS.Qgt_b (uiAmount ta) 0
          then Some (pi_mint i, pi_owner i, uiAmount ta, ta_decimals ta)
          else None
      | None => None
      end
  | None => None
  end.

(** [new Map(metadata.map(m => [m.mint, m]))]: a later entry for the same
    mint replaces an earlier one. *)
Definition metadataMap (metadata : list Helius.TokenMetadata)
  : gmap string Helius.TokenMetadata :=
  fold_left (fun m md => <[Helius.md_mint md := md]> m) metadata ∅.

(** [// Enhance token accounts with metadata] *)
Definition enhance (m : gmap string Helius.TokenMetadata)
           (account : string * string * Q * Q) : TokenAccountInfo :=
  let '(mint, owner, amount, decimals) := account in
  let meta := m !! mint in
  {| mint := mint;
     owner := owner;
     tk_amount := amount;
     decimals := decimals;
     symbol := match meta with
               | Some md => JS.str_or_else (Helius.md_symbol md) "Unknown"
               | None => "Unknown"
               end;
     name := match meta with
             | Some md => JS.str_or_else (Helius.md_name md) "Unknown Token"
             | None => "Unknown Token"
             end;
     logo := match meta with
             | Some md => Helius.logoURI md
             | None => None
             end;
     price := None;
     change24h := None;
     value := None |}.

(** The token accounts built from the RPC [response.value] and the
    metadata that [heliusAPI.getTokenMetadata] answered; an empty response
    gives an empty list.  (The fallback path through
    getTokenAccountsByOwner builds objects with the same properties.) *)
Definition getTokenAccounts (response : list ParsedAccount)
           (metadata : list Helius.TokenMetadata) : list TokenAccountInfo :=
  let tokenAccounts := omap basic_account response in
  map (enhance (metadataMap metadata)) tokenAccounts.

End Solana.

(** ** lib/analysis.ts: TransactionAnalyzer *)

Module Analysis.
Import Helius.

Definition tradePatterns : list string :=
  ["swap"; "trade"; "exchange"; "jupiter"; "orca"; "raydium"; "serum";
   "dex"; "amm"; "liquidity"; "pool"; "market"].

Definition isTradeTransaction (tx : option HeliusTransaction) : bool :=
  match tx with
  | None => false
  | Some tx =>
      let type := JS.str_or_else (JS.toLowerCase (Helius.type tx)) EmptyString in
      let description := JS.toLowerCase (JSON_stringify tx) in
      let hasTradePattern :=
        JS.some (fun pattern => JS.includes type pattern
                                || JS.includes description pattern)
                tradePatterns in
      let hasTransfers :=
        JS.nonempty (nativeTransfers tx) || JS.nonempty (tokenTransfers tx) in
      (* [undefined] when accountData is absent, which is falsy *)
      let hasBalanceChanges :=
        match accountData tx with
        | Some accounts =>
            JS.some (fun account =>
                       negb (JS.Qstrict_eq (AccountData.nativeBalanceChange account) 0)
                       || JS.nonempty (AccountData.tokenBalanceChanges account))
                    accounts
        | None => false
        end in
      hasTradePattern || (hasTransfers && hasBalanceChanges)
  end.

Inductive TradeType : Type := buy | sell | unknown.

(** [a.reduce((sum, x) => f(sum, x), 0)] *)
Definition reduce {A} (f : Q -> A -> Q) (a : list A) : Q := fold_left f a 0%Q.

(** The same for a callback that adds in binary64. *)
Definition reduce_number {A} (f : JS.number -> A -> JS.number) (a : list A)
  : JS.number :=
  fold_left f a (JS.Fin 0).

Definition totalNativeOut (tx : HeliusTransaction) (transfers : list NativeTransfer.t)
  : JS.number :=
  reduce_number
    (fun sum transfer =>
       if JS.strict_eq_str (Some (NativeTransfer.fromUserAccount transfer)) (source tx)
       then JS.add sum (JS.round64 (NativeTransfer.amount transfer))
       else sum)
    transfers.

Definition totalTokensOut (tx : HeliusTransaction) (transfers : list TokenTransfer.t)
  : JS.number :=
  reduce_number
    (fun sum transfer =>
       if JS.strict_eq_str (Some (TokenTransfer.fromUserAccount transfer)) (source tx)
       then JS.add sum (JS.round64 (TokenTransfer.amount transfer))
       else sum)
    transfers.

Definition classifyTradeType (tx : option HeliusTransaction) : TradeType :=
  match tx with
  | None => unknown
  | Some tx =>
      let type := JS.str_or_else (JS.toLowerCase (Helius.type tx)) EmptyString in
      let description := JS.toLowerCase (JSON_stringify tx) in
      if JS.includes type "buy" || JS.includes type "swap_in" then buy
      else if JS.includes type "sell" || JS.includes type "swap_out" then sell
      else if match nativeTransfers tx with
              | Some (t :: l) => JS.gt (totalNativeOut tx (t :: l)) (JS.Fin 0)
              | _ => false
              end
      then buy
      else if match tokenTransfers tx with
              | Some (t :: l) => JS.gt (totalTokensOut tx (t :: l)) (JS.Fin 0)
              | _ => false
              end
      then sell
      else if JS.includes description "swap_exact_tokens_for_tokens"
              || JS.includes description "swap_exact_sol_for_tokens"
      then buy
      else if JS.includes description "swap_exact_tokens_for_sol"
              || JS.includes description "swap_tokens_for_exact_sol"
      then sell
      else unknown
  end.

(** The callback of the [accountData] reduction. *)
Definition account_change (account : AccountData.t) : Q :=
  let change := JS.Qor_else (AccountData.nativeBalanceChange account) 0 in
  match AccountData.tokenBalanceChanges account with
  | Some (t :: l) =>
      (change + reduce (fun tokenSum token =>
                          tokenSum + JS.Math_abs (TokenBalanceChange.amount token))
                       (t :: l))%Q
  | _ => change
  end.

Definition calculateTradeValue (tx : option HeliusTransaction) : Q :=
  match tx with
  | None => 0
  | Some tx =>
      let value := 0%Q in
      let value :=
        match nativeTransfers tx with
        | Some (t :: l) =>
            (value + reduce (fun sum transfer =>
                               sum + JS.Qor_else (NativeTransfer.amount transfer) 0)
                            (t :: l))%Q
        | _ => value
        end in
      let value :=
        match tokenTransfers tx with
        | Some (t :: l) =>
            (value + reduce (fun sum transfer =>
                               sum + JS.Qor_else (TokenTransfer.amount transfer) 0)
                            (t :: l))%Q
        | _ => value
        end in
      match accountData tx with
      | Some (a :: l) =>
          let balanceChanges :=
            reduce (fun sum account => sum + JS.Math_abs (account_change account))%Q
                   (a :: l) in
          JS.Math_max value balanceChanges
      | _ => value
      end
  end.

(** One element of [trades] in [analyzeBatch]. *)
Record Trade : Type := mkTrade {
  type : TradeType;
  value : Q;
  timestamp : Q;
  originalType : string
}.

(** [transactions.filter(tx => this.isTradeTransaction(tx)).map(...)];
    the filter removes a null entry, so the callback of [map] only sees
    transaction objects. *)
Definition trades_of (transactions : list (option HeliusTransaction)) : list Trade :=
  omap (fun tx : option HeliusTransaction =>
          match tx with
          | Some t => Some {| type := classifyTradeType tx;
                              value := calculateTradeValue tx;
                              timestamp := Helius.timestamp t;
                              originalType := Helius.type t |}
          | None => None
          end)
       (List.filter isTradeTransaction transactions).

Definition is_buy (t : Trade) : bool :=
  match type t with buy => true | _ => false end.
Definition is_sell (t : Trade) : bool :=
  match type t with sell => true | _ => false end.

(** [// Calculate trading metrics] *)
Record Metrics : Type := mkMetrics {
  buyCount : nat;
  sellCount : nat;
  totalTrades : nat;
  averageTradeValue : JS.number
}.

(** [trades.reduce((sum, t) => sum + t.value, 0)]: a value enters the
    sum as the double nearest to it. *)
Definition sum_of_values (trades : list Trade) : JS.number :=
  reduce_number (fun sum t => JS.add sum (JS.round64 (value t))) trades.

Definition metrics_of (trades : list Trade) : Metrics :=
  let buyCount := length (List.filter is_buy trades) in
  let sellCount := length (List.filter is_sell trades) in
  let totalTrades := length trades in
  let averageTradeValue :=
    JS.or_else
      (JS.div (sum_of_values trades) (JS.Fin (inject_Z (Z.of_nat totalTrades))))
      (JS.Fin 0) in
  {| buyCount := buyCount;
     sellCount := sellCount;
     totalTrades := totalTrades;
     averageTradeValue := averageTradeValue |}.

(** The metrics that [analyzeBatch] puts into its prompt. *)
Definition analyzeBatch_metrics (transactions : list (option HeliusTransaction))
  : Metrics :=
  metrics_of (trades_of transactions).

End Analysis.

(** ** lib/price.ts: PriceManager *)

Module Price.

Record PriceData : Type := mkPrice {
  price : JS.number;
  change24h : JS.number
}.

(** An entry of [PriceManager.cache]. *)
Record CacheEntry : Type := mkEntry {
  c_price : JS.number;
  c_change24h : JS.number;
  c_timestamp : Q
}.

Definition CACHE_DURATION : Q := 3600000.

Inductive Endpoint : Type := CoinGecko | Jupiter | Binance.

Definition ENDPOINTS : list Endpoint := [CoinGecko; Jupiter; Binance].

(** What happens inside [fetchEndpoint]'s [try] block: the request may
    fail or time out, the status may not be ok, the body may not be JSON,
    the endpoint's parser may raise on the payload, or the parser returns
    a price object. *)
Inductive FetchOutcome : Type :=
| NetworkError
| HttpError (status : nat)
| InvalidJson
| ParserError
| Parsed (r : PriceData).

(** The world outside the manager during one call of [getSolanaPrice]:
    the clock when the cache is checked, each endpoint's outcome, and the
    clock when that endpoint's result is stored. *)
Record World : Type := mkWorld {
  now : Q;
  outcome : Endpoint -> FetchOutcome;
  now_at : Endpoint -> Q
}.

(** [fetchEndpoint]: every failure is caught, logged and turned into
    null. *)
Definition fetchEndpoint (w : World) (endpoint : Endpoint) : option PriceData :=
  match outcome w endpoint with
  | Parsed r => Some r
  | _ => None
  end.

Definition of_entry (c : CacheEntry) : PriceData :=
  {| price := c_price c; change24h := c_change24h c |}.

Definition fallback : PriceData :=
  {| price := JS.Fin 100; change24h := JS.Fin 0 |}.

(** [// Try all endpoints in sequence]: the first endpoint with a result
    is cached and returned; [None] when the loop runs to its end. *)
Fixpoint try_endpoints (w : World) (endpoints : list Endpoint)
         (cache : gmap string CacheEntry)
  : option (PriceData * gmap string CacheEntry) :=
  match endpoints with
  | [] => None
  | endpoint :: rest =>
      match fetchEndpoint w endpoint with
      | Some result =>
          Some (result,
                <["solana" := {| c_price := price result;
                                 c_change24h := change24h result;
                                 c_timestamp := now_at w endpoint |}]> cache)
      | None => try_endpoints w rest cache
      end
  end.

(** [cached && Date.now() - cached.timestamp < this.CACHE_DURATION] *)
Definition is_fresh (w : World) (cached : option CacheEntry) : bool :=
  match cached with
  | Some c => JS.Qlt_b (now w - c_timestamp c) CACHE_DURATION
  | None => false
  end.

(** The [try] block of [getSolanaPrice]: the value returned and the
    cache afterwards. *)
Definition getSolanaPrice_try (w : World) (cache : gmap string CacheEntry)
  : JS.result (PriceData * gmap string CacheEntry) :=
  (* Check cache first *)
  let cached := cache !! "solana" in
  match cached with
  | Some c =>
      if is_fresh w cached then mret (of_entry c, cache)
      else
        (* Try all endpoints in sequence *)
        match try_endpoints w ENDPOINTS cache with
        | Some r => mret r
        | None =>
            (* all endpoints failed: the cached data, even if expired *)
            mret (of_entry c, cache)
        end
  | None =>
      match try_endpoints w ENDPOINTS cache with
      | Some r => mret r
      | None =>
          (* Final fallback *)
          mret (fallback, cache)
      end
  end.

(** The [catch] block: cached data if there is any, else the fallback. *)
Definition getSolanaPrice_catch (cache : gmap string CacheEntry)
  : PriceData * gmap string CacheEntry :=
  match cache !! "solana" with
  | Some c => (of_entry c, cache)
  | None => (fallback, cache)
  end.

Definition getSolanaPrice (w : World) (cache : gmap string CacheEntry)
  : PriceData * gmap string CacheEntry :=
  JS.try_catch (getSolanaPrice_try w cache) (fun _ => getSolanaPrice_catch cache).

(** Successive calls on the one cache of the singleton manager: the
    values returned, oldest first, and the cache after the last call. *)
Fixpoint calls (ws : list World) (cache : gmap string CacheEntry)
  : list PriceData * gmap string CacheEntry :=
  match ws with
  | [] => ([], cache)
  | w :: rest =>
      let '(r, cache') := getSolanaPrice w cache in
      let '(rs, cache'') := calls rest cache' in
      (r :: rs, cache'')
  end.

(** [genuine ws cache]: the cache holds nothing but the key ["solana"],
    and what it holds is a price object that some provider returned during
    one of the calls [ws], stamped with the time it was stored. *)
Definition genuine (ws : list World) (cache : gmap string CacheEntry) : Prop :=
  forall k c,
    cache !! k = Some c ->
    k = "solana"
    /\ exists w e, In w ws /\ In e ENDPOINTS
                   /\ outcome w e = Parsed (of_entry c)
                   /\ c_timestamp c = now_at w e.

End Price.

(** ** WalletAnalyzer.tsx: the portfolio value of [fetchWalletData] *)

Module Wallet.





End Wallet.

(** ** The specification's wording *)

(** Definitions that follow the words of the specification, to be compared
    with the functions above. *)

Module Spec.
Import Helius Analysis.
Local Open Scope Q_scope.

(** An array property, with an absent one read as empty. *)
Definition opt_list {A} (a : option (list A)) : list A :=
  match a with
  | Some l => l
  | None => []
  end.

Fixpoint Qsum (l : list Q) : Q :=
  match l with
  | [] => 0
  | x :: l' => x + Qsum l'
  end.

(** *** aggregate *)



(** *** estimateValue *)

(** "sum of absolute native-transfer amounts plus sum of absolute
    token-transfer amounts" *)
Definition abs_transfers (tx : HeliusTransaction) : Q :=
  Qsum (map (fun t => Qabs (NativeTransfer.amount t)) (opt_list (nativeTransfers tx)))
  + Qsum (map (fun t => Qabs (TokenTransfer.amount t)) (opt_list (tokenTransfers tx))).



(** What the code adds up instead: the transfer amounts as they are, and
    per account the magnitude of the native change plus the token
    magnitudes. *)
Definition plain_transfers (tx : HeliusTransaction) : Q :=
  Qsum (map NativeTransfer.amount (opt_list (nativeTransfers tx)))
  + Qsum (map TokenTransfer.amount (opt_list (tokenTransfers tx))).

Definition net_balance_changes (tx : HeliusTransaction) : Q :=
  Qsum (map (fun a =>
               Qabs (AccountData.nativeBalanceChange a
                     + Qsum (map (fun t => Qabs (TokenBalanceChange.amount t))
                                 (opt_list (AccountData.tokenBalanceChanges a)))))
            (opt_list (accountData tx))).

(** Every native and token transfer moves a non-negative amount. *)
Definition nonneg_transfers (tx : HeliusTransaction) : Prop :=
  (forall t, In t (opt_list (nativeTransfers tx)) -> 0 <= NativeTransfer.amount t)
  /\ (forall t, In t (opt_list (tokenTransfers tx)) -> 0 <= TokenTransfer.amount t).

(** *** normalize *)

(** Steps 2 and 3: "If native transfers exist, take the first native
    transfer only ... Else if token transfers exist, take the first token
    transfer only". *)
Definition transfer_step (tx : HeliusTransaction) (wallet : string)
           (v : Solana.locals) : Solana.locals :=
  if JS.nonempty (nativeTransfers tx)
  then Solana.native_step tx wallet v
  else Solana.token_step tx wallet v.

(** Steps 1 to 5 for a transaction object. *)
Definition normalize (now : Q) (tx : HeliusTransaction) (wallet : string)
  : option Solana.ProcessedTransaction :=
  Solana.finish now tx
    (Solana.swap_step tx (transfer_step tx wallet (Solana.init_locals tx))).

(** *** classify *)

(** The type string, lower-cased, contains [kw]. *)
Definition type_hint (tx : HeliusTransaction) (kw : string) : bool :=
  JS.includes (JS.toLowerCase (Helius.type tx)) kw.

(** The serialized body, lower-cased, contains [kw]. *)
Definition body_has (tx : HeliusTransaction) (kw : string) : bool :=
  JS.includes (JS.toLowerCase (JSON_stringify tx)) kw.

(** The native transfers whose sender is the transaction's source account,
    and the total they send. *)
Definition native_from_source (tx : HeliusTransaction) : list NativeTransfer.t :=
  List.filter (fun t => JS.strict_eq_str (Some (NativeTransfer.fromUserAccount t)) (source tx))
              (opt_list (nativeTransfers tx)).

(** The total of a list of amounts, added up in its order as the program
    adds numbers. *)
Definition total (amounts : list Q) : JS.number :=
  fold_left (fun sum x => JS.add sum (JS.round64 x)) amounts (JS.Fin 0).

Definition native_out (tx : HeliusTransaction) : JS.number :=
  total (map NativeTransfer.amount (native_from_source tx)).

Definition token_from_source (tx : HeliusTransaction) : list TokenTransfer.t :=
  List.filter (fun t => JS.strict_eq_str (Some (TokenTransfer.fromUserAccount t)) (source tx))
              (opt_list (tokenTransfers tx)).

Definition token_out (tx : HeliusTransaction) : JS.number :=
  total (map TokenTransfer.amount (token_from_source tx)).

(** The rules of classify, in their order of precedence. *)
Definition classify_rules : list ((HeliusTransaction -> bool) * TradeType) :=
  [ (fun tx => type_hint tx "buy" || type_hint tx "swap_in", buy);
    (fun tx => type_hint tx "sell" || type_hint tx "swap_out", sell);
    (fun tx => JS.lt (JS.Fin 0) (native_out tx), buy);
    (fun tx => JS.lt (JS.Fin 0) (token_out tx), sell);
    (fun tx => body_has tx "swap_exact_tokens_for_tokens"
               || body_has tx "swap_exact_sol_for_tokens", buy);
    (fun tx => body_has tx "swap_exact_tokens_for_sol"
               || body_has tx "swap_tokens_for_exact_sol", sell) ].

(** The result of the first rule that applies, Unknown when none does. *)
Fixpoint first_rule (rules : list ((HeliusTransaction -> bool) * TradeType))
         (tx : HeliusTransaction) : TradeType :=
  match rules with
  | [] => unknown
  | (applies, result) :: rest =>
      if applies tx then result else first_rule rest tx
  end.

Definition classify (tx : HeliusTransaction) : TradeType :=
  first_rule classify_rules tx.

End Spec.

(** ** Sample data *)

Module Samples.
Import Helius Price.
Local Open Scope Q_scope.

Definition W : string := "WaLLet111".
Definition X : string := "Xother222".
Definition Y : string := "Yother333".




(** A transaction without transfers, balance changes or trade keywords. *)
Definition quiet_tx : HeliusTransaction :=
  mkTx "5sig" "UNKNOWN" 1700000000 1 5000 (Some []) (Some []) (Some []) None.

(** Scenario A: the wallet sends 2 SOL. *)
Definition send_tx : HeliusTransaction :=
  mkTx "1sig" "TRANSFER" 1700000010 10 5000
       (Some [NativeTransfer.mk W X 2000000000]) (Some []) None None.

(** Scenario B: a native transfer of 500000 lamports. *)
Definition dust_tx : HeliusTransaction :=
  mkTx "2sig" "TRANSFER" 1700000011 11 5000
       (Some [NativeTransfer.mk W X 500000]) (Some []) None None.

(** The wallet sends 2 SOL and 7 tokens in one transaction. *)
Definition both_tx : HeliusTransaction :=
  mkTx "3sig" "TRANSFER" 1700000012 12 5000
       (Some [NativeTransfer.mk W X 2000000000])
       (Some [TokenTransfer.mk W Y "Mint1" 7]) None None.

(** A token transfer to the wallet of a negative amount. *)
Definition refund_tx : HeliusTransaction :=
  mkTx "4sig" "TRANSFER" 1700000013 13 5000 None
       (Some [TokenTransfer.mk X W "Mint1" (-5)]) None None.

(** A transfer of 2 SOL between two other accounts. *)
Definition bystander_tx : HeliusTransaction :=
  mkTx "9sig" "TRANSFER" 1700000014 14 5000
       (Some [NativeTransfer.mk X Y 2000000000]) None None None.

(** The same, reported by the source with the type SWAP. *)
Definition bystander_swap_tx : HeliusTransaction :=
  mkTx "9sig" "SWAP" 1700000014 14 5000
       (Some [NativeTransfer.mk X Y 2000000000]) None None None.

(** What [processTransaction] makes of these, read at time 0 for the
    wallet [W]. *)
Definition send_record : Solana.ProcessedTransaction :=
  Solana.mkProcessed "1sig" "Send SOL" (2000000000 / Solana.LAMPORTS_PER_SOL)
    1700000010 Solana.success "SOL" 5000 "Sent 2.000 SOL".

Definition both_record : Solana.ProcessedTransaction :=
  Solana.mkProcessed "3sig" "Send Token" 7
    1700000012 Solana.success "Token" 5000 "Sent 7 Token".

Definition both_record_spec : Solana.ProcessedTransaction :=
  Solana.mkProcessed "3sig" "Send SOL" (2000000000 / Solana.LAMPORTS_PER_SOL)
    1700000012 Solana.success "SOL" 5000 "Sent 2.000 SOL".

Definition refund_record : Solana.ProcessedTransaction :=
  Solana.mkProcessed "4sig" "Receive Token" (-5)
    1700000013 Solana.success "Token" 5000 "Received -5 Token".

Definition bystander_record : Solana.ProcessedTransaction :=
  Solana.mkProcessed "9sig" "TRANSFER" (2000000000 / Solana.LAMPORTS_PER_SOL)
    1700000014 Solana.success "SOL" 5000 EmptyString.

Definition bystander_swap_record : Solana.ProcessedTransaction :=
  Solana.mkProcessed "9sig" "Swap" (2000000000 / Solana.LAMPORTS_PER_SOL)
    1700000014 Solana.success "SOL" 5000 "Token Swap".

(** Scenario C: the wallet receives tokens in a transaction whose source
    is reported as JUPITER. *)
Definition jupiter_tx : HeliusTransaction :=
  mkTx "0sig" "UNKNOWN" 1700000015 15 5000 None
       (Some [TokenTransfer.mk X W "Mint1" 7]) None (Some "JUPITER").

(** The source account [W] pays 2 SOL and receives tokens. *)
Definition purchase_tx : HeliusTransaction :=
  mkTx "0sig" "UNKNOWN" 1700000016 16 5000
       (Some [NativeTransfer.mk W X 2000000000])
       (Some [TokenTransfer.mk X W "Mint1" 7]) None (Some W).

(** The source account [W] gives tokens away. *)
Definition disposal_tx : HeliusTransaction :=
  mkTx "0sig" "UNKNOWN" 1700000017 17 5000 None
       (Some [TokenTransfer.mk W X "Mint1" 7]) None (Some W).

(** The source account [W] sends 2^53, 1 and -2^53 lamports. *)
Definition absorbed_tx : HeliusTransaction :=
  mkTx "0sig" "UNKNOWN" 1700000019 19 5000
       (Some [NativeTransfer.mk W X 9007199254740992;
              NativeTransfer.mk W X 1;
              NativeTransfer.mk W X (-9007199254740992)])
       None None (Some W).

(** A swap with two transfers of 1e308 lamports: their sum is beyond the
    doubles. *)
Definition huge_tx : HeliusTransaction :=
  mkTx "0sig" "SWAP" 1700000020 20 5000
       (Some [NativeTransfer.mk W X (inject_Z (10 ^ 308));
              NativeTransfer.mk W X (inject_Z (10 ^ 308))])
       None None None.




(** A world in which every provider is unreachable. *)
Definition offline : World :=
  mkWorld 5000000 (fun _ => NetworkError) (fun _ => 5000001).

(** A world in which CoinGecko is down and Jupiter answers 150. *)
Definition online : World :=
  mkWorld 20 (fun e => match e with
                       | Jupiter => Parsed (mkPrice (JS.Fin 150) (JS.Fin 0))
                       | _ => HttpError 429
                       end)
          (fun _ => 30).

(** A cache entry stored at time 1000, expired at time 5000000. *)
Definition stale : CacheEntry := mkEntry (JS.Fin 42) (JS.Fin 1) 1000.

End Samples.

(** ** Further runtime: thrown errors, values, sorting *)

Module Exn.

(** The outcome of a call that may [throw new Error(message)]. *)
Inductive raised (A : Type) : Type :=
| Returned (a : A)
| Raised (message : string).
Arguments Returned {A} a.
Arguments Raised {A} message.

End Exn.

Module JsValue.
Import Json.

(** Truthiness of a value that came out of [JSON.parse]. *)
Definition truthy (j : json) : bool :=
  match j with
  | JNull => false
  | JBool b => b
  | JNum x => JS.truthy (JS.round64 x)
  | JStr s => negb (String.eqb s EmptyString)
  | JArr _ | JObj _ => true
  end.

(** [Array.isArray(j)] *)
Definition isArray (j : json) : bool :=
  match j with
  | JArr _ => true
  | _ => false
  end.

(** The own properties of an object, as a list in their order; a key is
    looked up at its first occurrence. *)
Fixpoint lookup (k : string) (props : list (string * json)) : option json :=
  match props with
  | [] => None
  | (k', v) :: rest => if String.eqb k k' then Some v else lookup k rest
  end.

(** [k in o] for a key that no prototype defines. *)
Definition has (k : string) (props : list (string * json)) : bool :=
  match lookup k props with
  | Some _ => true
  | None => false
  end.

(** [o[k] = v] for a key that [o] has: the property keeps its place. *)
Fixpoint assign (k : string) (v : json) (props : list (string * json))
  : list (string * json) :=
  match props with
  | [] => []
  | (k', v') :: rest =>
      if String.eqb k k' then (k', v) :: rest else (k', v') :: assign k v rest
  end.

(** [j.k] for a value [j] that is not null: a property of an object,
    undefined on an array or a primitive (for a key that is not an index). *)
Definition get (j : json) (k : string) : option json :=
  match j with
  | JObj props => lookup k props
  | _ => None
  end.

(** The properties that [{...j}] copies: those of an object, the indexed
    elements of an array, none of a primitive. *)
Fixpoint indexed (i : nat) (items : list json) : list (string * json) :=
  match items with
  | [] => []
  | x :: rest => (Z_to_string (Z.of_nat i), x) :: indexed (S i) rest
  end.

Definition spread (j : json) : list (string * json) :=
  match j with
  | JObj props => props
  | JArr items => indexed 0 items
  | _ => []
  end.

End JsValue.

Module Sorting.

(** [a.sort((x, y) => key(y) - key(x))].  The sort of an array is stable,
    and this comparator is consistent on finite keys, so the result is the
    one arrangement by descending key that keeps equal keys in their
    order; insertion from the right computes it. *)
Fixpoint insert_desc {A} (key : A -> Q) (x : A) (l : list A) : list A :=
  match l with
  | [] => [x]
  | y :: l' =>
      if Qle_bool (key y) (key x) then x :: y :: l'
      else y :: insert_desc key x l'
  end.

Definition sort_desc {A} (key : A -> Q) (l : list A) : list A :=
  fold_right (insert_desc key) [] l.

(** [descending key l]: every element has a key at least as large as the
    keys of the elements after it. *)
Definition descending {A} (key : A -> Q) (l : list A) : Prop :=
  StronglySorted (fun a b => (key b <= key a)%Q) l.

(** [a.slice(0, n)] *)
Definition slice0 {A} (n : nat) (a : list A) : list A := firstn n a.

End Sorting.

(** ** lib/solana.ts: the feed of [getTransactions] *)

Module Feed.
Import Exn.

(** [getTransactions]: [history] is the outcome of
    [heliusAPI.getTransactionHistory]; any error becomes
    'Failed to fetch transactions'. *)
Definition getTransactions (clock : nat -> Q)
           (history : raised (list (option Helius.HeliusTransaction)))
           (address : string) : raised (list Solana.ProcessedTransaction) :=
  match history with
  | Returned txs =>
      let processedTxs :=
        Sorting.sort_desc Solana.timestamp (Solana.processAll clock 0 txs address) in
      Returned processedTxs
  | Raised _ => Raised "Failed to fetch transactions"
  end.

(** The Recent Activity box of WalletAnalyzer.tsx:
    [transactions.slice(0, 5)]. *)
Definition recentActivity (transactions : list Solana.ProcessedTransaction)
  : list Solana.ProcessedTransaction :=
  Sorting.slice0 5 transactions.

End Feed.

(** ** lib/logger.ts: Logger *)

Module Logger.
Import Json.

Inductive LogLevel : Type := debug | info | warn | error.

(** [data] is undefined ([None]) when the caller passed nothing or a falsy
    value. *)
Record LogEntry : Type := mkLogEntry {
  timestamp : string;
  level : LogLevel;
  message : string;
  data : option json
}.

Definition maxLogs : nat := 1000.

Definition sensitiveKeys : list string :=
  ["privateKey"; "secret"; "password"; "apiKey"].

Definition REDACTED : json := JStr "[REDACTED]".

(** One turn of the loop of [sanitizeData], for the key [key]. *)
Definition redact_key (sanitized : list (string * json)) (key : string)
  : list (string * json) :=
  if JsValue.has key sanitized
  then JsValue.assign key REDACTED sanitized
  else sanitized.

(** The loop over the sensitive keys. *)
Definition redact (sanitized : list (string * json)) : list (string * json) :=
  fold_left redact_key sensitiveKeys sanitized.

(** [sanitizeData], on a value with the shape of JSON. *)
Definition sanitizeData (data : json) : json :=
  if negb (JsValue.truthy data) then data
  else match data with
       | JObj _ | JArr _ => JObj (redact (JsValue.spread data))
       | _ => data
       end.

(** [log]: [now] is [new Date().toISOString()]; the entry is pushed and,
    when the buffer grew past [maxLogs], the oldest one is shifted out.
    (The lines printed on the console are not part of the state.) *)
Definition log (now : string) (level : LogLevel) (message : string)
           (data : option json) (logs : list LogEntry) : list LogEntry :=
  let entry :=
    {| timestamp := now;
       level := level;
       message := message;
       data := match data with
               | Some d => if JsValue.truthy d then Some (sanitizeData d) else None
               | None => None
               end |} in
  let logs := (logs ++ [entry])%list in
  if (maxLogs <? length logs)%nat then tl logs else logs.

(** One call of [debug], [info], [warn] or [error], with the clock it
    reads. *)
Record Call : Type := mkCall {
  c_now : string;
  c_level : LogLevel;
  c_message : string;
  c_data : option json
}.

Definition call (c : Call) (logs : list LogEntry) : list LogEntry :=
  log (c_now c) (c_level c) (c_message c) (c_data c) logs.

(** The entry that a call pushes. *)
Definition entry_of (c : Call) : LogEntry :=
  {| timestamp := c_now c;
     level := c_level c;
     message := c_message c;
     data := match c_data c with
             | Some d => if JsValue.truthy d then Some (sanitizeData d) else None
             | None => None
             end |}.

(** A sequence of calls on the logger. *)
Definition calls (cs : list Call) (logs : list LogEntry) : list LogEntry :=
  fold_left (fun logs c => call c logs) cs logs.

Definition level_eqb (a b : LogLevel) : bool :=
  match a, b with
  | debug, debug | info, info | warn, warn | error, error => true
  | _, _ => false
  end.

(** [getLogs], [getLogsByLevel] and [clearLogs] *)
Definition getLogs (logs : list LogEntry) : list LogEntry := logs.

Definition getLogsByLevel (level0 : LogLevel) (logs : list LogEntry) : list LogEntry :=
  List.filter (fun entry => level_eqb (level entry) level0) logs.

Definition clearLogs (logs : list LogEntry) : list LogEntry := [].

End Logger.

(** ** lib/analysis.ts: the trades shown and the answer returned *)

Module Advice.
Import Exn Analysis.

(** [trades.sort((a, b) => b.timestamp - a.timestamp)] and the
    [slice(0, 5)] that the prompt lists. *)
Definition sortedTrades (trades : list Trade) : list Trade :=
  Sorting.sort_desc Analysis.timestamp trades.

Definition recentTrades (trades : list Trade) : list Trade :=
  Sorting.slice0 5 (sortedTrades trades).

(** One element of [response.choices]; [message.content] may be null. *)
Record Choice : Type := mkChoice {
  content : option string
}.

(** The outcome of [openai.chat.completions.create]: the request is
    rejected with an error, or answers with its choices. *)
Inductive Completion : Type :=
| Rejected (message : string)
| Completed (choices : list Choice).

(** [response.choices[0].message.content]: reading [message] of a missing
    first choice raises. *)
Definition first_content (completion : Completion) : raised (option string) :=
  match completion with
  | Rejected message => Raised message
  | Completed [] => Raised "Cannot read properties of undefined"
  | Completed (choice :: _) => Returned (content choice)
  end.

(** [content || d] *)
Definition content_or (c : option string) (d : string) : string :=
  match c with
  | Some s => JS.str_or_else s d
  | None => d
  end.

(** What [analyzeBatch] returns, from the outcome of its request (the
    steps before the request raise nothing). *)
Definition analyzeBatch_answer (completion : Completion) : string :=
  match first_content completion with
  | Returned c => content_or c "Unable to analyze transactions"
  | Raised _ => "Batch analysis unavailable"
  end.

(** What [analyzeTransaction] returns. *)
Definition analyzeTransaction_answer (completion : Completion) : string :=
  match first_content completion with
  | Returned c => content_or c "Unable to analyze transaction"
  | Raised _ => "Analysis unavailable"
  end.

End Advice.

(** ** lib/solana.ts: [getTokenAccounts], the path through
    getTokenAccountsByOwner *)

Module TokenAccounts.
Import Solana.

(** What [getParsedAccountInfo] gave for one account of the response:
    the call raised, or it answered with [parsed?.info], which may be
    undefined. *)
Inductive AccountLookup : Type :=
| LookupFailed
| Looked (parsedInfo : option ParsedInfo).

(** The callback of [response.value.map]: null when the lookup raised,
    when there is no parsed info or when [tokenAmount?.uiAmount] is falsy;
    [{mint, owner, amount, decimals}] otherwise. *)
Definition parse_account (a : AccountLookup) : option (string * string * Q * Q) :=
  match a with
  | LookupFailed => None
  | Looked None => None
  | Looked (Some parsedInfo) =>
      match tokenAmount parsedInfo with
      | Some ta =>
          if JS.Qis_zero (uiAmount ta) then None
          else Some (pi_mint parsedInfo, pi_owner parsedInfo,
                     uiAmount ta, ta_decimals ta)
      | None => None
      end
  end.

(** [tokenAccounts.filter(account => account !== null && account.amount > 0)] *)
Definition validAccounts (tokenAccounts : list (option (string * string * Q * Q)))
  : list (string * string * Q * Q) :=
  omap (fun account : option (string * string * Q * Q) =>
          match account with
          | Some (mint, owner, amount, decimals) =>
              if JS.Qgt_b amount 0 then Some (mint, owner, amount, decimals) else None
          | None => None
          end)
       tokenAccounts.

Definition getTokenAccounts_fallback (lookups : list AccountLookup)
           (metadata : list Helius.TokenMetadata) : list TokenAccountInfo :=
  let tokenAccounts := map parse_account lookups in
  map (enhance (metadataMap metadata)) (validAccounts tokenAccounts).

End TokenAccounts.

(** ** lib/helius.ts: HeliusAPI *)

Module HeliusApi.
Import Exn Json.

Definition HELIUS_API_URL : string := "https://api.helius.xyz/v0".

(** [urlWithKey] in [fetchWithTimeout]; the key is a constant of the
    module, taken here as an argument. *)
Definition urlWithKey (HELIUS_API_KEY url : string) : string :=
  if JS.includes url "api-key" then url
  else url ++ (if JS.includes url "?" then "&" else "?")
           ++ "api-key=" ++ HELIUS_API_KEY.

Record ApiResponse : Type := mkApiResponse {
  success : bool;
  data : option json;
  error : option string
}.

Definition failure (message : string) : ApiResponse :=
  {| success := false; data := None; error := Some message |}.

(** What the [catch] block of [fetchWithTimeout] receives: the abort of
    the timer, another Error with its message, or a value that is not an
    Error. *)
Inductive Thrown : Type :=
| AbortError
| OtherError (message : string)
| NotAnError.

(** [response.text()] raises, or gives the text; [parsed] is the result of
    [JSON.parse] on that text, [None] when it raises. *)
Inductive Body : Type :=
| BodyFails (e : Thrown)
| BodyText (text : string) (parsed : option json).

Record Response : Type := mkResponse {
  ok : bool;
  status : nat;
  statusText : string;
  body : Body
}.

(** The outcome of [fetch]. *)
Inductive Fetched : Type :=
| FetchFails (e : Thrown)
| Responded (response : Response).

Definition nat_to_string (n : nat) : string := Z_to_string (Z.of_nat n).

(** The [catch] block. *)
Definition on_thrown (timeout : nat) (e : Thrown) : ApiResponse :=
  match e with
  | AbortError => failure ("Request timeout after " ++ nat_to_string timeout ++ "ms")
  | OtherError message => failure message
  | NotAnError => failure "Unknown error occurred"
  end.

Definition fetchWithTimeout (timeout : nat) (fetched : Fetched) : ApiResponse :=
  match fetched with
  | FetchFails e => on_thrown timeout e
  | Responded response =>
      if negb (ok response) then
        match body response with
        | BodyFails e => on_thrown timeout e
        | BodyText errorText _ =>
            failure ("HTTP " ++ nat_to_string (status response) ++ ": "
                     ++ JS.str_or_else errorText (statusText response))
        end
      else
        match body response with
        | BodyFails e => on_thrown timeout e
        | BodyText _ None => failure "Invalid JSON response"
        | BodyText _ (Some JNull) => failure "Empty response received"
        | BodyText _ (Some responseData) =>
            {| success := true; data := Some responseData; error := None |}
        end
  end.

(** [from_parsed_body fetched d]: the reply was ok and its body parsed to
    [d], a value other than null. *)
Definition from_parsed_body (fetched : Fetched) (d : json) : Prop :=
  exists response text,
    fetched = Responded response /\ ok response = true
    /\ body response = BodyText text (Some d) /\ d <> JNull.

(** [!response.success || !response.data] *)
Definition unusable (response : ApiResponse) : bool :=
  negb (success response)
  || match data response with
     | Some d => negb (JsValue.truthy d)
     | None => true
     end.

(** [response.error || 'No data received'] *)
Definition error_or_default (response : ApiResponse) : string :=
  match error response with
  | Some e => JS.str_or_else e "No data received"
  | None => "No data received"
  end.

(** [v || []] where [v] may be undefined *)
Definition or_empty_array (v : option json) : json :=
  match v with
  | Some j => if JsValue.truthy j then j else JArr []
  | None => JArr []
  end.

Definition getTransactionHistory (response : ApiResponse) : raised (list json) :=
  if unusable response then
    Raised ("Failed to fetch transaction history: " ++ error_or_default response)
  else
    match data response with
    | None => Raised ("Failed to fetch transaction history: " ++ error_or_default response)
    | Some d =>
        let transactions :=
          if JsValue.isArray d then d
          else or_empty_array (JsValue.get d "transactions") in
        match transactions with
        | JArr items => Returned items
        | _ => Raised "Invalid response format: expected array of transactions"
        end
    end.

(** [getTokenMetadata]: for an empty list of mints no request is made;
    [response] is what the request gives otherwise. *)
Definition getTokenMetadata (mints : list string) (response : ApiResponse)
  : raised (list json) :=
  match mints with
  | [] => Returned []
  | _ :: _ =>
      if unusable response then
        Raised ("Failed to fetch token metadata: " ++ error_or_default response)
      else
        match data response with
        | None => Raised ("Failed to fetch token metadata: " ++ error_or_default response)
        | Some d =>
            let metadata :=
              if JsValue.isArray d then Some d else JsValue.get d "tokens" in
            match metadata with
            | Some (JArr items) => Returned items
            | _ => Raised "Invalid response format: expected array of token metadata"
            end
        end
  end.

Definition parseTransaction (response : ApiResponse) : raised json :=
  if unusable response then
    Raised ("Failed to parse transaction: " ++ error_or_default response)
  else
    match data response with
    | None => Raised ("Failed to parse transaction: " ++ error_or_default response)
    | Some d =>
        let transactions :=
          if JsValue.isArray d then Some d else JsValue.get d "transactions" in
        match transactions with
        | Some (JArr (first :: _)) => Returned first
        | _ => Raised "Invalid response format: expected array with transaction data"
        end
    end.

End HeliusApi.

(** ** lib/solana.ts: [processTransaction] on any value *)

(** The entries of a transaction history are whatever JSON.parse made of
    the reply: [HeliusApi.getTransactionHistory] checks that the payload is
    an array and nothing more.  This module models [processTransaction] on
    every such value, with the conversions that JavaScript applies to
    values of any type.  On an object that has the declared properties it
    raises nothing and labels the record as [Solana.processTransaction]
    does (see [typed_labels]). *)

Module Dynamic.
Import Json.

(** A value at run time: undefined, a number that the program computed,
    or a value that JSON.parse returned (a number among these is the double
    of its literal). *)
Inductive value : Type :=
| Undefined
| Number (x : JS.number)
| Parsed (j : json).

Definition of_property (v : option json) : value :=
  match v with
  | Some j => Parsed j
  | None => Undefined
  end.

(** [v === null || v === undefined] *)
Definition nullish (v : value) : bool :=
  match v with
  | Undefined | Parsed JNull => true
  | _ => false
  end.

Definition truthy (v : value) : bool :=
  match v with
  | Undefined => false
  | Number x => JS.truthy x
  | Parsed j => JsValue.truthy j
  end.

(** [v || d] *)
Definition or_else (v d : value) : value := if truthy v then v else d.

(** [typeof v === 'number'] *)
Definition is_number (v : value) : bool :=
  match v with
  | Number _ | Parsed (JNum _) => true
  | _ => false
  end.

(** *** ToString *)

Definition no_primitive : JS.exn :=
  JS.TypeError "Cannot convert object to primitive value".

(** [String(j)].  An array is the join of its elements, null among them
    as the empty string.  An object is "[object Object]", by the method
    [toString] that it inherits; when the object has a property of that
    name, which is no function in a value that JSON.parse returned, the
    conversion finds no method that gives a primitive, and raises. *)
Fixpoint json_to_string (j : json) : JS.result string :=
  match j with
  | JNull => mret "null"
  | JBool true => mret "true"
  | JBool false => mret "false"
  | JNum x => mret (number_to_string x)
  | JStr s => mret s
  | JArr items =>
      parts ← (fix elements (l : list json) : JS.result (list string) :=
                 match l with
                 | [] => mret []
                 | item :: rest =>
                     s ← match item with
                         | JNull => mret EmptyString
                         | _ => json_to_string item
                         end;
                     ss ← elements rest;
                     mret (s :: ss)
                 end) items;
      mret (join "," parts)
  | JObj props =>
      if JsValue.has "toString" props then JS.Throw no_primitive
      else mret "[object Object]"
  end.

Definition to_string (v : value) : JS.result string :=
  match v with
  | Undefined => mret "undefined"
  | Number x => mret (Number_toString x)
  | Parsed j => json_to_string j
  end.

(** *** ToNumber *)

(** White space and line terminators, among the ASCII characters. *)
Definition is_space (c : ascii) : bool :=
  let n := nat_of_ascii c in
  ((9 <=? n)%nat && (n <=? 13)%nat) || (n =? 32)%nat.

Fixpoint trim_left (s : string) : string :=
  match s with
  | EmptyString => EmptyString
  | String c s' => if is_space c then trim_left s' else s
  end.

Fixpoint trim_right (s : string) : string :=
  match s with
  | EmptyString => EmptyString
  | String c s' =>
      match trim_right s' with
      | EmptyString => if is_space c then EmptyString else String c EmptyString
      | t => String c t
      end
  end.

Definition trim (s : string) : string := trim_right (trim_left s).

(** The value of [c] as a digit in base [base]. *)
Definition digit_of (base : Z) (c : ascii) : option Z :=
  let n := Z.of_nat (nat_of_ascii c) in
  let d := if ((48 <=? n) && (n <=? 57))%Z then Some (n - 48)%Z
           else if ((97 <=? n) && (n <=? 102))%Z then Some (n - 87)%Z
           else if ((65 <=? n) && (n <=? 70))%Z then Some (n - 55)%Z
           else None in
  match d with
  | Some v => if (v <? base)%Z then Some v else None
  | None => None
  end.

(** The digits at the start of [s]: their value after [acc], their number
    after [count], and what follows them. *)
Fixpoint take_digits (base : Z) (s : string) (acc : Z) (count : nat)
  : Z * nat * string :=
  match s with
  | EmptyString => (acc, count, EmptyString)
  | String c s' =>
      match digit_of base c with
      | Some d => take_digits base s' (acc * base + d)%Z (S count)
      | None => (acc, count, s)
      end
  end.

(** The digits of a literal with the prefix 0x, 0o or 0b. *)
Definition integer_literal (base : Z) (s : string) : JS.number :=
  match take_digits base s 0 0 with
  | (v, S _, EmptyString) => JS.round64 (inject_Z v)
  | _ => JS.NaN
  end.

(** The exponent part of a decimal literal, which may be missing. *)
Definition exponent_part (s : string) : option Z :=
  match s with
  | EmptyString => Some 0%Z
  | String c s' =>
      if Ascii.eqb c "e" || Ascii.eqb c "E" then
        let '(sign, digits) :=
          match s' with
          | String "+" t => (1%Z, t)
          | String "-" t => ((-1)%Z, t)
          | _ => (1%Z, s')
          end in
        match take_digits 10 digits 0 0 with
        | (v, S _, EmptyString) => Some (sign * v)%Z
        | _ => None
        end
      else None
  end.

(** The double of [m * 10 ^ p] for [m >= 0].  Far outside the range of the
    doubles the result is known without the power: [m >= 1] makes
    [m * 10 ^ p] at least [10 ^ p], and [m < 2 ^ bits] makes it less than
    [10 ^ (bits + p)]. *)
Definition decimal_value (m p : Z) : JS.number :=
  if (m =? 0)%Z then JS.Fin 0
  else if (400 <? p)%Z then JS.PInf
  else if (Z.log2 m + 1 + p <? -400)%Z then JS.Fin 0
  else JS.round64 (times_pow10 m p).

(** StrUnsignedDecimalLiteral: Infinity, or digits with an optional
    fraction and an optional exponent, at least one digit before the
    exponent. *)
Definition unsigned_decimal (s : string) : JS.number :=
  if String.eqb s "Infinity" then JS.PInf
  else
    let '(int_part, int_digits, rest) := take_digits 10 s 0 0 in
    let '(mantissa, frac_digits, rest) :=
      match rest with
      | String "." t => take_digits 10 t int_part 0
      | _ => (int_part, O, rest)
      end in
    if (int_digits + frac_digits =? 0)%nat then JS.NaN
    else match exponent_part rest with
         | Some e => decimal_value mantissa (e - Z.of_nat frac_digits)
         | None => JS.NaN
         end.

(** StringToNumber: the text without the white space around it is empty
    (zero), a signed decimal literal, or an unsigned literal in base 16, 8
    or 2; anything else is NaN. *)
Definition StringToNumber (s : string) : JS.number :=
  let t := trim s in
  match t with
  | EmptyString => JS.Fin 0
  | String "+" u => unsigned_decimal u
  | String "-" u => JS.neg (unsigned_decimal u)
  | String "0" (String c u) =>
      if Ascii.eqb c "x" || Ascii.eqb c "X" then integer_literal 16 u
      else if Ascii.eqb c "o" || Ascii.eqb c "O" then integer_literal 8 u
      else if Ascii.eqb c "b" || Ascii.eqb c "B" then integer_literal 2 u
      else unsigned_decimal t
  | _ => unsigned_decimal t
  end.

(** [Number(v)]: an array or an object is first made a string, which
    may raise. *)
Definition to_number (v : value) : JS.result JS.number :=
  match v with
  | Undefined => mret JS.NaN
  | Number x => mret x
  | Parsed JNull => mret (JS.Fin 0)
  | Parsed (JBool true) => mret (JS.Fin 1)
  | Parsed (JBool false) => mret (JS.Fin 0)
  | Parsed (JNum x) => mret (JS.round64 x)
  | Parsed (JStr s) => mret (StringToNumber s)
  | Parsed j =>
      text ← json_to_string j;
      mret (StringToNumber text)
  end.

(** *** Properties *)

(** The index that the key [k] denotes: a canonical numeric string. *)
Definition index_of (k : string) : option nat :=
  match k with
  | String "0" EmptyString => Some O
  | String "0" _ => None
  | _ =>
      match take_digits 10 k 0 0 with
      | (v, S _, EmptyString) => Some (Z.to_nat v)
      | _ => None
      end
  end.

(** [v.k] for a value that is neither null nor undefined, and for a key
    that no prototype defines: an own property of an object, an element or
    the length of an array, a character or the length of a string,
    undefined otherwise. *)
Definition prop (v : value) (k : string) : value :=
  match v with
  | Parsed (JObj props) => of_property (JsValue.lookup k props)
  | Parsed (JArr items) =>
      if String.eqb k "length"
      then Number (JS.Fin (inject_Z (Z.of_nat (length items))))
      else match index_of k with
           | Some i => of_property (nth_error items i)
           | None => Undefined
           end
  | Parsed (JStr s) =>
      if String.eqb k "length"
      then Number (JS.Fin (inject_Z (Z.of_nat (String.length s))))
      else match index_of k with
           | Some i => match String.get i s with
                       | Some c => Parsed (JStr (String c EmptyString))
                       | None => Undefined
                       end
           | None => Undefined
           end
  | _ => Undefined
  end.

(** [v.k]: reading a property of null or undefined raises a TypeError. *)
Definition get (v : value) (k : string) : JS.result value :=
  if nullish v
  then JS.Throw (JS.TypeError "Cannot read properties of null or undefined")
  else JS.Ok (prop v k).

(** [v === s] for a string [s], and [v === 0]. *)
Definition is_string (v : value) (s : string) : bool :=
  match v with
  | Parsed (JStr t) => String.eqb t s
  | _ => false
  end.

Definition is_zero (v : value) : bool :=
  match v with
  | Number x => JS.strict_eq x (JS.Fin 0)
  | Parsed (JNum x) => JS.strict_eq (JS.round64 x) (JS.Fin 0)
  | _ => false
  end.

(** [JSON.stringify(v)], which is undefined for undefined. *)
Definition JSON_stringify (v : value) : option string :=
  match v with
  | Undefined => None
  | Number (JS.Fin x) => Some (Number_toString (JS.Fin x))
  | Number _ => Some "null"
  | Parsed j => Some (stringify j)
  end.

(** *** [processTransaction] *)

Record ProcessedTransaction : Type := mkProcessed {
  signature : value;
  type : value;
  amount : value;
  timestamp : value;
  status : Solana.Status;
  tokenSymbol : string;
  fee : value;
  description : string
}.

Record locals : Type := mkLocals {
  l_type : value;
  l_amount : value;
  l_tokenSymbol : string;
  l_description : string
}.

(** [// Process native SOL transfers] *)
Definition native_step (tx : value) (walletAddress : string) (v : locals)
  : JS.result locals :=
  nativeTransfers ← get tx "nativeTransfers";
  if truthy nativeTransfers then
    len ← get nativeTransfers "length";
    len ← to_number len;
    if JS.gt len (JS.Fin 0) then
      transfer ← get nativeTransfers "0";
      lamports ← get transfer "amount";
      lamports ← to_number lamports;
      let amount := JS.div lamports (JS.Fin Solana.LAMPORTS_PER_SOL) in
      from ← get transfer "fromUserAccount";
      if is_string from walletAddress then
        mret {| l_type := Parsed (JStr "Send SOL");
                l_amount := Number amount;
                l_tokenSymbol := l_tokenSymbol v;
                l_description := "Sent " ++ Number_toFixed amount 3 ++ " SOL" |}
      else
        to ← get transfer "toUserAccount";
        if is_string to walletAddress then
          mret {| l_type := Parsed (JStr "Receive SOL");
                  l_amount := Number amount;
                  l_tokenSymbol := l_tokenSymbol v;
                  l_description := "Received " ++ Number_toFixed amount 3 ++ " SOL" |}
        else
          mret {| l_type := l_type v;
                  l_amount := Number amount;
                  l_tokenSymbol := l_tokenSymbol v;
                  l_description := l_description v |}
    else mret v
  else mret v.

(** [// Process token transfers] *)
Definition token_step (tx : value) (walletAddress : string) (v : locals)
  : JS.result locals :=
  tokenTransfers ← get tx "tokenTransfers";
  if truthy tokenTransfers then
    len ← get tokenTransfers "length";
    len ← to_number len;
    if JS.gt len (JS.Fin 0) then
      transfer ← get tokenTransfers "0";
      amount ← get transfer "amount";
      let tokenSymbol := "Token" in
      from ← get transfer "fromUserAccount";
      if is_string from walletAddress then
        printed ← to_string amount;
        mret {| l_type := Parsed (JStr "Send Token");
                l_amount := amount;
                l_tokenSymbol := tokenSymbol;
                l_description := "Sent " ++ printed ++ " " ++ tokenSymbol |}
      else
        to ← get transfer "toUserAccount";
        if is_string to walletAddress then
          printed ← to_string amount;
          mret {| l_type := Parsed (JStr "Receive Token");
                  l_amount := amount;
                  l_tokenSymbol := tokenSymbol;
                  l_description := "Received " ++ printed ++ " " ++ tokenSymbol |}
        else
          mret {| l_type := l_type v;
                  l_amount := amount;
                  l_tokenSymbol := tokenSymbol;
                  l_description := l_description v |}
    else mret v
  else mret v.

(** [// Check for swaps] *)
Definition swap_step (tx : value) (v : locals) : JS.result locals :=
  text ← JS.deref (JSON_stringify tx);
  let txString := JS.toLowerCase text in
  if JS.includes txString "swap" || JS.includes txString "jupiter"
     || JS.includes txString "orca"
  then mret {| l_type := Parsed (JStr "Swap");
               l_amount := l_amount v;
               l_tokenSymbol := l_tokenSymbol v;
               l_description := "Token Swap" |}
  else mret v.

(** [tokenSymbol === 'SOL' && amount < MIN_SOL_AMOUNT]: the comparison
    is made, and the amount converted, only for the symbol SOL. *)
Definition too_small (v : locals) : JS.result bool :=
  if String.eqb (l_tokenSymbol v) "SOL" then
    amount ← to_number (l_amount v);
    mret (JS.lt amount (JS.round64 Solana.MIN_SOL_AMOUNT))
  else mret false.

(** The two filters and the record that is returned. *)
Definition finish (now : Q) (tx : value) (v : locals)
  : JS.result (option ProcessedTransaction) :=
  JS.bind (too_small v) (fun small =>
  if small then mret None
  else if is_zero (l_amount v)
  then mret None
  else
    signature ← get tx "signature";
    timestamp ← get tx "timestamp";
    fee ← get tx "fee";
    mret (Some {| signature := or_else signature (Parsed (JStr EmptyString));
                  type := l_type v;
                  amount := l_amount v;
                  timestamp := or_else timestamp (Number (JS.Fin now));
                  status := Solana.success;
                  tokenSymbol := l_tokenSymbol v;
                  fee := or_else fee (Number (JS.Fin 0));
                  description := l_description v |})).

(** The body of the [try] block. *)
Definition processTransaction_try (now : Q) (tx : value) (walletAddress : string)
  : JS.result (option ProcessedTransaction) :=
  type ← get tx "type";
  let v := {| l_type := or_else type (Parsed (JStr "Unknown"));
              l_amount := Number (JS.Fin 0);
              l_tokenSymbol := "SOL";
              l_description := EmptyString |} in
  v ← native_step tx walletAddress v;
  v ← token_step tx walletAddress v;
  v ← swap_step tx v;
  finish now tx v.

(** [try { body } catch (error) { handler }] *)
Definition try_catch {A} (body : JS.result A) (handler : JS.exn -> JS.result A)
  : JS.result A :=
  match body with
  | JS.Ok a => JS.Ok a
  | JS.Throw e => handler e
  end.

(** [processTransaction]: the [catch] block logs the error and returns
    null. *)
Definition processTransaction (now : Q) (tx : value) (walletAddress : string)
  : JS.result (option ProcessedTransaction) :=
  try_catch (processTransaction_try now tx walletAddress) (fun error => mret None).

(** [txs.map(tx => this.processTransaction(tx, address))
        .filter(tx => tx !== null)]: an exception in a call of the [map]
    would end it; the [i]-th call reads the clock as [clock i]. *)
Fixpoint processAll (clock : nat -> Q) (i : nat) (txs : list value)
         (address : string) : JS.result (list ProcessedTransaction) :=
  match txs with
  | [] => mret []
  | tx :: rest =>
      r ← processTransaction (clock i) tx address;
      rs ← processAll clock (S i) rest address;
      mret (match r with
            | Some p => p :: rs
            | None => rs
            end)
  end.

(** *** The inputs that raise *)

(** The first element of the array property [k], when the guard
    [tx.k && tx.k.length > 0] lets the branch run. *)
Definition first_transfer (tx : value) (k : string) : option value :=
  let transfers := prop tx k in
  if truthy transfers then
    match to_number (prop transfers "length") with
    | JS.Ok len => if JS.gt len (JS.Fin 0) then Some (prop transfers "0") else None
    | JS.Throw _ => None
    end
  else None.

Definition missing_first (tx : value) (k : string) : bool :=
  match first_transfer tx k with
  | Some transfer => nullish transfer
  | None => false
  end.

(** The transaction is null or undefined, or a branch runs on a first
    transfer that is null or undefined. *)
Definition malformed (tx : value) : bool :=
  nullish tx || missing_first tx "nativeTransfers" || missing_first tx "tokenTransfers".

(** *** The typed model *)

(** The variables of this model carry the labels of the variables of the
    typed model, and a number as the amount. *)
Definition same_labels (v : locals) (t : Solana.locals) : Prop :=
  l_type v = Parsed (JStr (Solana.l_type t))
  /\ l_tokenSymbol v = Solana.l_tokenSymbol t
  /\ l_description v = Solana.l_description t
  /\ is_number (l_amount v) = true.

End Dynamic.

(** ** Readings of the normalizer and the classifier *)

Module Reading.
Import Helius Analysis.

(** A record with the label of a swap. *)
Definition relabel_swap (r : Solana.ProcessedTransaction) : Solana.ProcessedTransaction :=
  {| Solana.signature := Solana.signature r;
     Solana.type := "Swap";
     Solana.amount := Solana.amount r;
     Solana.timestamp := Solana.timestamp r;
     Solana.status := Solana.status r;
     Solana.tokenSymbol := Solana.tokenSymbol r;
     Solana.fee := Solana.fee r;
     Solana.description := "Token Swap" |}.

(** The variables after the native and the token step, before the swap
    step. *)
Definition by_transfers (tx : HeliusTransaction) (walletAddress : string)
  : Solana.locals :=
  Solana.token_step tx walletAddress
    (Solana.native_step tx walletAddress (Solana.init_locals tx)).

(** The rules of [classifyTradeType] that read the type string and the
    serialized body, in their order. *)
Definition text_rules : list ((HeliusTransaction -> bool) * TradeType) :=
  [ (fun tx => Spec.type_hint tx "buy" || Spec.type_hint tx "swap_in", buy);
    (fun tx => Spec.type_hint tx "sell" || Spec.type_hint tx "swap_out", sell);
    (fun tx => Spec.body_has tx "swap_exact_tokens_for_tokens"
               || Spec.body_has tx "swap_exact_sol_for_tokens", buy);
    (fun tx => Spec.body_has tx "swap_exact_tokens_for_sol"
               || Spec.body_has tx "swap_tokens_for_exact_sol", sell) ].

(** One property of an object in its serialization. *)
Definition stringify_prop (kv : string * Json.json) : string :=
  Json.quote (fst kv) ++ ":" ++ Json.stringify (snd kv).

(** A character of a keyword: a lower-case letter or an underscore. *)
Definition keyword_char (c : ascii) : bool :=
  let n := nat_of_ascii c in
  ((97 <=? n)%nat && (n <=? 122)%nat) || (n =? 95)%nat.

Fixpoint keyword (kw : string) : bool :=
  match kw with
  | EmptyString => true
  | String c kw' => keyword_char c && keyword kw'
  end.

End Reading.

(** ** More sample data *)

Module MoreSamples.
Import Samples.
Local Open Scope Q_scope.

(** A history of three entries, one of them null, and its feed. *)
Definition history3 : list (option Helius.HeliusTransaction) :=
  [Some send_tx; None; Some bystander_tx].

Definition feed3 : list Solana.ProcessedTransaction :=
  [bystander_record; send_record].

(** A call of the logger with a password in its data. *)
Definition secret_props : list (string * Json.json) :=
  [("user", Json.JStr "bob"); ("password", Json.JStr "hunter2")].

Definition secret_call : Logger.Call :=
  Logger.mkCall "2024-01-01T00:00:00.000Z" Logger.info "login"
                (Some (Json.JObj secret_props)).

Definition plain_call : Logger.Call :=
  Logger.mkCall "2024-01-01T00:00:01.000Z" Logger.debug "tick" None.

(** A request that answered with one choice. *)
Definition answered : Advice.Completion :=
  Advice.Completed [Advice.mkChoice (Some "Mostly buys, few sells.")].

(** A world, 1000 ms after [online] stored its price, in which every
    provider is unreachable. *)
Definition soon : Price.World :=
  Price.mkWorld 1030 (fun _ => Price.NetworkError) (fun _ => 1031).

(** An entry whose list of native transfers holds null, and the records
    of the entries around it. *)
Definition first_is_null : Dynamic.value :=
  Dynamic.Parsed
    (Json.JObj [("signature", Json.JStr "bad1"); ("type", Json.JStr "TRANSFER");
                ("nativeTransfers", Json.JArr [Json.JNull])]).

Definition send_seen : Dynamic.ProcessedTransaction :=
  Dynamic.mkProcessed
    (Dynamic.Parsed (Json.JStr "1sig")) (Dynamic.Parsed (Json.JStr "Send SOL"))
    (Dynamic.Number (JS.Fin 2)) (Dynamic.Parsed (Json.JNum 1700000010))
    Solana.success "SOL" (Dynamic.Parsed (Json.JNum 5000)) "Sent 2.000 SOL".

Definition bystander_seen : Dynamic.ProcessedTransaction :=
  Dynamic.mkProcessed
    (Dynamic.Parsed (Json.JStr "9sig")) (Dynamic.Parsed (Json.JStr "TRANSFER"))
    (Dynamic.Number (JS.Fin 2)) (Dynamic.Parsed (Json.JNum 1700000014))
    Solana.success "SOL" (Dynamic.Parsed (Json.JNum 5000)) EmptyString.

(** The wallet sends 1000500000 lamports: the quotient by 1e9 is the
    double just under 1.0005. *)
Definition fraction_tx : Helius.HeliusTransaction :=
  Helius.mkTx "5sig" "TRANSFER" 1700000018 18 5000
    (Some [NativeTransfer.mk W X 1000500000]) None None None.

(** An error payload of the indexing API. *)
Definition error_props : list (string * Json.json) :=
  [("message", Json.JStr "rate limited")].

End MoreSamples.

(** * Properties *)

(** ** Arithmetic of the runtime *)

Section Arithmetic.
Local Open Scope Q_scope.

Lemma Qis_zero_true (q : Q) : JS.Qis_zero q = true <-> q == 0.
Proof.
  unfold JS.Qis_zero, Qeq. simpl. rewrite Z.eqb_eq. lia.
Qed.

Lemma Qis_zero_false (q : Q) : JS.Qis_zero q = false <-> ~ q == 0.
Proof.
  rewrite <- Qis_zero_true. destruct (JS.Qis_zero q); split; congruence.
Qed.

Lemma Qlt_b_true (x y : Q) : JS.Qlt_b x y = true <-> x < y.
Proof.
  unfold JS.Qlt_b. rewrite negb_true_iff, <- not_true_iff_false, Qle_bool_iff.
  split; [apply Qnot_le_lt | apply Qlt_not_le].
Qed.

Lemma Qlt_b_false (x y : Q) : JS.Qlt_b x y = false <-> y <= x.
Proof.
  unfold JS.Qlt_b. rewrite negb_false_iff. apply Qle_bool_iff.
Qed.

Lemma Qstrict_eq_true (x y : Q) : JS.Qstrict_eq x y = true <-> x == y.
Proof. apply Qeq_bool_iff. Qed.

Lemma Qstrict_eq_false (x y : Q) : JS.Qstrict_eq x y = false <-> ~ x == y.
Proof.
  rewrite <- Qstrict_eq_true. destruct (JS.Qstrict_eq x y); split; congruence.
Qed.

Lemma Qor_else_zero (x : Q) : JS.Qor_else x 0 == x.
Proof.
  unfold JS.Qor_else. destruct (JS.Qis_zero x) eqn:E; [|reflexivity].
  apply Qis_zero_true in E. symmetry. exact E.
Qed.

Lemma Math_max_lub (x y : Q) : x <= JS.Math_max x y /\ y <= JS.Math_max x y.
Proof.
  unfold JS.Math_max. destruct (Qle_bool x y) eqn:E.
  - apply Qle_bool_iff in E. split; [exact E | apply Qle_refl].
  - split; [apply Qle_refl|].
    apply Qlt_le_weak, Qnot_le_lt. rewrite <- Qle_bool_iff. congruence.
Qed.

Lemma Math_max_cases (x y : Q) : JS.Math_max x y = x \/ JS.Math_max x y = y.
Proof. unfold JS.Math_max. destruct (Qle_bool x y); auto. Qed.

End Arithmetic.

(** ** Rounding keeps the sign *)

Section Binary64.
Local Open Scope Q_scope.

Lemma scale_pos (n d u : Z) :
  (0 < n)%Z -> (0 < d)%Z ->
  (0 < fst (JS.scale n d u))%Z /\ (0 < snd (JS.scale n d u))%Z.
Proof.
  intros Hn Hd. unfold JS.scale. destruct (0 <=? u)%Z eqn:E; simpl.
  - split; [exact Hn|]. apply Z.mul_pos_pos; [exact Hd|].
    apply Z.pow_pos_nonneg; lia.
  - split; [|exact Hd]. apply Z.mul_pos_pos; [exact Hn|].
    apply Z.pow_pos_nonneg; lia.
Qed.

Lemma nearest_even_nonneg (a b : Z) :
  (0 <= a)%Z -> (0 < b)%Z -> (0 <= JS.nearest_even a b)%Z.
Proof.
  intros Ha Hb. unfold JS.nearest_even.
  assert (0 <= a / b)%Z by (apply Z.div_pos; assumption).
  destruct (2 * (a mod b) <? b)%Z; [assumption|].
  destruct (b <? 2 * (a mod b))%Z; [lia|].
  destruct (Z.even (a / b)); lia.
Qed.

Lemma times_pow2_nonneg (m u : Z) : (0 <= m)%Z -> 0 <= JS.times_pow2 m u.
Proof.
  intros Hm. unfold JS.times_pow2. rewrite Qred_correct.
  destruct (0 <=? u)%Z eqn:E; unfold Qle; simpl.
  - assert (0 < 2 ^ u)%Z by (apply Z.pow_pos_nonneg; lia). nia.
  - lia.
Qed.

Lemma round_pos_nonneg (n d : Z) :
  (0 < n)%Z -> (0 < d)%Z -> JS.nonneg (JS.round_pos n d).
Proof.
  intros Hn Hd. unfold JS.round_pos.
  set (u := Z.max (JS.floor_log2 n d - 52) (-1074)).
  destruct (scale_pos n d u Hn Hd) as [Ha Hb].
  destruct (JS.scale n d u) as [a b]. simpl in Ha, Hb.
  destruct (1024 <=? Z.log2 (JS.nearest_even a b) + u)%Z; simpl; [exact I|].
  apply times_pow2_nonneg, nearest_even_nonneg; lia.
Qed.

Lemma round64_nonneg (q : Q) : 0 <= q -> JS.nonneg (JS.round64 q).
Proof.
  intros Hq. unfold JS.round64. destruct q as [n d]. simpl.
  destruct n as [|n|n].
  - simpl. apply Qle_refl.
  - apply round_pos_nonneg; lia.
  - exfalso. unfold Qle in Hq. simpl in Hq. lia.
Qed.

(** A double that is falsy is zero. *)
Lemma times_pow2_zero (m u : Z) :
  JS.Qis_zero (JS.times_pow2 m u) = true -> JS.times_pow2 m u = 0.
Proof.
  unfold JS.times_pow2. intros H. apply Qis_zero_true in H.
  rewrite Qred_correct in H. apply Qred_complete in H. exact H.
Qed.

Lemma round_pos_falsy (n d : Z) :
  JS.truthy (JS.round_pos n d) = false -> JS.round_pos n d = JS.Fin 0.
Proof.
  unfold JS.round_pos.
  destruct (JS.scale n d _) as [a b].
  destruct (1024 <=? _)%Z; simpl; [discriminate|].
  intros H. apply negb_false_iff in H. rewrite (times_pow2_zero _ _ H). reflexivity.
Qed.

Lemma round_pos_shape (n d : Z) :
  JS.round_pos n d = JS.PInf \/ exists x, JS.round_pos n d = JS.Fin x.
Proof.
  unfold JS.round_pos. destruct (JS.scale n d _) as [a b].
  destruct (1024 <=? _)%Z; eauto.
Qed.

Lemma round64_falsy (q : Q) :
  JS.truthy (JS.round64 q) = false -> JS.round64 q = JS.Fin 0.
Proof.
  unfold JS.round64. destruct (Qnum q) as [|n|n]; [reflexivity | apply round_pos_falsy |].
  pose proof (round_pos_falsy (Z.pos n) (Z.pos (Qden q))) as Hpos.
  destruct (round_pos_shape (Z.pos n) (Z.pos (Qden q))) as [E|[x E]];
    rewrite E in *; simpl; [discriminate|].
  intros H. apply negb_false_iff in H.
  assert (Hx : negb (JS.Qis_zero x) = false).
  { apply negb_false_iff. unfold JS.Qis_zero in *. destruct x as [xn xd].
    simpl in *. rewrite Z.eqb_eq in *. lia. }
  specialize (Hpos Hx). injection Hpos as ->. reflexivity.
Qed.

Lemma add_nonneg (x y : JS.number) :
  JS.nonneg x -> JS.nonneg y -> JS.nonneg (JS.add x y).
Proof.
  destruct x as [a| | |], y as [b| | |]; simpl; try tauto.
  intros Ha Hb. apply round64_nonneg.
  rewrite <- (Qplus_0_r 0). apply Qplus_le_compat; assumption.
Qed.

Lemma div_nonneg (x : JS.number) (b : Q) :
  JS.nonneg x -> 0 < b -> JS.nonneg (JS.div x (JS.Fin b)).
Proof.
  intros Hx Hb.
  assert (Hz : JS.Qis_zero b = false).
  { apply Qis_zero_false. intros E. rewrite E in Hb. apply (Qlt_irrefl 0 Hb). }
  destruct x as [a| | |]; simpl in *; try tauto.
  - rewrite Hz. apply round64_nonneg. apply Qle_shift_div_l; [exact Hb|].
    rewrite Qmult_0_l. exact Hx.
  - assert (Hp : JS.Qsgn_pos b = true).
    { unfold JS.Qsgn_pos. apply Z.ltb_lt. unfold Qlt in Hb. simpl in Hb. lia. }
    rewrite Hp. exact I.
Qed.

Lemma or_else_nonneg (x : JS.number) :
  JS.nonneg x -> JS.nonneg (JS.or_else x (JS.Fin 0)).
Proof.
  intros Hx. unfold JS.or_else. destruct (JS.truthy x); [exact Hx|].
  simpl. apply Qle_refl.
Qed.

Lemma nonneg_not_negative (x : JS.number) :
  JS.nonneg x -> JS.lt x (JS.Fin 0) = false /\ x <> JS.NaN.
Proof.
  destruct x as [a| | |]; simpl; try tauto.
  - intros Ha. split; [|discriminate]. apply Qlt_b_false. exact Ha.
  - intros _. split; [reflexivity | discriminate].
Qed.

(** *** The doubles that are not negative *)

Lemma pow2_pos (k : Z) : (0 <= k)%Z -> (0 < 2 ^ k)%Z.
Proof. intros. apply Z.pow_pos_nonneg; lia. Qed.

Lemma times_pow2_value (m u : Z) :
  JS.times_pow2 m u == if (0 <=? u)%Z then inject_Z (m * 2 ^ u)
                       else Qmake m (Z.to_pos (2 ^ (- u))).
Proof. unfold JS.times_pow2. apply Qred_correct. Qed.

Lemma times_pow2_grid (m u : Z) : (-1074 <= u)%Z -> JS.on_grid (JS.times_pow2 m u).
Proof.
  intros Hu. unfold JS.on_grid.
  destruct (0 <=? u)%Z eqn:E.
  - exists (m * 2 ^ u * 2 ^ 1074)%Z. rewrite times_pow2_value, E.
    rewrite <- inject_Z_mult. reflexivity.
  - exists (m * 2 ^ (1074 + u))%Z. rewrite times_pow2_value, E.
    apply Z.leb_gt in E.
    unfold Qeq, Qmult, inject_Z. cbn [Qnum Qden].
    assert (Hp : (0 < 2 ^ (- u))%Z) by (apply pow2_pos; lia).
    rewrite Pos.mul_1_r, Z2Pos.id by exact Hp.
    replace (2 ^ 1074)%Z with (2 ^ (1074 + u) * 2 ^ (- u))%Z
      by (rewrite <- Z.pow_add_r by lia; f_equal; lia).
    ring.
Qed.

Lemma times_pow2_pos (m u : Z) : (0 < m)%Z -> 0 < JS.times_pow2 m u.
Proof.
  intros Hm. rewrite times_pow2_value.
  destruct (0 <=? u)%Z eqn:E; unfold Qlt; simpl.
  - apply Z.leb_le in E. pose proof (pow2_pos u E). nia.
  - lia.
Qed.

(** [n / d] is at least [2 ^ u] when [u] is under the difference of the
    binary logarithms. *)
Lemma scale_le (n d u : Z) :
  (0 < n)%Z -> (0 < d)%Z -> (u <= Z.log2 n - Z.log2 d - 1)%Z ->
  (snd (JS.scale n d u) <= fst (JS.scale n d u))%Z.
Proof.
  intros Hn Hd Hu.
  destruct (Z.log2_spec n Hn) as [Hn1 _].
  destruct (Z.log2_spec d Hd) as [_ Hd2].
  pose proof (Z.log2_nonneg n). pose proof (Z.log2_nonneg d).
  unfold JS.scale. destruct (0 <=? u)%Z eqn:E; simpl.
  - apply Z.leb_le in E.
    assert (2 ^ Z.succ (Z.log2 d) * 2 ^ u <= 2 ^ Z.log2 n)%Z.
    { rewrite <- Z.pow_add_r by lia. apply Z.pow_le_mono_r; lia. }
    pose proof (pow2_pos u E). nia.
  - apply Z.leb_gt in E.
    assert (2 ^ Z.succ (Z.log2 d) <= 2 ^ Z.log2 n * 2 ^ (- u))%Z.
    { rewrite <- Z.pow_add_r by lia. apply Z.pow_le_mono_r; lia. }
    assert (0 < 2 ^ (- u))%Z by (apply pow2_pos; lia). nia.
Qed.

Lemma floor_log2_le (n d : Z) : (JS.floor_log2 n d <= Z.log2 n - Z.log2 d)%Z.
Proof.
  unfold JS.floor_log2. destruct (JS.scale n d _) as [a b].
  destruct (a <? b)%Z; lia.
Qed.

Lemma nearest_even_pos (a b : Z) : (0 < b)%Z -> (b <= a)%Z -> (0 < JS.nearest_even a b)%Z.
Proof.
  intros Hb Hab. unfold JS.nearest_even.
  assert (0 < a / b)%Z by (apply Z.div_str_pos; lia).
  destruct (2 * (a mod b) <? b)%Z; [assumption|].
  destruct (b <? 2 * (a mod b))%Z; [lia|].
  destruct (Z.even (a / b)); lia.
Qed.

Lemma round_pos_steady (n d : Z) :
  (0 < n)%Z -> (0 < d)%Z -> JS.nonneg_double (JS.round_pos n d).
Proof.
  intros Hn Hd. unfold JS.round_pos.
  set (u := Z.max (JS.floor_log2 n d - 52) (-1074)).
  destruct (scale_pos n d u Hn Hd) as [Ha Hb].
  destruct (JS.scale n d u) as [a b]. simpl in Ha, Hb.
  destruct (1024 <=? Z.log2 (JS.nearest_even a b) + u)%Z; simpl; [exact I|].
  split.
  - apply times_pow2_nonneg, nearest_even_nonneg; lia.
  - apply times_pow2_grid. unfold u. lia.
Qed.

Lemma round64_steady (q : Q) : 0 <= q -> JS.nonneg_double (JS.round64 q).
Proof.
  intros Hq. unfold JS.round64. destruct q as [n d]. simpl.
  destruct n as [|n|n].
  - simpl. split; [apply Qle_refl|]. exists 0%Z. reflexivity.
  - apply round_pos_steady; lia.
  - exfalso. unfold Qle in Hq. simpl in Hq. lia.
Qed.

(** At or above the smallest positive double, a number rounds to a
    positive one. *)
Lemma round64_positive (q : Q) :
  1 <= q * inject_Z (2 ^ 1074) -> JS.lt (JS.Fin 0) (JS.round64 q) = true.
Proof.
  intros Hq. destruct q as [n d]. unfold JS.round64. cbn [Qnum Qden].
  assert (Hnd : (Z.pos d <= n * 2 ^ 1074)%Z).
  { unfold Qle, Qmult, inject_Z in Hq. cbn [Qnum Qden] in Hq. lia. }
  assert (Hn : (0 < n)%Z).
  { pose proof (pow2_pos 1074 ltac:(lia)). nia. }
  destruct n as [|n|n]; try lia.
  unfold JS.round_pos.
  set (u := Z.max (JS.floor_log2 (Z.pos n) (Z.pos d) - 52) (-1074)).
  assert (Hscale : (snd (JS.scale (Z.pos n) (Z.pos d) u)
                    <= fst (JS.scale (Z.pos n) (Z.pos d) u))%Z).
  { destruct (Z.max_spec (JS.floor_log2 (Z.pos n) (Z.pos d) - 52) (-1074))
      as [[_ E]|[_ E]]; fold u in E.
    - rewrite E. unfold JS.scale. simpl. exact Hnd.
    - apply scale_le; try lia.
      pose proof (floor_log2_le (Z.pos n) (Z.pos d)). lia. }
  destruct (scale_pos (Z.pos n) (Z.pos d) u) as [Ha Hb]; try lia.
  destruct (JS.scale (Z.pos n) (Z.pos d) u) as [a b]. simpl in *.
  destruct (1024 <=? _)%Z; [reflexivity|].
  simpl. apply Qlt_b_true. apply times_pow2_pos, nearest_even_pos; assumption.
Qed.

Lemma grid_positive (r : Q) : JS.on_grid r -> 0 < r -> 1 <= r * inject_Z (2 ^ 1074).
Proof.
  intros [k Hk] Hr. rewrite Hk.
  assert (Hpos : 0 < r * inject_Z (2 ^ 1074)).
  { apply Qmult_lt_0_compat; [exact Hr|]. unfold Qlt. simpl. lia. }
  rewrite Hk in Hpos. unfold Qlt, Qle in *. simpl in *. lia.
Qed.

Lemma round64_settled (q : Q) : 0 <= q -> JS.zero_or_positive (JS.round64 q).
Proof.
  intros Hq. pose proof (round64_steady q Hq) as Hs.
  destruct (JS.lt (JS.Fin 0) (JS.round64 q)) eqn:Ep; [right; split; assumption|].
  left. apply round64_falsy.
  destruct (JS.round64 q) as [r| | |]; simpl in *; try tauto; try discriminate.
  apply negb_false_iff. apply Qis_zero_true. apply Qlt_b_false in Ep.
  apply Qle_antisym; tauto.
Qed.

Lemma steady_zero : JS.nonneg_double (JS.Fin 0).
Proof. split; [apply Qle_refl|]. exists 0%Z. reflexivity. Qed.

Lemma settled_steady (x : JS.number) : JS.zero_or_positive x -> JS.nonneg_double x.
Proof. intros [->|[H _]]; [apply steady_zero | exact H]. Qed.

Lemma add_positive (x y : JS.number) :
  JS.nonneg_double x -> JS.nonneg_double y -> JS.positive x \/ JS.positive y ->
  JS.nonneg_double (JS.add x y) /\ JS.positive (JS.add x y).
Proof.
  unfold JS.positive.
  destruct x as [a| | |], y as [b| | |]; simpl; try tauto;
    try (intros; split; [exact I | reflexivity]).
  intros [Ha Hga] [Hb Hgb] Hp. split.
  - apply round64_steady. rewrite <- (Qplus_0_r 0). apply Qplus_le_compat; assumption.
  - apply round64_positive.
    rewrite Qmult_plus_distr_l.
    assert (HG : 0 <= inject_Z (2 ^ 1074)) by (unfold Qle; simpl; lia).
    assert (Hag : 0 <= a * inject_Z (2 ^ 1074)) by (apply Qmult_le_0_compat; assumption).
    assert (Hbg : 0 <= b * inject_Z (2 ^ 1074)) by (apply Qmult_le_0_compat; assumption).
    destruct Hp as [Hp|Hp]; apply Qlt_b_true in Hp.
    + pose proof (grid_positive a Hga Hp). lra.
    + pose proof (grid_positive b Hgb Hp). lra.
Qed.

Lemma add_settled (x y : JS.number) :
  JS.zero_or_positive x -> JS.zero_or_positive y ->
  JS.zero_or_positive (JS.add x y) /\ (JS.positive (JS.add x y) <-> JS.positive x \/ JS.positive y).
Proof.
  intros Hx Hy.
  destruct Hx as [->|[Hsx Hpx]].
  - destruct Hy as [->|[Hsy Hpy]].
    + split; [left; reflexivity|]. unfold JS.positive. simpl. intuition discriminate.
    + destruct (add_positive (JS.Fin 0) y steady_zero Hsy (or_intror Hpy)).
      split; [right; split; assumption | tauto].
  - destruct (add_positive x y Hsx (settled_steady y Hy) (or_introl Hpx)).
    split; [right; split; assumption | tauto].
Qed.

Lemma total_settled (amounts : list Q) : forall acc,
  JS.zero_or_positive acc -> (forall x, In x amounts -> 0 <= x) ->
  JS.zero_or_positive (fold_left (fun sum x => JS.add sum (JS.round64 x)) amounts acc)
  /\ (JS.positive (fold_left (fun sum x => JS.add sum (JS.round64 x)) amounts acc)
      <-> JS.positive acc \/ exists x, In x amounts /\ JS.positive (JS.round64 x)).
Proof.
  induction amounts as [|x amounts IH]; intros acc Hacc H; simpl.
  - split; [exact Hacc|]. split; [auto|]. intros [Hp|(x & [] & _)]. exact Hp.
  - assert (Hx : JS.zero_or_positive (JS.round64 x)) by (apply round64_settled, H; left; reflexivity).
    destruct (add_settled acc (JS.round64 x) Hacc Hx) as [Hs Hiff].
    destruct (IH (JS.add acc (JS.round64 x)) Hs) as [Hs' Hiff'].
    { intros y Hy. apply H. right. exact Hy. }
    split; [exact Hs'|]. rewrite Hiff', Hiff. split.
    + intros [[Hp|Hp]|(y & Hy & Hp)]; eauto.
    + intros [Hp|(y & [<-|Hy] & Hp)]; eauto.
Qed.

(** For amounts that are not negative, the total is positive exactly
    when one of the amounts is positive, as a double. *)
Lemma total_positive (amounts : list Q) :
  (forall x, In x amounts -> 0 <= x) ->
  JS.lt (JS.Fin 0) (Spec.total amounts) = true
  <-> exists x, In x amounts /\ JS.lt (JS.Fin 0) (JS.round64 x) = true.
Proof.
  intros H. unfold Spec.total.
  destruct (total_settled amounts (JS.Fin 0) (or_introl eq_refl) H) as [_ Hiff].
  unfold JS.positive in Hiff. rewrite Hiff. split; [|auto].
  intros [Hp|Hx]; [discriminate | exact Hx].
Qed.

End Binary64.

(** ** The portfolio total *)

Section Portfolio.
Import Samples.










End Portfolio.

(** ** The metrics of a batch *)

Section Batch.
Import Analysis Samples.

Lemma filter_none {A} (p : A -> bool) (l : list A) :
  (forall x, In x l -> p x = false) -> List.filter p l = [].
Proof.
  induction l as [|a l IH]; intros H; [reflexivity|].
  simpl. rewrite (H a (or_introl eq_refl)). apply IH.
  intros x Hx. apply H. right. exact Hx.
Qed.

Lemma trades_of_no_trade transactions :
  (forall tx, In tx transactions -> isTradeTransaction tx = false) ->
  trades_of transactions = [].
Proof.
  intros H. unfold trades_of. rewrite (filter_none _ _ H). reflexivity.
Qed.

Lemma average_of_no_trades trades :
  totalTrades (metrics_of trades) = 0%nat ->
  averageTradeValue (metrics_of trades) = JS.Fin 0.
Proof.
  destruct trades as [|t trades]; [reflexivity | discriminate].
Qed.

(** C7: when no transaction of the batch qualifies as a trade,
    [totalTrades] is 0 and the computed [averageTradeValue] is exactly 0:
    the quotient 0/0 is NaN, and [|| 0] replaces it. *)
Theorem C7_average_zero_without_trades transactions :
  (forall tx, In tx transactions -> isTradeTransaction tx = false) ->
  totalTrades (analyzeBatch_metrics transactions) = 0%nat
  /\ averageTradeValue (analyzeBatch_metrics transactions) = JS.Fin 0
  /\ averageTradeValue (analyzeBatch_metrics transactions) <> JS.NaN.
Proof.
  intros H. unfold analyzeBatch_metrics. rewrite (trades_of_no_trade _ H).
  repeat split. discriminate.
Qed.

(** The quotient before the guard, for an empty list of trades. *)
Lemma quotient_of_no_trades :
  JS.div (sum_of_values [])
         (JS.Fin (inject_Z (Z.of_nat (length (@nil Trade))))) = JS.NaN.
Proof. reflexivity. Qed.

Lemma C7_average_zero_without_trades_witness :
  totalTrades (analyzeBatch_metrics [None; Some quiet_tx]) = 0%nat
  /\ averageTradeValue (analyzeBatch_metrics [None; Some quiet_tx]) = JS.Fin 0
  /\ averageTradeValue (analyzeBatch_metrics [None; Some quiet_tx]) <> JS.NaN.
Proof.
  apply (C7_average_zero_without_trades [None; Some quiet_tx]).
  intros tx [<-|[<-|[]]]; vm_compute; reflexivity.
Defined.

End Batch.

(** ** The price manager *)

Section PriceManager.
Import Price Samples.
Local Open Scope Q_scope.

Lemma try_endpoints_all_fail w endpoints (cache : gmap string CacheEntry) :
  (forall e, In e endpoints -> fetchEndpoint w e = None) ->
  try_endpoints w endpoints cache = None.
Proof.
  induction endpoints as [|e rest IH]; intros H; [reflexivity|].
  simpl. rewrite (H e (or_introl eq_refl)). apply IH.
  intros e' He'. apply H. right. exact He'.
Qed.

Lemma try_endpoints_some w endpoints (cache : gmap string CacheEntry) r cache' :
  try_endpoints w endpoints cache = Some (r, cache') ->
  exists e, In e endpoints /\ fetchEndpoint w e = Some r
            /\ cache' = <["solana" := mkEntry (price r) (change24h r) (now_at w e)]> cache.
Proof.
  induction endpoints as [|e rest IH]; [discriminate|].
  simpl. destruct (fetchEndpoint w e) as [r0|] eqn:E.
  - intros [= <- <-]. exists e. auto.
  - intros H. destruct (IH H) as (e' & ? & ? & ?). exists e'. auto.
Qed.

(** C8: when every provider of the list fails, [getSolanaPrice] returns
    without raising: with no cache entry, the hardcoded
    [{price: 100, change24h: 0}]; with an expired entry, that entry's
    price and change.  The cache is left as it was. *)
Theorem C8_fallback_when_providers_fail w (cache : gmap string CacheEntry) :
  (forall e, In e ENDPOINTS -> fetchEndpoint w e = None) ->
  (cache !! "solana" = None ->
   getSolanaPrice w cache
   = ({| price := JS.Fin 100; change24h := JS.Fin 0 |}, cache))
  /\ (forall c, cache !! "solana" = Some c ->
                CACHE_DURATION <= now w - c_timestamp c ->
                getSolanaPrice w cache
                = ({| price := c_price c; change24h := c_change24h c |}, cache)).
Proof.
  intros Hfail. unfold getSolanaPrice, getSolanaPrice_try. split.
  - intros ->. rewrite (try_endpoints_all_fail _ _ _ Hfail). reflexivity.
  - intros c -> Hexp. apply Qlt_b_false in Hexp. unfold is_fresh. rewrite Hexp.
    rewrite (try_endpoints_all_fail _ _ _ Hfail). reflexivity.
Qed.

Lemma C8_fallback_when_providers_fail_witness :
  getSolanaPrice offline ∅
  = ({| price := JS.Fin 100; change24h := JS.Fin 0 |}, ∅)
  /\ getSolanaPrice offline {[ "solana" := stale ]}
     = ({| price := JS.Fin 42; change24h := JS.Fin 1 |}, {[ "solana" := stale ]}).
Proof.
  split.
  - apply (proj1 (C8_fallback_when_providers_fail offline ∅ (fun _ _ => eq_refl))).
    reflexivity.
  - apply (proj2 (C8_fallback_when_providers_fail offline {[ "solana" := stale ]}
                    (fun _ _ => eq_refl)) stale); [reflexivity | discriminate].
Defined.

End PriceManager.

(** ** What the price cache holds *)

Section PriceCache.
Import Price Samples.
Local Open Scope Q_scope.

Lemma fetchEndpoint_some w e r :
  fetchEndpoint w e = Some r -> outcome w e = Parsed r.
Proof.
  unfold fetchEndpoint. destruct (outcome w e); intros [= <-]; reflexivity.
Qed.

(** One call either leaves the cache as it was and returns a cached entry
    or the sentinel, or stores and returns what a provider answered. *)
Lemma getSolanaPrice_cases w (cache : gmap string CacheEntry) :
  (snd (getSolanaPrice w cache) = cache
   /\ ((exists c, cache !! "solana" = Some c
                  /\ fst (getSolanaPrice w cache) = of_entry c)
       \/ (fst (getSolanaPrice w cache) = fallback
           /\ try_endpoints w ENDPOINTS cache = None)))
  \/ exists e r,
      In e ENDPOINTS /\ fetchEndpoint w e = Some r
      /\ getSolanaPrice w cache
         = (r, <["solana" := mkEntry (price r) (change24h r) (now_at w e)]> cache).
Proof.
  unfold getSolanaPrice, getSolanaPrice_try.
  destruct (cache !! "solana") as [c|] eqn:Hc.
  - destruct (is_fresh w (Some c)).
    + left. simpl. eauto.
    + destruct (try_endpoints w ENDPOINTS cache) as [[r cache']|] eqn:Ht.
      * right. apply try_endpoints_some in Ht as (e & ? & ? & ->). exists e, r. auto.
      * left. simpl. eauto.
  - destruct (try_endpoints w ENDPOINTS cache) as [[r cache']|] eqn:Ht.
    + right. apply try_endpoints_some in Ht as (e & ? & ? & ->). exists e, r. auto.
    + left. simpl. auto.
Qed.

Lemma genuine_mono ws ws' (cache : gmap string CacheEntry) :
  genuine ws cache -> genuine (ws ++ ws') cache.
Proof.
  intros H k c Hk. destruct (H k c Hk) as (-> & w & e & ? & ? & ? & ?).
  split; [reflexivity|]. exists w, e. rewrite in_app_iff. auto.
Qed.

Lemma genuine_step ws w (cache : gmap string CacheEntry) :
  genuine ws cache -> genuine (ws ++ [w]) (snd (getSolanaPrice w cache)).
Proof.
  intros H. destruct (getSolanaPrice_cases w cache) as [[-> _]|(e & r & He & Hf & ->)].
  - apply genuine_mono, H.
  - simpl. intros k c. destruct (decide (k = "solana")) as [->|Hne].
    + rewrite lookup_insert_eq. intros [= <-]. split; [reflexivity|].
      exists w, e. rewrite in_app_iff. simpl.
      repeat split; auto. apply fetchEndpoint_some in Hf. rewrite Hf.
      destruct r; reflexivity.
    + rewrite lookup_insert_ne by congruence. intros Hk.
      destruct (H k c Hk) as [-> _]. congruence.
Qed.

Lemma calls_cons w ws (cache : gmap string CacheEntry) :
  snd (calls (w :: ws) cache) = snd (calls ws (snd (getSolanaPrice w cache))).
Proof.
  simpl. destruct (getSolanaPrice w cache) as [r cache']. simpl.
  destruct (calls ws cache'). reflexivity.
Qed.

Lemma genuine_calls ws : forall ws0 (cache : gmap string CacheEntry),
  genuine ws0 cache -> genuine (ws0 ++ ws) (snd (calls ws cache)).
Proof.
  induction ws as [|w ws IH]; intros ws0 cache H.
  - rewrite app_nil_r. exact H.
  - rewrite calls_cons.
    replace (ws0 ++ w :: ws)%list with ((ws0 ++ [w]) ++ ws)%list
      by (rewrite <- app_assoc; reflexivity).
    apply IH, genuine_step, H.
Qed.

Lemma genuine_empty : genuine [] ∅.
Proof. intros k c Hk. rewrite lookup_empty in Hk. discriminate. Qed.

(** C10: the cache is written only with what a provider returned.
    - A single call leaves the cache untouched unless it stores, and
      returns, the answer of a provider of the list.
    - When every provider fails the cache is left as it was, whether the
      call returns an expired entry or the sentinel.
    - Over any sequence of calls starting from the empty cache, each entry
      of the cache is the answer of a provider in one of those calls.
    - So the value a later call returns is a provider's answer (from that
      call or an earlier one), or the sentinel after the provider list was
      tried again and failed. *)
Theorem C10_cache_holds_provider_values :
  (forall w (cache : gmap string CacheEntry),
      snd (getSolanaPrice w cache) = cache
      \/ exists e r,
          In e ENDPOINTS /\ fetchEndpoint w e = Some r
          /\ getSolanaPrice w cache
             = (r, <["solana" := mkEntry (price r) (change24h r) (now_at w e)]> cache))
  /\ (forall w (cache : gmap string CacheEntry),
         (forall e, In e ENDPOINTS -> fetchEndpoint w e = None) ->
         snd (getSolanaPrice w cache) = cache)
  /\ (forall ws, genuine ws (snd (calls ws ∅)))
  /\ (forall ws w,
         let r := fst (getSolanaPrice w (snd (calls ws ∅))) in
         (exists w' e, In w' (ws ++ [w]) /\ In e ENDPOINTS /\ outcome w' e = Parsed r)
         \/ (r = fallback /\ forall e, In e ENDPOINTS -> fetchEndpoint w e = None)).
Proof.
  split; [|split; [|split]].
  - intros w cache. destruct (getSolanaPrice_cases w cache) as [[? _]|?]; auto.
  - intros w cache Hfail.
    destruct (getSolanaPrice_cases w cache) as [[? _]|(e & r & He & Hf & _)]; auto.
    rewrite (Hfail e He) in Hf. discriminate.
  - intros ws. apply (genuine_calls ws [] ∅ genuine_empty).
  - intros ws w r. subst r.
    pose proof (genuine_calls ws [] ∅ genuine_empty) as Hg. simpl in Hg.
    destruct (getSolanaPrice_cases w (snd (calls ws ∅)))
      as [[_ [(c & Hc & ->)|[-> Hnone]]]|(e & r & He & Hf & ->)].
    + left. destruct (Hg _ _ Hc) as (_ & w' & e & ? & ? & ? & _).
      exists w', e. rewrite in_app_iff. auto.
    + right. split; [reflexivity|]. intros e He.
      destruct (fetchEndpoint w e) as [r|] eqn:Hf; [|reflexivity].
      exfalso. revert Hnone. clear - He Hf. unfold ENDPOINTS in *. simpl.
      destruct He as [<-|[<-|[<-|[]]]]; rewrite ?Hf;
        repeat (destruct (fetchEndpoint w _); try discriminate).
    + left. exists w, e. rewrite in_app_iff. simpl.
      repeat split; auto. apply fetchEndpoint_some, Hf.
Qed.

Lemma C10_cache_holds_provider_values_witness :
  snd (calls [online; offline] ∅) !! "solana"
  = Some (mkEntry (JS.Fin 150) (JS.Fin 0) 30)
  /\ exists w e, In w [online; offline] /\ In e ENDPOINTS
                 /\ outcome w e = Parsed (mkPrice (JS.Fin 150) (JS.Fin 0))
                 /\ 30 = now_at w e.
Proof.
  split; [reflexivity|].
  apply (proj1 (proj2 (proj2 C10_cache_holds_provider_values))
           [online; offline] "solana" (mkEntry (JS.Fin 150) (JS.Fin 0) 30)).
  reflexivity.
Defined.

End PriceCache.

(** ** The estimated value of a trade *)

Section TradeValue.
Import Helius Analysis Spec Samples.
Local Open Scope Q_scope.

Lemma reduce_sum {A} (f : A -> Q) (l : list A) : forall a,
  fold_left (fun sum x => sum + f x) l a == a + Qsum (map f l).
Proof.
  induction l as [|x l IH]; intros a; simpl.
  - ring.
  - rewrite IH. ring.
Qed.

Lemma Qsum_map_ext {A} (f g : A -> Q) (l : list A) :
  (forall x, In x l -> f x == g x) -> Qsum (map f l) == Qsum (map g l).
Proof.
  induction l as [|x l IH]; intros H; simpl; [reflexivity|].
  rewrite (H x (or_introl eq_refl)), IH; [reflexivity|].
  intros y Hy. apply H. right. exact Hy.
Qed.

Lemma Qsum_map_nonneg {A} (f : A -> Q) (l : list A) :
  (forall x, In x l -> 0 <= f x) -> 0 <= Qsum (map f l).
Proof.
  induction l as [|x l IH]; intros H; simpl; [apply Qle_refl|].
  assert (0 <= f x) by (apply H; left; reflexivity).
  assert (0 <= Qsum (map f l)) by (apply IH; intros y Hy; apply H; right; exact Hy).
  lra.
Qed.

#[local] Instance Math_max_proper : Proper (Qeq ==> Qeq ==> Qeq) JS.Math_max.
Proof.
  intros x x' Hx y y' Hy. unfold JS.Math_max.
  destruct (Qle_bool x y) eqn:E, (Qle_bool x' y') eqn:E'; try assumption.
  - apply Qle_bool_iff in E. rewrite Hx, Hy in E. apply Qle_bool_iff in E. congruence.
  - apply Qle_bool_iff in E'. rewrite <- Hx, <- Hy in E'. apply Qle_bool_iff in E'.
    congruence.
Qed.


Lemma account_change_eq (a : AccountData.t) :
  account_change a
  == AccountData.nativeBalanceChange a
     + Qsum (map (fun t => Qabs (TokenBalanceChange.amount t))
                 (opt_list (AccountData.tokenBalanceChanges a))).
Proof.
  unfold account_change, reduce, JS.Math_abs.
  destruct (AccountData.tokenBalanceChanges a) as [[|t l]|]; simpl;
    rewrite ?reduce_sum, Qor_else_zero; ring.
Qed.

Lemma native_part (l : list NativeTransfer.t) :
  reduce (fun sum transfer => sum + JS.Qor_else (NativeTransfer.amount transfer) 0) l
  == Qsum (map NativeTransfer.amount l).
Proof.
  unfold reduce. rewrite reduce_sum.
  rewrite (Qsum_map_ext _ NativeTransfer.amount) by (intros; apply Qor_else_zero).
  ring.
Qed.

Lemma token_part (l : list TokenTransfer.t) :
  reduce (fun sum transfer => sum + JS.Qor_else (TokenTransfer.amount transfer) 0) l
  == Qsum (map TokenTransfer.amount l).
Proof.
  unfold reduce. rewrite reduce_sum.
  rewrite (Qsum_map_ext _ TokenTransfer.amount) by (intros; apply Qor_else_zero).
  ring.
Qed.

Lemma balance_part (l : list AccountData.t) :
  reduce (fun sum account => sum + JS.Math_abs (account_change account)) l
  == Qsum (map (fun a =>
                  Qabs (AccountData.nativeBalanceChange a
                        + Qsum (map (fun t => Qabs (TokenBalanceChange.amount t))
                                    (opt_list (AccountData.tokenBalanceChanges a)))))
               l).
Proof.
  unfold reduce, JS.Math_abs. rewrite reduce_sum.
  rewrite (Qsum_map_ext _ (fun a =>
             Qabs (AccountData.nativeBalanceChange a
                   + Qsum (map (fun t => Qabs (TokenBalanceChange.amount t))
                               (opt_list (AccountData.tokenBalanceChanges a))))))
    by (intros; rewrite account_change_eq; reflexivity).
  ring.
Qed.

(** What [calculateTradeValue] computes, for every transaction. *)
Lemma calculateTradeValue_eq (tx : HeliusTransaction) :
  calculateTradeValue (Some tx)
  == if JS.nonempty (accountData tx)
     then JS.Math_max (plain_transfers tx) (net_balance_changes tx)
     else plain_transfers tx.
Proof.
  unfold calculateTradeValue, plain_transfers, net_balance_changes.
  destruct (nativeTransfers tx) as [[|n ns]|];
    destruct (tokenTransfers tx) as [[|t ts]|];
    destruct (accountData tx) as [[|a l]|];
    cbn [JS.nonempty opt_list];
    rewrite ?native_part, ?token_part, ?balance_part;
    cbn [map Qsum]; try reflexivity; try ring;
    apply Math_max_proper; try reflexivity; ring.
Qed.

Lemma plain_transfers_abs (tx : HeliusTransaction) :
  nonneg_transfers tx -> plain_transfers tx == abs_transfers tx.
Proof.
  intros [Hn Ht]. unfold plain_transfers, abs_transfers.
  rewrite (Qsum_map_ext NativeTransfer.amount (fun t => Qabs (NativeTransfer.amount t)))
    by (intros t Hin; symmetry; apply Qabs_pos, Hn, Hin).
  rewrite (Qsum_map_ext TokenTransfer.amount (fun t => Qabs (TokenTransfer.amount t)))
    by (intros t Hin; symmetry; apply Qabs_pos, Ht, Hin).
  reflexivity.
Qed.

Lemma abs_transfers_nonneg (tx : HeliusTransaction) : 0 <= abs_transfers tx.
Proof.
  unfold abs_transfers.
  pose proof (Qsum_map_nonneg (fun t => Qabs (NativeTransfer.amount t))
                (opt_list (nativeTransfers tx)) (fun t _ => Qabs_nonneg _)).
  pose proof (Qsum_map_nonneg (fun t => Qabs (TokenTransfer.amount t))
                (opt_list (tokenTransfers tx)) (fun t _ => Qabs_nonneg _)).
  lra.
Qed.






End TradeValue.

(** ** The classification of a trade *)

Section Classify.
Import Helius Analysis Spec Samples.
Local Open Scope Q_scope.

Lemma str_or_else_empty (s : string) : JS.str_or_else s EmptyString = s.
Proof. destruct s; reflexivity. Qed.

Lemma conditional_total {A} (p : A -> bool) (f : A -> Q) (l : list A) : forall a,
  fold_left (fun sum x => if p x then JS.add sum (JS.round64 (f x)) else sum) l a
  = fold_left (fun sum x => JS.add sum (JS.round64 x)) (map f (List.filter p l)) a.
Proof.
  induction l as [|x l IH]; intros a; simpl; [reflexivity|].
  destruct (p x); simpl; apply IH.
Qed.

Lemma native_rule (tx : HeliusTransaction) :
  match nativeTransfers tx with
  | Some (t :: l) => JS.gt (totalNativeOut tx (t :: l)) (JS.Fin 0)
  | _ => false
  end = JS.lt (JS.Fin 0) (native_out tx).
Proof.
  unfold native_out, native_from_source, JS.gt.
  destruct (nativeTransfers tx) as [[|t l]|]; try reflexivity.
  unfold totalNativeOut, reduce_number, total, opt_list.
  rewrite conditional_total. reflexivity.
Qed.

Lemma token_rule (tx : HeliusTransaction) :
  match tokenTransfers tx with
  | Some (t :: l) => JS.gt (totalTokensOut tx (t :: l)) (JS.Fin 0)
  | _ => false
  end = JS.lt (JS.Fin 0) (token_out tx).
Proof.
  unfold token_out, token_from_source, JS.gt.
  destruct (tokenTransfers tx) as [[|t l]|]; try reflexivity.
  unfold totalTokensOut, reduce_number, total, opt_list.
  rewrite conditional_total. reflexivity.
Qed.

(** C4: [classifyTradeType] returns the result of the first rule that
    applies, in this order: the type string contains "buy" or "swap_in"
    (Buy), it contains "sell" or "swap_out" (Sell), the native transfers
    sent by the transaction's source account total a positive amount (Buy),
    the token transfers sent by it total a positive amount (Sell), the
    serialized body names a buying instruction (Buy) or a selling one
    (Sell); Unknown when no rule applies.  The totals are added up as the
    code adds them, in binary64; when no transfer moves a negative amount,
    a total is positive exactly when one of the transfers that the source
    account sends moves a positive amount. *)
Theorem C4_classify_precedence (tx : HeliusTransaction) :
  classifyTradeType (Some tx) = Spec.classify tx
  /\ (nonneg_transfers tx ->
      (JS.lt (JS.Fin 0) (native_out tx) = true
       <-> exists t, In t (native_from_source tx)
                     /\ JS.lt (JS.Fin 0) (JS.round64 (NativeTransfer.amount t)) = true)
      /\ (JS.lt (JS.Fin 0) (token_out tx) = true
          <-> exists t, In t (token_from_source tx)
                        /\ JS.lt (JS.Fin 0) (JS.round64 (TokenTransfer.amount t)) = true)).
Proof.
  split.
  - unfold classifyTradeType, Spec.classify, classify_rules, first_rule,
      type_hint, body_has.
    rewrite str_or_else_empty, native_rule, token_rule. reflexivity.
  - intros [Hn Ht]. split.
    + unfold native_out. rewrite total_positive.
      * split.
        -- intros (x & Hx & Hp). apply in_map_iff in Hx as (t & <- & Hin). eauto.
        -- intros (t & Hin & Hp). exists (NativeTransfer.amount t).
           split; [apply in_map; exact Hin | exact Hp].
      * intros x Hx. apply in_map_iff in Hx as (t & <- & Hin).
        apply Hn. unfold native_from_source in Hin. apply filter_In in Hin. tauto.
    + unfold token_out. rewrite total_positive.
      * split.
        -- intros (x & Hx & Hp). apply in_map_iff in Hx as (t & <- & Hin). eauto.
        -- intros (t & Hin & Hp). exists (TokenTransfer.amount t).
           split; [apply in_map; exact Hin | exact Hp].
      * intros x Hx. apply in_map_iff in Hx as (t & <- & Hin).
        apply Ht. unfold token_from_source in Hin. apply filter_In in Hin. tauto.
Qed.

(** The totals follow the code where rounding matters: 2^53 + 1 is 2^53
    in binary64, so that the source account's transfers of 2^53, 1 and
    -2^53 total 0 and the rule does not apply. *)
Example classify_absorbed :
  native_out absorbed_tx = JS.Fin 0
  /\ classifyTradeType (Some absorbed_tx) = unknown.
Proof. split; vm_compute; reflexivity. Qed.

Example classify_type_hint :
  classifyTradeType (Some (mkTx "0sig" "SELL_AFTER_BUY" 0 0 0 None None None None)) = buy.
Proof. reflexivity. Qed.

Example classify_native_out : classifyTradeType (Some purchase_tx) = buy.
Proof. reflexivity. Qed.

Example classify_token_out : classifyTradeType (Some disposal_tx) = sell.
Proof. reflexivity. Qed.

Example classify_no_source : classifyTradeType (Some both_tx) = unknown.
Proof. reflexivity. Qed.

(** A positive native total has a transfer behind it whose sender is the
    source account. *)
Lemma native_out_positive (tx : HeliusTransaction) :
  JS.lt (JS.Fin 0) (native_out tx) = true ->
  exists t, In t (opt_list (nativeTransfers tx))
            /\ Some (NativeTransfer.fromUserAccount t) = source tx.
Proof.
  unfold native_out, native_from_source. intros H.
  destruct (List.filter _ (opt_list (nativeTransfers tx))) as [|t l] eqn:E;
    [discriminate|].
  assert (Hin : In t (t :: l)) by (left; reflexivity).
  rewrite <- E in Hin. apply filter_In in Hin as [Hin Hp]. exists t. split; [exact Hin|].
  destruct (source tx) as [s|]; simpl in Hp; [|discriminate].
  apply String.eqb_eq in Hp. congruence.
Qed.

End Classify.

(** ** The transaction normalizer *)

Section Normalize.
Import Helius Solana Samples.
Local Open Scope Q_scope.

Lemma processTransaction_some now (tx : HeliusTransaction) w :
  processTransaction now (Some tx) w = finish now tx (resolve tx w).
Proof. reflexivity. Qed.

Lemma processTransaction_null now w : processTransaction now None w = None.
Proof. reflexivity. Qed.

(** The token symbol is one of the two constants of the source, and
    ["Token"] only comes from a first token transfer, with its amount. *)
Lemma resolve_symbol (tx : HeliusTransaction) w :
  (l_tokenSymbol (resolve tx w) = "SOL" /\ JS.nonempty (tokenTransfers tx) = false)
  \/ (l_tokenSymbol (resolve tx w) = "Token"
      /\ exists t ts, tokenTransfers tx = Some (t :: ts)
                      /\ l_amount (resolve tx w) = TokenTransfer.amount t).
Proof.
  unfold resolve, swap_step, token_step, native_step, init_locals.
  destruct (tokenTransfers tx) as [[|t ts]|].
  - left. destruct (mentions_swap tx), (nativeTransfers tx) as [[|n ns]|]; simpl;
      repeat (destruct (String.eqb _ w)); auto.
  - right. split.
    + destruct (mentions_swap tx); repeat (destruct (String.eqb _ w)); reflexivity.
    + exists t, ts. split; [reflexivity|].
      destruct (mentions_swap tx); repeat (destruct (String.eqb _ w)); reflexivity.
  - left. destruct (mentions_swap tx), (nativeTransfers tx) as [[|n ns]|]; simpl;
      repeat (destruct (String.eqb _ w)); auto.
Qed.

(** [finish] drops exactly the zero amounts and the native amounts under
    the threshold. *)
Lemma finish_none now (tx : HeliusTransaction) v :
  finish now tx v = None
  <-> l_amount v == 0
      \/ (l_tokenSymbol v = "SOL" /\ l_amount v < MIN_SOL_AMOUNT).
Proof.
  unfold finish.
  destruct (String.eqb_spec (l_tokenSymbol v) "SOL") as [Es|Es];
    destruct (JS.Qlt_b (l_amount v) MIN_SOL_AMOUNT) eqn:El;
    [apply Qlt_b_true in El | apply Qlt_b_false in El
     | apply Qlt_b_true in El | apply Qlt_b_false in El];
    destruct (JS.Qstrict_eq (l_amount v) 0) eqn:Ez;
    [apply Qstrict_eq_true in Ez | apply Qstrict_eq_false in Ez
     | apply Qstrict_eq_true in Ez | apply Qstrict_eq_false in Ez
     | apply Qstrict_eq_true in Ez | apply Qstrict_eq_false in Ez
     | apply Qstrict_eq_true in Ez | apply Qstrict_eq_false in Ez];
    simpl; split; try discriminate; try tauto; try (intros _; auto; fail).
  - intros [?|[_ ?]]; [tauto|]. exfalso. apply (Qlt_not_le _ _ H El).
Qed.

Lemma finish_some now (tx : HeliusTransaction) v r :
  finish now tx v = Some r ->
  Solana.amount r = l_amount v /\ tokenSymbol r = l_tokenSymbol v
  /\ Solana.type r = l_type v /\ description r = l_description v
  /\ ~ l_amount v == 0
  /\ (l_tokenSymbol v = "SOL" -> MIN_SOL_AMOUNT <= l_amount v).
Proof.
  intros H.
  assert (Hn : finish now tx v <> None) by congruence.
  rewrite finish_none in Hn.
  unfold finish in H.
  destruct (String.eqb (l_tokenSymbol v) "SOL" && JS.Qlt_b (l_amount v) MIN_SOL_AMOUNT);
    [discriminate|].
  destruct (JS.Qstrict_eq (l_amount v) 0); [discriminate|].
  injection H as <-. simpl. repeat split; auto.
  intros Hs. apply Qnot_lt_le. intros Hlt. apply Hn. right. auto.
Qed.

(** *** The scenarios of the specification *)

Example scenario_A : processTransaction 0 (Some send_tx) W = Some send_record.
Proof. reflexivity. Qed.

Example scenario_B : processTransaction 0 (Some dust_tx) W = None.
Proof. reflexivity. Qed.

Example scenario_C :
  option_map Solana.type (processTransaction 0 (Some jupiter_tx) W) = Some "Swap".
Proof. reflexivity. Qed.

(** The swap keywords have the last word on the type and the description. *)
Lemma swap_has_final_say now (tx : HeliusTransaction) w r :
  mentions_swap tx = true ->
  processTransaction now (Some tx) w = Some r ->
  Solana.type r = "Swap" /\ description r = "Token Swap".
Proof.
  intros Hs Hr. rewrite processTransaction_some in Hr.
  apply finish_some in Hr as (_ & _ & -> & -> & _).
  unfold resolve, swap_step. rewrite Hs. auto.
Qed.

(** *** Native and token transfers in one transaction *)

Lemma resolve_both (tx : HeliusTransaction) w n ns t ts :
  nativeTransfers tx = Some (n :: ns) ->
  tokenTransfers tx = Some (t :: ts) ->
  l_amount (resolve tx w) = TokenTransfer.amount t
  /\ l_tokenSymbol (resolve tx w) = "Token"
  /\ l_type (resolve tx w)
     = if mentions_swap tx then "Swap"
       else if String.eqb (TokenTransfer.fromUserAccount t) w then "Send Token"
       else if String.eqb (TokenTransfer.toUserAccount t) w then "Receive Token"
       else if String.eqb (NativeTransfer.fromUserAccount n) w then "Send SOL"
       else if String.eqb (NativeTransfer.toUserAccount n) w then "Receive SOL"
       else JS.str_or_else (Helius.type tx) "Unknown".
Proof.
  intros Hn Ht. unfold resolve, swap_step, token_step, native_step, init_locals.
  rewrite Hn, Ht.
  destruct (mentions_swap tx); repeat (destruct (String.eqb _ w)); auto.
Qed.

(** C3, as the code has it: when a transaction has both a native and a
    token transfer, the native branch runs and then the token branch runs
    too.  The amount and the token symbol of the record are those of the
    first token transfer (symbol "Token"), so the record is dropped exactly
    when that amount is zero; the type is Swap when the body mentions a swap
    keyword, else the token direction when the wallet is the sender or the
    recipient of the token transfer, else what the native branch left. *)
Theorem C3_token_transfer_decides now (tx : HeliusTransaction) w n ns t ts :
  nativeTransfers tx = Some (n :: ns) ->
  tokenTransfers tx = Some (t :: ts) ->
  (TokenTransfer.amount t == 0 -> processTransaction now (Some tx) w = None)
  /\ (~ TokenTransfer.amount t == 0 ->
      exists r, processTransaction now (Some tx) w = Some r)
  /\ (forall r,
        processTransaction now (Some tx) w = Some r ->
        Solana.amount r = TokenTransfer.amount t
        /\ tokenSymbol r = "Token"
        /\ Solana.type r
           = if mentions_swap tx then "Swap"
             else if String.eqb (TokenTransfer.fromUserAccount t) w then "Send Token"
             else if String.eqb (TokenTransfer.toUserAccount t) w then "Receive Token"
             else if String.eqb (NativeTransfer.fromUserAccount n) w then "Send SOL"
             else if String.eqb (NativeTransfer.toUserAccount n) w then "Receive SOL"
             else JS.str_or_else (Helius.type tx) "Unknown").
Proof.
  intros Hn Ht. rewrite processTransaction_some.
  destruct (resolve_both tx w n ns t ts Hn Ht) as (Ha & Hs & Hty).
  split; [|split].
  - intros Hz. apply finish_none. left. rewrite Ha. exact Hz.
  - intros Hnz. destruct (finish now tx (resolve tx w)) as [r|] eqn:E; [eauto|].
    apply finish_none in E as [Hz|[Hsol _]].
    + rewrite Ha in Hz. contradiction.
    + rewrite Hs in Hsol. discriminate.
  - intros r Hr. apply finish_some in Hr as (Hra & Hrs & Hrt & _).
    rewrite Hra, Hrs, Hrt, Ha, Hs, Hty. auto.
Qed.

Lemma C3_token_transfer_decides_witness :
  Solana.amount both_record = 7
  /\ tokenSymbol both_record = "Token"
  /\ Solana.type both_record = "Send Token".
Proof.
  exact (proj2 (proj2 (C3_token_transfer_decides 0 both_tx W
                         (NativeTransfer.mk W X 2000000000) []
                         (TokenTransfer.mk W Y "Mint1" 7) []
                         eq_refl eq_refl))
               both_record eq_refl).
Defined.

(** C3 as the specification words it fails on the code: for a wallet that sends 2 SOL
    and 7 tokens in one transaction, the record has the amount, symbol and
    type of the token transfer, where the else-if of the wording keeps
    those of the native transfer. *)
Lemma C3_counterexample :
  processTransaction 0 (Some both_tx) W = Some both_record
  /\ Spec.normalize 0 both_tx W = Some both_record_spec
  /\ processTransaction 0 (Some both_tx) W <> Spec.normalize 0 both_tx W.
Proof.
  split; [reflexivity|]. split; [reflexivity|].
  vm_compute. discriminate.
Qed.

(** *** The amount of a record *)

(** C5, as the code has it: the amount of a record that [processTransaction]
    returns is never zero.  When the symbol is SOL it is at or above 0.001,
    hence positive.  Otherwise the symbol is "Token" and the amount is the
    amount of the first token transfer as it came, whatever its sign.  A
    transaction whose resolved amount is zero, or whose resolved SOL amount
    is under the threshold, gives null; so does scenario B. *)
Theorem C5_amount_of_a_record now (tx : option HeliusTransaction) w :
  (forall r,
      processTransaction now tx w = Some r ->
      ~ Solana.amount r == 0
      /\ ((tokenSymbol r = "SOL"
           /\ MIN_SOL_AMOUNT <= Solana.amount r /\ 0 < Solana.amount r)
          \/ (tokenSymbol r = "Token"
              /\ exists tx0 t ts,
                  tx = Some tx0 /\ tokenTransfers tx0 = Some (t :: ts)
                  /\ Solana.amount r = TokenTransfer.amount t)))
  /\ (forall tx0,
        tx = Some tx0 ->
        l_amount (resolve tx0 w) == 0
        \/ (l_tokenSymbol (resolve tx0 w) = "SOL"
            /\ l_amount (resolve tx0 w) < MIN_SOL_AMOUNT) ->
        processTransaction now tx w = None)
  /\ processTransaction now (Some dust_tx) W = None.
Proof.
  split; [|split; [|reflexivity]].
  - intros r Hr. destruct tx as [tx0|]; [|discriminate].
    rewrite processTransaction_some in Hr.
    apply finish_some in Hr as (Ha & Hs & _ & _ & Hnz & Hmin).
    rewrite Ha, Hs. split; [exact Hnz|].
    destruct (resolve_symbol tx0 w) as [[Hsol _]|[Htok (t & ts & Ht & Hamt)]].
    + left. split; [exact Hsol|]. specialize (Hmin Hsol).
      split; [exact Hmin|]. unfold MIN_SOL_AMOUNT in Hmin. lra.
    + right. split; [exact Htok|]. exists tx0, t, ts. auto.
  - intros tx0 -> H. rewrite processTransaction_some. apply finish_none, H.
Qed.

Lemma C5_amount_of_a_record_witness :
  ~ Solana.amount send_record == 0
  /\ ((tokenSymbol send_record = "SOL"
       /\ MIN_SOL_AMOUNT <= Solana.amount send_record
       /\ 0 < Solana.amount send_record)
      \/ (tokenSymbol send_record = "Token"
          /\ exists tx0 t ts,
              Some send_tx = Some tx0 /\ tokenTransfers tx0 = Some (t :: ts)
              /\ Solana.amount send_record = TokenTransfer.amount t)).
Proof.
  exact (proj1 (C5_amount_of_a_record 0 (Some send_tx) W) send_record eq_refl).
Defined.

(** C5 as the specification words it fails on the code: a token transfer of -5 to the
    wallet gives a record whose amount is -5. *)
Lemma C5_counterexample :
  processTransaction 0 (Some refund_tx) W = Some refund_record
  /\ ~ 0 < Solana.amount refund_record.
Proof.
  split; [reflexivity|]. intros H. vm_compute in H. discriminate.
Qed.

(** *** Transfers between other accounts *)

(** C9, as the code has it: when the first native transfer is between two
    accounts other than the wallet, the transaction has no token transfer
    and its serialized body mentions no swap keyword, [processTransaction]
    returns null for an amount under the threshold and otherwise a record
    with the amount of that transfer, the raw type string (or "Unknown"
    when that string is empty) and an empty description. *)
Theorem C9_third_party_transfer now (tx : HeliusTransaction) w n ns :
  nativeTransfers tx = Some (n :: ns) ->
  NativeTransfer.fromUserAccount n <> w ->
  NativeTransfer.toUserAccount n <> w ->
  JS.nonempty (tokenTransfers tx) = false ->
  mentions_swap tx = false ->
  processTransaction now (Some tx) w
  = if JS.Qlt_b (NativeTransfer.amount n / LAMPORTS_PER_SOL) MIN_SOL_AMOUNT
    then None
    else Some {| signature := Helius.signature tx;
                 Solana.type := JS.str_or_else (Helius.type tx) "Unknown";
                 amount := NativeTransfer.amount n / LAMPORTS_PER_SOL;
                 timestamp := JS.Qor_else (Helius.timestamp tx) now;
                 status := success;
                 tokenSymbol := "SOL";
                 fee := JS.Qor_else (Helius.fee tx) 0;
                 description := EmptyString |}.
Proof.
  intros Hn Hfrom Hto Htok Hswap. rewrite processTransaction_some.
  apply String.eqb_neq in Hfrom, Hto.
  assert (Hr : resolve tx w
               = {| l_type := JS.str_or_else (Helius.type tx) "Unknown";
                    l_amount := NativeTransfer.amount n / LAMPORTS_PER_SOL;
                    l_tokenSymbol := "SOL";
                    l_description := EmptyString |}).
  { unfold resolve, swap_step, token_step, native_step, init_locals.
    rewrite Hn, Hswap, Hfrom, Hto.
    destruct (tokenTransfers tx) as [[|t ts]|]; try discriminate; reflexivity. }
  rewrite Hr. unfold finish. simpl.
  destruct (JS.Qlt_b _ MIN_SOL_AMOUNT) eqn:El; [reflexivity|].
  apply Qlt_b_false in El.
  destruct (JS.Qstrict_eq _ 0) eqn:Ez.
  - apply Qstrict_eq_true in Ez. unfold MIN_SOL_AMOUNT in El. lra.
  - rewrite str_or_else_empty. reflexivity.
Qed.

Lemma C9_third_party_transfer_witness :
  processTransaction 0 (Some bystander_tx) W = Some bystander_record.
Proof.
  apply (C9_third_party_transfer 0 bystander_tx W (NativeTransfer.mk X Y 2000000000) []).
  - reflexivity.
  - discriminate.
  - discriminate.
  - reflexivity.
  - reflexivity.
Defined.

(** C9 as the specification words it fails on the code: the same transfer between two
    other accounts, with the raw type SWAP, gives a record of type "Swap"
    with the description "Token Swap". *)
Lemma C9_counterexample :
  processTransaction 0 (Some bystander_swap_tx) W = Some bystander_swap_record
  /\ Solana.type bystander_swap_record <> Helius.type bystander_swap_tx
  /\ description bystander_swap_record <> EmptyString.
Proof.
  split; [reflexivity|]. split; discriminate.
Qed.

End Normalize.

(** ** Sorting by descending key *)

Section SortingFacts.
Context {A : Type} (key : A -> Q).
Local Open Scope Q_scope.

Lemma insert_desc_perm (x : A) (l : list A) :
  Permutation (Sorting.insert_desc key x l) (x :: l).
Proof.
  induction l as [|y l IH]; simpl; [reflexivity|].
  destruct (Qle_bool (key y) (key x)); [reflexivity|].
  rewrite IH. apply perm_swap.
Qed.

Lemma sort_desc_perm (l : list A) : Permutation (Sorting.sort_desc key l) l.
Proof.
  induction l as [|x l IH]; simpl; [reflexivity|].
  rewrite insert_desc_perm, IH. reflexivity.
Qed.

Lemma insert_desc_sorted (x : A) (l : list A) :
  Sorting.descending key l -> Sorting.descending key (Sorting.insert_desc key x l).
Proof.
  unfold Sorting.descending. induction 1 as [|y l Hs IH Hy]; simpl.
  - repeat constructor.
  - destruct (Qle_bool (key y) (key x)) eqn:E.
    + apply Qle_bool_iff in E. constructor; [constructor; assumption|].
      constructor; [exact E|].
      eapply List.Forall_impl; [|exact Hy]. simpl. intros b Hb. lra.
    + assert (Hlt : key x < key y).
      { apply Qnot_le_lt. rewrite <- Qle_bool_iff. congruence. }
      constructor; [exact IH|].
      assert (Hall : List.Forall (fun b => key b <= key y) (x :: l))
        by (constructor; [lra | exact Hy]).
      revert Hall. apply Permutation_Forall. symmetry. apply insert_desc_perm.
Qed.

Lemma sort_desc_sorted (l : list A) : Sorting.descending key (Sorting.sort_desc key l).
Proof.
  induction l as [|x l IH]; simpl; [constructor|].
  apply insert_desc_sorted, IH.
Qed.

(** Elements with the key [k] keep their order. *)
Lemma insert_desc_stable (k : Q) (x : A) (l : list A) :
  List.filter (fun a => Qeq_bool (key a) k) (Sorting.insert_desc key x l)
  = List.filter (fun a => Qeq_bool (key a) k) (x :: l).
Proof.
  induction l as [|y l IH]; [reflexivity|].
  simpl. destruct (Qle_bool (key y) (key x)) eqn:E; [reflexivity|].
  simpl in *. rewrite IH.
  destruct (Qeq_bool (key x) k) eqn:Ex, (Qeq_bool (key y) k) eqn:Ey; try reflexivity.
  exfalso. apply Qeq_bool_iff in Ex, Ey.
  assert (Hle : key y <= key x) by (rewrite Ex, Ey; apply Qle_refl).
  apply Qle_bool_iff in Hle. congruence.
Qed.

Lemma sort_desc_stable (k : Q) (l : list A) :
  List.filter (fun a => Qeq_bool (key a) k) (Sorting.sort_desc key l)
  = List.filter (fun a => Qeq_bool (key a) k) l.
Proof.
  induction l as [|x l IH]; [reflexivity|].
  simpl Sorting.sort_desc. rewrite insert_desc_stable. simpl. rewrite IH. reflexivity.
Qed.

Lemma descending_app (l1 l2 : list A) :
  Sorting.descending key (l1 ++ l2) ->
  forall a b, In a l1 -> In b l2 -> key b <= key a.
Proof.
  unfold Sorting.descending. induction l1 as [|x l1 IH]; intros Hs a b Ha Hb; [destruct Ha|].
  simpl in Hs. inversion Hs as [|? ? Hs' Hall]; subst.
  destruct Ha as [<-|Ha].
  - rewrite List.Forall_forall in Hall. apply Hall, in_or_app. right. exact Hb.
  - apply (IH Hs' a b Ha Hb).
Qed.

End SortingFacts.

(** ** The feed of transactions *)

Section FeedFacts.
Import Exn Samples.
Local Open Scope Q_scope.

Lemma processAll_length clock (txs : list (option Helius.HeliusTransaction)) address :
  forall i, (length (Solana.processAll clock i txs address) <= length txs)%nat.
Proof.
  induction txs as [|tx txs IH]; intros i; simpl; [lia|].
  destruct (Solana.processTransaction (clock i) tx address); simpl;
    specialize (IH (S i)); lia.
Qed.

Lemma processAll_amounts clock (txs : list (option Helius.HeliusTransaction)) address :
  forall i r, In r (Solana.processAll clock i txs address) -> ~ Solana.amount r == 0.
Proof.
  induction txs as [|tx txs IH]; intros i r; simpl; [tauto|].
  destruct (Solana.processTransaction (clock i) tx address) as [p|] eqn:E.
  - intros [<-|Hin]; [|exact (IH _ _ Hin)].
    destruct tx as [tx|]; [|discriminate].
    rewrite processTransaction_some in E.
    apply finish_some in E as (-> & _ & _ & _ & Hnz & _). exact Hnz.
  - apply IH.
Qed.

(** X1: the feed that [getTransactions] returns is ordered by descending
    timestamp, and whatever error the history request raised reaches the
    caller as 'Failed to fetch transactions'. *)
Theorem X1_feed_descending clock history address :
  match Feed.getTransactions clock history address with
  | Returned feed => Sorting.descending Solana.timestamp feed
  | Raised message => message = "Failed to fetch transactions"
  end.
Proof.
  destruct history as [txs|m]; simpl; [apply sort_desc_sorted | reflexivity].
Qed.

(** X2: sorting loses and invents nothing: the feed holds the records of
    the transactions that [processTransaction] kept, each as often as it was
    produced; records with the same timestamp stay in the order of the
    history; there are no more records than raw transactions, and none has a
    zero amount. *)
Theorem X2_feed_content clock (txs : list (option Helius.HeliusTransaction)) address :
  exists feed,
    Feed.getTransactions clock (Returned txs) address = Returned feed
    /\ Permutation feed (Solana.processAll clock 0 txs address)
    /\ (forall t,
           List.filter (fun r => Qeq_bool (Solana.timestamp r) t) feed
           = List.filter (fun r => Qeq_bool (Solana.timestamp r) t)
                         (Solana.processAll clock 0 txs address))
    /\ (length feed <= length txs)%nat
    /\ (forall r, In r feed -> ~ Solana.amount r == 0).
Proof.
  eexists. split; [reflexivity|].
  pose proof (sort_desc_perm Solana.timestamp (Solana.processAll clock 0 txs address))
    as Hperm.
  split; [exact Hperm|]. split; [intros t; apply sort_desc_stable|]. split.
  - rewrite (Permutation_length Hperm). apply processAll_length.
  - intros r Hin. apply (processAll_amounts clock txs address 0 r).
    apply (Permutation_in _ Hperm Hin).
Qed.

(** X3: the Recent Activity box shows at most five records, the first
    ones of the feed, and no record left out is more recent than a record
    shown. *)
Theorem X3_recent_activity clock (txs : list (option Helius.HeliusTransaction))
        address feed :
  Feed.getTransactions clock (Returned txs) address = Returned feed ->
  (length (Feed.recentActivity feed) <= 5)%nat
  /\ (Feed.recentActivity feed ++ skipn 5 feed)%list = feed
  /\ (forall shown hidden,
         In shown (Feed.recentActivity feed) -> In hidden (skipn 5 feed) ->
         Solana.timestamp hidden <= Solana.timestamp shown).
Proof.
  intros [= <-]. unfold Feed.recentActivity, Sorting.slice0.
  split; [apply firstn_le_length|]. split; [apply firstn_skipn|].
  intros shown hidden Hs Hh. eapply descending_app; [|exact Hs|exact Hh].
  rewrite firstn_skipn. apply sort_desc_sorted.
Qed.

End FeedFacts.

(** ** The logger *)

Section LoggerFacts.
Import Json Logger.

Lemma call_unfold c (logs : list LogEntry) :
  call c logs
  = if (maxLogs <? length (logs ++ [entry_of c]))%nat
    then tl (logs ++ [entry_of c])%list
    else (logs ++ [entry_of c])%list.
Proof. reflexivity. Qed.

Lemma calls_snoc cs c (logs : list LogEntry) :
  calls (cs ++ [c]) logs = call c (calls cs logs).
Proof. unfold calls. rewrite fold_left_app. reflexivity. Qed.

Lemma call_bounded c (logs : list LogEntry) :
  (length logs <= maxLogs)%nat -> (length (call c logs) <= maxLogs)%nat.
Proof.
  rewrite call_unfold. generalize maxLogs. intros M H.
  destruct (Nat.ltb_spec M (length (logs ++ [entry_of c]))) as [Hlt|Hge]; [|exact Hge].
  rewrite length_app in Hlt. simpl in Hlt.
  destruct logs as [|e logs]; simpl in *; [lia|].
  rewrite length_app. simpl. lia.
Qed.

(** X4: the buffer never grows past [maxLogs] entries: a buffer within
    the bound stays within it through any sequence of calls. *)
Theorem X4_log_bounded cs (logs : list LogEntry) :
  (length logs <= maxLogs)%nat -> (length (calls cs logs) <= maxLogs)%nat.
Proof.
  induction cs as [|c cs IH] using rev_ind; intros H; [exact H|].
  rewrite calls_snoc. apply call_bounded, IH, H.
Qed.

Lemma skipn_S_tl {A} (k : nat) (l : list A) : skipn (S k) l = tl (skipn k l).
Proof.
  revert l. induction k as [|k IH]; intros [|x l]; try reflexivity.
  change (skipn (S k) l = tl (skipn k l)). apply IH.
Qed.

Lemma calls_from_empty cs :
  calls cs [] = skipn (length cs - maxLogs) (map entry_of cs).
Proof.
  induction cs as [|c cs IH] using rev_ind.
  - rewrite skipn_nil. reflexivity.
  - rewrite calls_snoc, call_unfold, IH. clear IH.
    rewrite map_app, !length_app, length_skipn, length_map.
    change (length [entry_of c]) with 1%nat. change (length [c]) with 1%nat.
    change (map entry_of [c]) with [entry_of c].
    destruct (Nat.ltb_spec maxLogs (length cs - (length cs - maxLogs) + 1))
      as [Hlt|Hge].
    + replace (length cs + 1 - maxLogs)%nat with (S (length cs - maxLogs)) by lia.
      rewrite skipn_S_tl, skipn_app, length_map.
      replace (length cs - maxLogs - length cs)%nat with 0%nat by lia.
      reflexivity.
    + replace (length cs + 1 - maxLogs)%nat with 0%nat by lia.
      replace (length cs - maxLogs)%nat with 0%nat by lia.
      reflexivity.
Qed.

(** X5: starting from an empty buffer, the buffer holds the entries of the
    most recent calls, at most [maxLogs] of them, oldest first. *)
Theorem X5_log_keeps_most_recent cs :
  calls cs [] = skipn (length cs - maxLogs) (map entry_of cs)
  /\ length (calls cs []) = Nat.min (length cs) maxLogs.
Proof.
  split; [apply calls_from_empty|].
  rewrite calls_from_empty, length_skipn, length_map. lia.
Qed.

(** *** Redaction *)

Lemma lookup_assign k k' v (props : list (string * json)) :
  JsValue.lookup k (JsValue.assign k' v props)
  = match JsValue.lookup k props with
    | Some v0 => Some (if String.eqb k k' then v else v0)
    | None => None
    end.
Proof.
  induction props as [|[k0 v0] props IH]; [reflexivity|].
  simpl. destruct (String.eqb_spec k' k0) as [->|Hne]; simpl.
  - destruct (String.eqb_spec k k0) as [->|Hne']; [reflexivity|].
    destruct (JsValue.lookup k props); reflexivity.
  - destruct (String.eqb_spec k k0) as [->|Hne'].
    + destruct (String.eqb_spec k0 k'); [congruence | reflexivity].
    + exact IH.
Qed.

Lemma keys_assign k v (props : list (string * json)) :
  map fst (JsValue.assign k v props) = map fst props.
Proof.
  induction props as [|[k0 v0] props IH]; [reflexivity|].
  simpl. destruct (String.eqb k k0); simpl; [reflexivity|].
  f_equal. exact IH.
Qed.

Lemma assign_same k v (props : list (string * json)) :
  JsValue.lookup k props = Some v -> JsValue.assign k v props = props.
Proof.
  induction props as [|[k0 v0] props IH]; [reflexivity|].
  simpl. destruct (String.eqb_spec k k0) as [->|Hne].
  - intros [= ->]. reflexivity.
  - intros H. rewrite (IH H). reflexivity.
Qed.

Lemma lookup_redact_key k key (props : list (string * json)) :
  JsValue.lookup k (redact_key props key)
  = match JsValue.lookup k props with
    | Some v0 => Some (if String.eqb k key then REDACTED else v0)
    | None => None
    end.
Proof.
  unfold redact_key, JsValue.has.
  destruct (JsValue.lookup key props) as [v|] eqn:E.
  - apply lookup_assign.
  - destruct (String.eqb_spec k key) as [->|Hne].
    + rewrite E. reflexivity.
    + destruct (JsValue.lookup k props); reflexivity.
Qed.

Lemma lookup_redact_keys keys : forall k (props : list (string * json)),
  JsValue.lookup k (fold_left redact_key keys props)
  = match JsValue.lookup k props with
    | Some v0 => Some (if existsb (String.eqb k) keys then REDACTED else v0)
    | None => None
    end.
Proof.
  induction keys as [|key keys IH]; intros k props; simpl.
  - destruct (JsValue.lookup k props); reflexivity.
  - rewrite IH, lookup_redact_key.
    destruct (JsValue.lookup k props); [|reflexivity].
    destruct (String.eqb k key), (existsb (String.eqb k) keys); reflexivity.
Qed.

Lemma keys_redact_keys keys : forall (props : list (string * json)),
  map fst (fold_left redact_key keys props) = map fst props.
Proof.
  induction keys as [|key keys IH]; intros props; simpl; [reflexivity|].
  rewrite IH. unfold redact_key.
  destruct (JsValue.has key props); [apply keys_assign | reflexivity].
Qed.

(** X6: [sanitizeData] on an object keeps the keys and their order,
    replaces the value of each of the four sensitive keys that the object
    has by '[REDACTED]', and returns the value of every other key as it is,
    whatever that value holds inside. *)
Theorem X6_sanitize_object (props : list (string * json)) :
  exists sanitized,
    sanitizeData (JObj props) = JObj sanitized
    /\ map fst sanitized = map fst props
    /\ forall k,
        JsValue.lookup k sanitized
        = match JsValue.lookup k props with
          | Some v => Some (if existsb (String.eqb k) sensitiveKeys
                            then REDACTED else v)
          | None => None
          end.
Proof.
  exists (redact props). split; [reflexivity|].
  split; [apply keys_redact_keys | intros k; apply lookup_redact_keys].
Qed.

Lemma redact_keys_fixed keys (props : list (string * json)) :
  (forall key, In key keys -> redact_key props key = props) ->
  fold_left redact_key keys props = props.
Proof.
  induction keys as [|key keys IH]; intros H; simpl; [reflexivity|].
  rewrite (H key (or_introl eq_refl)). apply IH.
  intros key' Hin. apply H. right. exact Hin.
Qed.

Lemma redact_idempotent (props : list (string * json)) :
  redact (redact props) = redact props.
Proof.
  apply redact_keys_fixed. intros key Hin.
  unfold redact_key, JsValue.has.
  destruct (JsValue.lookup key (redact props)) as [v|] eqn:E; [|reflexivity].
  apply assign_same. rewrite E. f_equal.
  unfold redact in E. rewrite lookup_redact_keys in E.
  destruct (JsValue.lookup key props); [|discriminate].
  assert (Hex : existsb (String.eqb key) sensitiveKeys = true).
  { apply existsb_exists. exists key. split; [exact Hin | apply String.eqb_refl]. }
  rewrite Hex in E. congruence.
Qed.

(** X7: sanitizing twice changes nothing more: [sanitizeData] is
    idempotent on every value. *)
Theorem X7_sanitize_idempotent (data : json) :
  sanitizeData (sanitizeData data) = sanitizeData data.
Proof.
  unfold sanitizeData at 2 3.
  destruct (JsValue.truthy data) eqn:Et; simpl.
  - destruct data; try (unfold sanitizeData; rewrite Et; reflexivity);
      unfold sanitizeData; simpl; rewrite redact_idempotent; reflexivity.
  - unfold sanitizeData. rewrite Et. reflexivity.
Qed.

Lemma In_skipn {A} (n : nat) (l : list A) x : In x (skipn n l) -> In x l.
Proof.
  revert l. induction n as [|n IH]; intros [|y l]; simpl; auto.
Qed.

(** X8: no entry in the buffer holds a top-level secret: in every entry
    that a sequence of calls left in the buffer, data that is an object has
    '[REDACTED]' under each sensitive key it has. *)
Theorem X8_buffer_holds_no_secret cs entry props key v :
  In entry (calls cs []) ->
  data entry = Some (JObj props) ->
  In key sensitiveKeys ->
  JsValue.lookup key props = Some v ->
  v = REDACTED.
Proof.
  intros Hin Hdata Hkey Hlook.
  rewrite calls_from_empty in Hin.
  apply In_skipn, in_map_iff in Hin as (c & <- & _).
  unfold entry_of in Hdata. simpl in Hdata.
  destruct (c_data c) as [d|]; [|discriminate].
  destruct (JsValue.truthy d) eqn:Et; [|discriminate].
  injection Hdata as Hs. unfold sanitizeData in Hs. rewrite Et in Hs. simpl in Hs.
  assert (Hred : exists p0, props = redact p0).
  { destruct d; try discriminate; injection Hs as <-; eauto. }
  destruct Hred as (p0 & ->).
  unfold redact in Hlook. rewrite lookup_redact_keys in Hlook.
  destruct (JsValue.lookup key p0); [|discriminate].
  assert (Hex : existsb (String.eqb key) sensitiveKeys = true).
  { apply existsb_exists. exists key. split; [exact Hkey | apply String.eqb_refl]. }
  rewrite Hex in Hlook. congruence.
Qed.

End LoggerFacts.

(** ** Substrings *)

Section Substrings.

Lemma append_nil (t : string) : EmptyString ++ t = t.
Proof. reflexivity. Qed.

Lemma append_cons c (s t : string) : String c s ++ t = String c (s ++ t).
Proof. reflexivity. Qed.

Lemma prefix_cons c d (p s : string) :
  String.prefix (String c p) (String d s)
  = if ascii_dec c d then String.prefix p s else false.
Proof. reflexivity. Qed.

Lemma prefix_nil (s : string) : String.prefix EmptyString s = true.
Proof. destruct s; reflexivity. Qed.

Lemma prefix_app (p s t : string) :
  String.prefix p s = true -> String.prefix p (s ++ t) = true.
Proof.
  revert s. induction p as [|c p IH]; intros s; [intros _; apply prefix_nil|].
  destruct s as [|d s]; [discriminate|].
  rewrite append_cons, !prefix_cons.
  destruct (ascii_dec c d); [apply IH | discriminate].
Qed.

Lemma prefix_refl_app (p t : string) : String.prefix p (p ++ t) = true.
Proof.
  induction p as [|c p IH]; [apply prefix_nil|].
  rewrite append_cons, prefix_cons.
  destruct (ascii_dec c c); [exact IH | congruence].
Qed.

Lemma prefix_split (p s : string) :
  String.prefix p s = true -> exists t, s = p ++ t.
Proof.
  revert s. induction p as [|c p IH]; intros s.
  - exists s. reflexivity.
  - destruct s as [|d s]; [discriminate|].
    rewrite prefix_cons.
    destruct (ascii_dec c d) as [->|]; [|discriminate].
    intros H. destruct (IH s H) as (t & ->). exists t. reflexivity.
Qed.

Lemma includes_nil (pat : string) :
  JS.includes EmptyString pat = String.prefix pat EmptyString.
Proof. destruct pat; reflexivity. Qed.

Lemma includes_cons c (s pat : string) :
  JS.includes (String c s) pat
  = if String.prefix pat (String c s) then true else JS.includes s pat.
Proof. reflexivity. Qed.

Lemma includes_prefix (s pat : string) :
  String.prefix pat s = true -> JS.includes s pat = true.
Proof.
  intros H. destruct s; [rewrite includes_nil | rewrite includes_cons, H]; auto.
Qed.

Lemma includes_app_l (s t pat : string) :
  JS.includes s pat = true -> JS.includes (s ++ t) pat = true.
Proof.
  induction s as [|c s IH].
  - rewrite includes_nil. intros H. apply includes_prefix.
    apply (prefix_app _ _ t H).
  - rewrite append_cons, !includes_cons.
    destruct (String.prefix pat (String c s)) eqn:E.
    + intros _. rewrite <- append_cons, (prefix_app _ _ t E). reflexivity.
    + intros H. rewrite (IH H).
      destruct (String.prefix pat (String c (s ++ t))); reflexivity.
Qed.

Lemma includes_app_r (s t pat : string) :
  JS.includes t pat = true -> JS.includes (s ++ t) pat = true.
Proof.
  intros H. induction s as [|c s IH]; [exact H|].
  rewrite append_cons, includes_cons, IH.
  destruct (String.prefix pat (String c (s ++ t))); reflexivity.
Qed.

(** [s.includes(pat)] holds exactly when [pat] occurs inside [s]. *)
Lemma includes_iff (s pat : string) :
  JS.includes s pat = true <-> exists a b, s = a ++ pat ++ b.
Proof.
  split.
  - induction s as [|c s IH].
    + rewrite includes_nil. intros E.
      apply prefix_split in E as (t & E). exists EmptyString, t. exact E.
    + rewrite includes_cons. destruct (String.prefix pat (String c s)) eqn:E.
      * intros _. apply prefix_split in E as (t & E). exists EmptyString, t. exact E.
      * intros H. destruct (IH H) as (a & b & ->). exists (String c a), b. reflexivity.
  - intros (a & b & ->). apply includes_app_r, includes_prefix, prefix_refl_app.
Qed.

Lemma append_assoc (a b c : string) : (a ++ b) ++ c = a ++ (b ++ c).
Proof.
  induction a as [|x a IH]; [reflexivity|].
  rewrite !append_cons, IH. reflexivity.
Qed.

Lemma includes_trans (s p q : string) :
  JS.includes s p = true -> JS.includes p q = true -> JS.includes s q = true.
Proof.
  rewrite !includes_iff. intros (a & b & ->) (a' & b' & ->).
  exists (a ++ a'), (b' ++ b). rewrite !append_assoc. reflexivity.
Qed.

End Substrings.

(** ** The batch analysis *)

Section AnalysisFacts.
Import Helius Analysis Spec Advice Exn.
Local Open Scope Q_scope.

Lemma filter_disjoint_length {A} (p q : A -> bool) (l : list A) :
  (forall x, p x = true -> q x = false) ->
  (length (List.filter p l) + length (List.filter q l) <= length l)%nat.
Proof.
  intros H. induction l as [|x l IH]; simpl; [lia|].
  destruct (p x) eqn:Ep.
  - rewrite (H x Ep). simpl. lia.
  - destruct (q x); simpl; lia.
Qed.

Lemma omap_length {A B} (f : A -> option B) (l : list A) :
  (length (omap f l) <= length l)%nat.
Proof.
  induction l as [|x l IH]; [reflexivity|].
  cbn. destruct (f x); cbn; lia.
Qed.

Lemma trades_of_length transactions :
  (length (trades_of transactions) <= length transactions)%nat.
Proof.
  unfold trades_of. etransitivity; [apply omap_length|]. apply filter_length_le.
Qed.

(** X9: the counts of a batch are consistent: buys and sells together are
    no more than the trades, and the trades no more than the transactions
    of the batch. *)
Theorem X9_counts_consistent transactions :
  (buyCount (analyzeBatch_metrics transactions)
   + sellCount (analyzeBatch_metrics transactions)
   <= totalTrades (analyzeBatch_metrics transactions))%nat
  /\ (totalTrades (analyzeBatch_metrics transactions) <= length transactions)%nat.
Proof.
  unfold analyzeBatch_metrics, metrics_of. simpl. split.
  - apply filter_disjoint_length. intros t. unfold is_buy, is_sell.
    destruct (Analysis.type t); congruence.
  - apply trades_of_length.
Qed.

Lemma has_pattern (tx : HeliusTransaction) pattern :
  In pattern tradePatterns ->
  JS.includes (JS.toLowerCase (Helius.type tx)) pattern = true
  \/ JS.includes (JS.toLowerCase (JSON_stringify tx)) pattern = true ->
  isTradeTransaction (Some tx) = true.
Proof.
  intros Hin H. unfold isTradeTransaction.
  apply orb_true_iff. left. unfold JS.some. apply existsb_exists.
  exists pattern. split; [exact Hin|].
  rewrite str_or_else_empty. apply orb_true_iff. exact H.
Qed.

(** X11: what the normalizer labels a swap, the analyzer counts as a
    trade; and so it does every transaction whose type string carries the
    hint swap_in or swap_out, by which [classifyTradeType] decides. *)
Theorem X11_swaps_are_trades (tx : HeliusTransaction) :
  Solana.mentions_swap tx = true
  \/ type_hint tx "swap_in" = true \/ type_hint tx "swap_out" = true ->
  isTradeTransaction (Some tx) = true.
Proof.
  intros [H|[H|H]].
  - unfold Solana.mentions_swap in H.
    apply orb_true_iff in H as [H|H]; [apply orb_true_iff in H as [H|H]|].
    + apply (has_pattern tx "swap"); [simpl; tauto | right; exact H].
    + apply (has_pattern tx "jupiter"); [simpl; tauto | right; exact H].
    + apply (has_pattern tx "orca"); [simpl; tauto | right; exact H].
  - apply (has_pattern tx "swap"); [simpl; tauto | left].
    apply (includes_trans _ "swap_in" "swap" H). reflexivity.
  - apply (has_pattern tx "swap"); [simpl; tauto | left].
    apply (includes_trans _ "swap_out" "swap" H). reflexivity.
Qed.


(** X13: the prompt lists at most five trades, the most recent ones: no
    trade left out has a later timestamp than a trade listed, and the
    sorted trades are the trades, each as often as it occurs. *)
Theorem X13_recent_trades (trades : list Trade) :
  (length (recentTrades trades) <= 5)%nat
  /\ Permutation (sortedTrades trades) trades
  /\ (recentTrades trades ++ skipn 5 (sortedTrades trades))%list = sortedTrades trades
  /\ (forall listed left_out,
         In listed (recentTrades trades) ->
         In left_out (skipn 5 (sortedTrades trades)) ->
         Analysis.timestamp left_out <= Analysis.timestamp listed).
Proof.
  unfold recentTrades, sortedTrades, Sorting.slice0.
  split; [apply firstn_le_length|]. split; [apply sort_desc_perm|].
  split; [apply firstn_skipn|].
  intros a b Ha Hb. eapply descending_app; [|exact Ha|exact Hb].
  rewrite firstn_skipn. apply sort_desc_sorted.
Qed.

Lemma content_or_nonempty c d : d <> EmptyString -> content_or c d <> EmptyString.
Proof.
  intros Hd. destruct c as [[|a s]|]; simpl; [exact Hd | discriminate | exact Hd].
Qed.

(** X14: [analyzeBatch] and [analyzeTransaction] always return a text that
    is not empty: the content of the first choice when the request
    answered with a non-empty one, a fixed sentence when the content is
    null or empty, another when the request failed or answered without a
    choice. *)
Theorem X14_answers_never_empty (completion : Completion) :
  analyzeBatch_answer completion <> EmptyString
  /\ analyzeTransaction_answer completion <> EmptyString
  /\ (forall choice rest text,
         completion = Completed (choice :: rest) ->
         content choice = Some text -> text <> EmptyString ->
         analyzeBatch_answer completion = text
         /\ analyzeTransaction_answer completion = text)
  /\ (forall choice rest,
         completion = Completed (choice :: rest) ->
         content choice = None \/ content choice = Some EmptyString ->
         analyzeBatch_answer completion = "Unable to analyze transactions"
         /\ analyzeTransaction_answer completion = "Unable to analyze transaction")
  /\ ((exists message, completion = Rejected message) \/ completion = Completed [] ->
      analyzeBatch_answer completion = "Batch analysis unavailable"
      /\ analyzeTransaction_answer completion = "Analysis unavailable").
Proof.
  unfold analyzeBatch_answer, analyzeTransaction_answer.
  repeat split.
  - destruct completion as [m|[|c l]]; simpl; try discriminate.
    apply content_or_nonempty. discriminate.
  - destruct completion as [m|[|c l]]; simpl; try discriminate.
    apply content_or_nonempty. discriminate.
  - subst. simpl. rewrite H0. destruct text; [congruence | reflexivity].
  - subst. simpl. rewrite H0. destruct text; [congruence | reflexivity].
  - subst. simpl. destruct H0 as [-> | ->]; reflexivity.
  - subst. simpl. destruct H0 as [-> | ->]; reflexivity.
  - destruct H as [[m ->] | ->]; reflexivity.
  - destruct H as [[m ->] | ->]; reflexivity.
Qed.

End AnalysisFacts.

(** ** The order of the providers and the cache window *)

Section PriceFacts.
Import Price.
Local Open Scope Q_scope.

Lemma try_endpoints_first w pre e post r (cache : gmap string CacheEntry) :
  (forall e', In e' pre -> fetchEndpoint w e' = None) ->
  fetchEndpoint w e = Some r ->
  try_endpoints w (pre ++ e :: post) cache
  = Some (r, <["solana" := mkEntry (price r) (change24h r) (now_at w e)]> cache).
Proof.
  intros Hpre He. induction pre as [|e0 pre IH]; simpl.
  - rewrite He. reflexivity.
  - rewrite (Hpre e0 (or_introl eq_refl)). apply IH.
    intros e' Hin. apply Hpre. right. exact Hin.
Qed.

Lemma getSolanaPrice_fetches w pre e post r (cache : gmap string CacheEntry) :
  ENDPOINTS = (pre ++ e :: post)%list ->
  (forall e', In e' pre -> fetchEndpoint w e' = None) ->
  fetchEndpoint w e = Some r ->
  is_fresh w (cache !! "solana") = false ->
  getSolanaPrice w cache
  = (r, <["solana" := mkEntry (price r) (change24h r) (now_at w e)]> cache).
Proof.
  intros Hsplit Hpre He Hstale. unfold getSolanaPrice, getSolanaPrice_try.
  rewrite Hsplit, (try_endpoints_first w pre e post r cache Hpre He).
  destruct (cache !! "solana") as [c|]; [rewrite Hstale|]; reflexivity.
Qed.

Lemma getSolanaPrice_fresh w (cache : gmap string CacheEntry) c :
  cache !! "solana" = Some c ->
  now w - c_timestamp c < CACHE_DURATION ->
  getSolanaPrice w cache = (of_entry c, cache).
Proof.
  intros Hc Hfresh. unfold getSolanaPrice, getSolanaPrice_try.
  rewrite Hc. unfold is_fresh. apply Qlt_b_true in Hfresh. rewrite Hfresh.
  reflexivity.
Qed.

(** X15: without a fresh cache entry, the answer of the first provider of
    the list that answers is stored and returned; the providers before it
    failed, and what the providers after it would answer plays no part. *)
Theorem X15_first_provider_wins w pre e post r (cache : gmap string CacheEntry) :
  ENDPOINTS = (pre ++ e :: post)%list ->
  (forall e', In e' pre -> fetchEndpoint w e' = None) ->
  fetchEndpoint w e = Some r ->
  is_fresh w (cache !! "solana") = false ->
  getSolanaPrice w cache
  = (r, <["solana" := mkEntry (price r) (change24h r) (now_at w e)]> cache).
Proof. apply getSolanaPrice_fetches. Qed.

(** X16: a price fetched from a provider is served again, with the cache
    left alone and whatever the providers would answer, by a call made less
    than [CACHE_DURATION] after it was stored; a call made [CACHE_DURATION]
    or more after asks the providers again. *)
Theorem X16_cache_window w1 w2 pre e post r (cache : gmap string CacheEntry) :
  ENDPOINTS = (pre ++ e :: post)%list ->
  (forall e', In e' pre -> fetchEndpoint w1 e' = None) ->
  fetchEndpoint w1 e = Some r ->
  is_fresh w1 (cache !! "solana") = false ->
  let stored := <["solana" := mkEntry (price r) (change24h r) (now_at w1 e)]> cache in
  (now w2 - now_at w1 e < CACHE_DURATION ->
   calls [w1; w2] cache = ([r; r], stored))
  /\ (CACHE_DURATION <= now w2 - now_at w1 e ->
      forall pre2 e2 post2 r2,
        ENDPOINTS = (pre2 ++ e2 :: post2)%list ->
        (forall e', In e' pre2 -> fetchEndpoint w2 e' = None) ->
        fetchEndpoint w2 e2 = Some r2 ->
        calls [w1; w2] cache
        = ([r; r2],
           <["solana" := mkEntry (price r2) (change24h r2) (now_at w2 e2)]> stored)).
Proof.
  intros Hsplit Hpre He Hstale stored.
  pose proof (getSolanaPrice_fetches w1 pre e post r cache Hsplit Hpre He Hstale) as H1.
  fold stored in H1. split.
  - intros Hfresh. simpl. rewrite H1.
    rewrite (getSolanaPrice_fresh w2 stored
               (mkEntry (price r) (change24h r) (now_at w1 e))).
    + destruct r; reflexivity.
    + apply lookup_insert_eq.
    + exact Hfresh.
  - intros Hold pre2 e2 post2 r2 Hsplit2 Hpre2 He2. simpl. rewrite H1.
    rewrite (getSolanaPrice_fetches w2 pre2 e2 post2 r2 stored Hsplit2 Hpre2 He2).
    + reflexivity.
    + unfold stored. rewrite lookup_insert_eq. simpl. apply Qlt_b_false. exact Hold.
Qed.

End PriceFacts.

(** ** Token accounts *)

Section TokenAccountFacts.
Import Solana TokenAccounts.
Local Open Scope Q_scope.

Lemma str_or_else_nonempty s d : d <> EmptyString -> JS.str_or_else s d <> EmptyString.
Proof. intros Hd. destruct s; simpl; [exact Hd | discriminate]. Qed.

Lemma basic_account_positive a mint owner amount decimals :
  basic_account a = Some (mint, owner, amount, decimals) -> 0 < amount.
Proof.
  unfold basic_account. destruct (info a) as [i|]; [|discriminate].
  destruct (tokenAmount i) as [ta|]; [|discriminate].
  destruct (JS.Qgt_b (uiAmount ta) 0) eqn:E; [|discriminate].
  intros [= _ _ <- _]. apply Qlt_b_true. exact E.
Qed.

(** X17: every token account that [getTokenAccounts] returns holds a
    positive amount and has a symbol and a name that are not empty; there
    are no more of them than accounts in the response. *)
Theorem X17_token_accounts_well_formed response metadata :
  List.Forall (fun token =>
                 0 < tk_amount token
                 /\ symbol token <> EmptyString /\ name token <> EmptyString)
              (getTokenAccounts response metadata)
  /\ (length (getTokenAccounts response metadata) <= length response)%nat.
Proof.
  unfold getTokenAccounts. split.
  - apply List.Forall_forall. intros token Hin.
    apply in_map_iff in Hin as ([[[mint owner] amount] decimals] & <- & Hin).
    apply list_elem_of_In, list_elem_of_omap in Hin as (a & _ & Ha).
    simpl. split; [exact (basic_account_positive _ _ _ _ _ Ha)|].
    split; destruct (metadataMap metadata !! mint);
      try discriminate; apply str_or_else_nonempty; discriminate.
  - rewrite length_map. apply omap_length.
Qed.

Lemma find_append {A} (p : A -> bool) (l1 l2 : list A) :
  List.find p (l1 ++ l2)
  = match List.find p l1 with
    | Some x => Some x
    | None => List.find p l2
    end.
Proof.
  induction l1 as [|x l1 IH]; [reflexivity|].
  simpl. destruct (p x); [reflexivity | exact IH].
Qed.

Lemma metadataMap_lookup metadata mint :
  forall acc : gmap string Helius.TokenMetadata,
    fold_left (fun m md => <[Helius.md_mint md := md]> m) metadata acc !! mint
    = match List.find (fun md => String.eqb (Helius.md_mint md) mint) (rev metadata) with
      | Some md => Some md
      | None => acc !! mint
      end.
Proof.
  induction metadata as [|md metadata IH]; intros acc; [reflexivity|].
  simpl. rewrite IH. rewrite find_append.
  destruct (List.find _ (rev metadata)); [reflexivity|].
  simpl. destruct (String.eqb_spec (Helius.md_mint md) mint) as [->|Hne].
  - apply lookup_insert_eq.
  - apply lookup_insert_ne. exact Hne.
Qed.

(** X18: when the metadata service lists a mint more than once, the last
    entry is the one used; a mint it does not list has no metadata, and its
    account is named 'Unknown' / 'Unknown Token'. *)
Theorem X18_last_metadata_wins metadata mint :
  metadataMap metadata !! mint
  = List.find (fun md => String.eqb (Helius.md_mint md) mint) (rev metadata)
  /\ (metadataMap metadata !! mint = None ->
      forall owner amount decimals,
        symbol (enhance (metadataMap metadata) (mint, owner, amount, decimals)) = "Unknown"
        /\ name (enhance (metadataMap metadata) (mint, owner, amount, decimals))
           = "Unknown Token").
Proof.
  split.
  - unfold metadataMap. rewrite metadataMap_lookup.
    destruct (List.find _ (rev metadata)); [reflexivity | apply lookup_empty].
  - intros H owner amount decimals. simpl. rewrite H. auto.
Qed.

Lemma fallback_accounts response :
  validAccounts (map parse_account (map (fun a => Looked (info a)) response))
  = omap basic_account response.
Proof.
  induction response as [|a response IH]; [reflexivity|].
  cbn. rewrite <- IH. unfold validAccounts at 1. cbn.
  unfold basic_account. destruct (info a) as [i|]; [|reflexivity].
  destruct (tokenAmount i) as [ta|]; [|reflexivity].
  destruct (JS.Qis_zero (uiAmount ta)) eqn:Ez.
  - apply Qis_zero_true in Ez.
    assert (Hgt : JS.Qgt_b (uiAmount ta) 0 = false).
    { apply Qlt_b_false. rewrite Ez. apply Qle_refl. }
    rewrite Hgt. reflexivity.
  - destruct (JS.Qgt_b (uiAmount ta) 0); reflexivity.
Qed.

(** X19: the two paths of [getTokenAccounts] agree: when the account
    lookups of the fallback path give the same parsed infos as the first
    request, it returns the same token accounts. *)
Theorem X19_fallback_agrees response metadata :
  getTokenAccounts_fallback (map (fun a => Looked (info a)) response) metadata
  = getTokenAccounts response metadata.
Proof.
  unfold getTokenAccounts_fallback, getTokenAccounts.
  rewrite fallback_accounts. reflexivity.
Qed.

End TokenAccountFacts.

(** ** The indexing API *)

Section HeliusApiFacts.
Import Exn Json HeliusApi.

(** X20: the address that [fetchWithTimeout] requests always mentions
    the key parameter; an address that mentions it already is requested as
    it is, so that adding the key twice is adding it once. *)
Theorem X20_url_carries_key (key url : string) :
  JS.includes (urlWithKey key url) "api-key" = true
  /\ (JS.includes url "api-key" = true -> urlWithKey key url = url)
  /\ urlWithKey key (urlWithKey key url) = urlWithKey key url.
Proof.
  assert (H1 : JS.includes (urlWithKey key url) "api-key" = true).
  { unfold urlWithKey. destruct (JS.includes url "api-key") eqn:E; [exact E|].
    apply includes_app_r, includes_app_r, includes_app_l. reflexivity. }
  split; [exact H1|]. split.
  - intros H. unfold urlWithKey. rewrite H. reflexivity.
  - unfold urlWithKey at 1. rewrite H1. reflexivity.
Qed.

Lemma on_thrown_failure timeout e :
  exists message, on_thrown timeout e = failure message.
Proof. destruct e; simpl; eauto. Qed.

Lemma fetchWithTimeout_cases timeout fetched :
  (exists d, fetchWithTimeout timeout fetched = mkApiResponse true (Some d) None
             /\ from_parsed_body fetched d)
  \/ (exists message, fetchWithTimeout timeout fetched = failure message).
Proof.
  destruct fetched as [e|[o st stt [e|text [d|]]]]; simpl.
  - right. apply on_thrown_failure.
  - right. destruct o; simpl; apply on_thrown_failure.
  - destruct o; simpl; [|right; eauto].
    destruct d; try (left; eexists; split; [reflexivity|];
                     eexists _, text; repeat split; discriminate).
    right. eauto.
  - right. destruct o; simpl; eauto.
Qed.

(** X21: a response of [fetchWithTimeout] carries either data or an
    error, never both and never neither: with [success] it has data that is
    not null, parsed from the body of an ok reply, and no error; without,
    it has an error message and no data. *)
Theorem X21_response_data_or_error timeout fetched :
  (success (fetchWithTimeout timeout fetched) = true
   /\ error (fetchWithTimeout timeout fetched) = None
   /\ exists d, data (fetchWithTimeout timeout fetched) = Some d
                /\ from_parsed_body fetched d)
  \/ (success (fetchWithTimeout timeout fetched) = false
      /\ data (fetchWithTimeout timeout fetched) = None
      /\ exists message, error (fetchWithTimeout timeout fetched) = Some message).
Proof.
  destruct (fetchWithTimeout_cases timeout fetched) as [(d & -> & H)|(m & ->)].
  - left. simpl. eauto.
  - right. simpl. eauto.
Qed.

Lemma history_of_failure message :
  getTransactionHistory (failure message)
  = Raised ("Failed to fetch transaction history: "
            ++ JS.str_or_else message "No data received").
Proof. reflexivity. Qed.

(** What [getTransactionHistory] makes of a payload that is not null. *)
Lemma history_of_payload (d : json) :
  getTransactionHistory (mkApiResponse true (Some d) None)
  = if JsValue.truthy d then
      match d with
      | JArr items => Returned items
      | JObj props =>
          match JsValue.lookup "transactions" props with
          | Some (JArr items) => Returned items
          | Some v =>
              if JsValue.truthy v
              then Raised "Invalid response format: expected array of transactions"
              else Returned []
          | None => Returned []
          end
      | _ => Returned []
      end
    else Raised "Failed to fetch transaction history: No data received".
Proof.
  unfold getTransactionHistory, unusable. cbn [success data error_or_default error negb orb].
  destruct (JsValue.truthy d) eqn:Et; [|reflexivity].
  cbn [negb].
  destruct d as [|b|x|t|items|props]; try reflexivity.
  cbn [JsValue.isArray JsValue.get or_empty_array].
  destruct (JsValue.lookup "transactions" props) as [v|]; [|reflexivity].
  destruct v as [|b|x|t|items|props']; cbn [or_empty_array]; try reflexivity.
  all: match goal with
       | |- context [JsValue.truthy ?v] => destruct (JsValue.truthy v); reflexivity
       end.
Qed.

(** X22: what [getTransactionHistory] makes of each outcome of its
    request.  A request that failed raises 'Failed to fetch transaction
    history: ' followed by the message of the failure: the timeout with its
    delay, the status and text of a reply that is not ok, 'Invalid JSON
    response', 'Empty response received' for null.  An ok reply with a
    falsy payload raises the same with 'No data received'.  An array is
    returned as it is; an object gives its [transactions] when that is an
    array, an empty list when it is missing or falsy, and the format error
    when it is anything else; any other truthy payload gives an empty
    list. *)
Theorem X22_history_errors timeout fetched :
  ((exists message,
       fetchWithTimeout timeout fetched = failure message
       /\ getTransactionHistory (fetchWithTimeout timeout fetched)
          = Raised ("Failed to fetch transaction history: "
                    ++ JS.str_or_else message "No data received"))
   \/ (exists d,
         from_parsed_body fetched d
         /\ getTransactionHistory (fetchWithTimeout timeout fetched)
            = if JsValue.truthy d then
                match d with
                | JArr items => Returned items
                | JObj props =>
                    match JsValue.lookup "transactions" props with
                    | Some (JArr items) => Returned items
                    | Some v =>
                        if JsValue.truthy v
                        then Raised "Invalid response format: expected array of transactions"
                        else Returned []
                    | None => Returned []
                    end
                | _ => Returned []
                end
              else Raised "Failed to fetch transaction history: No data received"))
  /\ (fetched = FetchFails AbortError ->
      fetchWithTimeout timeout fetched
      = failure ("Request timeout after " ++ nat_to_string timeout ++ "ms"))
  /\ (forall message,
         fetched = FetchFails (OtherError message) ->
         fetchWithTimeout timeout fetched = failure message)
  /\ (forall response text parsed,
         fetched = Responded response -> ok response = false ->
         body response = BodyText text parsed ->
         fetchWithTimeout timeout fetched
         = failure ("HTTP " ++ nat_to_string (status response) ++ ": "
                    ++ JS.str_or_else text (statusText response)))
  /\ (forall response text,
         fetched = Responded response -> ok response = true ->
         (body response = BodyText text None ->
          fetchWithTimeout timeout fetched = failure "Invalid JSON response")
         /\ (body response = BodyText text (Some JNull) ->
             fetchWithTimeout timeout fetched = failure "Empty response received")).
Proof.
  split; [|repeat split].
  - destruct (fetchWithTimeout_cases timeout fetched) as [(d & E & H)|(m & E)].
    + right. exists d. split; [exact H|]. rewrite E. apply history_of_payload.
    + left. exists m. split; [exact E|]. rewrite E. apply history_of_failure.
  - intros ->. reflexivity.
  - intros message ->. reflexivity.
  - intros response text parsed -> Hok Hb. simpl. rewrite Hok, Hb. reflexivity.
  - intros Hb. subst fetched. simpl. rewrite H0, Hb. reflexivity.
  - intros Hb. subst fetched. simpl. rewrite H0, Hb. reflexivity.
Qed.

(** X23: the three requests treat a missing list differently.  For an
    object without the expected property, [getTransactionHistory] returns
    an empty list where [getTokenMetadata] and [parseTransaction] raise the
    format error; and [getTokenMetadata] answers an empty list of mints
    with an empty list, whatever the request would have given. *)
Theorem X23_missing_list (props : list (string * json)) :
  JsValue.lookup "transactions" props = None ->
  JsValue.lookup "tokens" props = None ->
  let response := mkApiResponse true (Some (JObj props)) None in
  getTransactionHistory response = Returned []
  /\ (forall mint mints,
         getTokenMetadata (mint :: mints) response
         = Raised "Invalid response format: expected array of token metadata")
  /\ parseTransaction response
     = Raised "Invalid response format: expected array with transaction data"
  /\ forall any, getTokenMetadata [] any = Returned [].
Proof.
  intros Htx Htok response. unfold response.
  unfold getTransactionHistory, getTokenMetadata, parseTransaction, unusable.
  simpl. rewrite Htx, Htok. simpl. auto.
Qed.

End HeliusApiFacts.

(** ** More on the normalizer *)

Section NormalizeFacts.
Import Helius Solana Reading.
Local Open Scope Q_scope.

Lemma finish_relabel now (tx : HeliusTransaction) v :
  finish now tx {| l_type := "Swap"; l_amount := l_amount v;
                   l_tokenSymbol := l_tokenSymbol v;
                   l_description := "Token Swap" |}
  = option_map relabel_swap (finish now tx v).
Proof.
  unfold finish. simpl.
  destruct (String.eqb (l_tokenSymbol v) "SOL" && JS.Qlt_b (l_amount v) MIN_SOL_AMOUNT);
    [reflexivity|].
  destruct (JS.Qstrict_eq (l_amount v) 0); reflexivity.
Qed.

(** X24: a swap keyword in the serialized body changes the type and the
    description of the record and nothing else: the amount, the token
    symbol and the decision to drop the transaction are those that the
    transfers alone give. *)
Theorem X24_swap_only_relabels now (tx : HeliusTransaction) w :
  mentions_swap tx = true ->
  processTransaction now (Some tx) w
  = option_map relabel_swap (finish now tx (by_transfers tx w)).
Proof.
  intros Hs. rewrite processTransaction_some.
  unfold resolve, swap_step. rewrite Hs. apply finish_relabel.
Qed.

(** X25: for a transaction with native transfers only and no swap keyword,
    whose first transfer is not under the threshold, the wallet as sender
    gives 'Send SOL' (also when it is the recipient as well), the wallet as
    recipient only gives 'Receive SOL', with the amount in SOL and a
    description that prints the binary64 quotient of the lamports by 1e9
    with three decimals. *)
Theorem X25_native_direction now (tx : HeliusTransaction) w n ns :
  nativeTransfers tx = Some (n :: ns) ->
  JS.nonempty (tokenTransfers tx) = false ->
  mentions_swap tx = false ->
  MIN_SOL_AMOUNT <= NativeTransfer.amount n / LAMPORTS_PER_SOL ->
  let sol := NativeTransfer.amount n / LAMPORTS_PER_SOL in
  exists r,
    processTransaction now (Some tx) w = Some r
    /\ Solana.amount r = sol /\ tokenSymbol r = "SOL"
    /\ (NativeTransfer.fromUserAccount n = w ->
        Solana.type r = "Send SOL"
        /\ description r
           = "Sent " ++ amount_toFixed (NativeTransfer.amount n) ++ " SOL")
    /\ (NativeTransfer.fromUserAccount n <> w ->
        NativeTransfer.toUserAccount n = w ->
        Solana.type r = "Receive SOL"
        /\ description r
           = "Received " ++ amount_toFixed (NativeTransfer.amount n) ++ " SOL").
Proof.
  intros Hn Htok Hswap Hmin sol.
  assert (Hr : resolve tx w = native_step tx w (init_locals tx)).
  { unfold resolve, swap_step, token_step. rewrite Hswap.
    destruct (tokenTransfers tx) as [[|t ts]|]; try discriminate; reflexivity. }
  assert (Ha : l_amount (resolve tx w) = sol /\ l_tokenSymbol (resolve tx w) = "SOL").
  { rewrite Hr. unfold native_step. rewrite Hn.
    destruct (String.eqb _ w); [|destruct (String.eqb _ w)]; auto. }
  destruct Ha as [Ha Hsym].
  rewrite processTransaction_some.
  destruct (finish now tx (resolve tx w)) as [r|] eqn:E.
  - exists r. apply finish_some in E as (Hra & Hrs & Hrt & Hrd & _).
    split; [reflexivity|]. rewrite Hra, Hrs, Hrt, Hrd, Ha, Hsym.
    split; [reflexivity|]. split; [reflexivity|].
    rewrite Hr. unfold native_step. rewrite Hn. split.
    + intros Hf. apply String.eqb_eq in Hf. rewrite Hf. auto.
    + intros Hf Ht. apply String.eqb_neq in Hf. apply String.eqb_eq in Ht.
      rewrite Hf, Ht. auto.
  - exfalso. apply finish_none in E as [Hz|[_ Hlt]]; rewrite Ha in *.
    + unfold MIN_SOL_AMOUNT in Hmin. fold sol in Hmin. lra.
    + fold sol in Hmin. lra.
Qed.

End NormalizeFacts.

(** ** More on the classifier *)

Section ClassifyFacts.
Import Helius Analysis Spec Reading.
Local Open Scope Q_scope.

Lemma native_out_no_source (tx : HeliusTransaction) :
  source tx = None -> native_out tx = JS.Fin 0.
Proof.
  intros Hs. unfold native_out, native_from_source.
  rewrite filter_none; [reflexivity|]. intros t _. rewrite Hs. reflexivity.
Qed.

Lemma token_out_no_source (tx : HeliusTransaction) :
  source tx = None -> token_out tx = JS.Fin 0.
Proof.
  intros Hs. unfold token_out, token_from_source.
  rewrite filter_none; [reflexivity|]. intros t _. rewrite Hs. reflexivity.
Qed.

(** X26: for a transaction object without a [source] property, as the
    interface HeliusTransaction declares it, the two rules on transfers
    never apply, whatever the transfers: the classification is decided by
    the type string and the serialized body alone. *)
Theorem X26_no_source_no_transfer_rule (tx : HeliusTransaction) :
  source tx = None ->
  classifyTradeType (Some tx) = first_rule text_rules tx.
Proof.
  intros Hs. unfold classifyTradeType, text_rules, first_rule, type_hint, body_has.
  rewrite str_or_else_empty, native_rule, token_rule.
  rewrite (native_out_no_source tx Hs), (token_out_no_source tx Hs). reflexivity.
Qed.

(** *** Keywords of the type string in the serialized body *)

Lemma toLowerCase_app (s t : string) :
  JS.toLowerCase (s ++ t) = JS.toLowerCase s ++ JS.toLowerCase t.
Proof.
  induction s as [|c s IH]; [reflexivity|].
  rewrite append_cons. simpl JS.toLowerCase. rewrite IH. reflexivity.
Qed.

Lemma toLowerCase_split (s x y : string) :
  JS.toLowerCase s = x ++ y ->
  exists sx sy, s = sx ++ sy /\ JS.toLowerCase sx = x /\ JS.toLowerCase sy = y.
Proof.
  revert s. induction x as [|c x IH]; intros s H.
  - exists EmptyString, s. auto.
  - destruct s as [|d s]; [discriminate|].
    rewrite append_cons in H. simpl JS.toLowerCase in H. injection H as Hc H.
    destruct (IH s H) as (sx & sy & -> & Hx & Hy).
    exists (String d sx), sy. simpl JS.toLowerCase. rewrite Hc, Hx. auto.
Qed.

Lemma escape_app (s t : string) :
  Json.escape (s ++ t) = Json.escape s ++ Json.escape t.
Proof.
  induction s as [|c s IH]; [reflexivity|].
  rewrite append_cons. simpl Json.escape. rewrite IH, append_assoc. reflexivity.
Qed.

Lemma escape_char_keyword (c : ascii) :
  keyword_char (JS.lower_ascii c) = true ->
  Json.escape_char c = String c EmptyString.
Proof.
  destruct c as [[] [] [] [] [] [] [] []]; vm_compute; congruence.
Qed.

Lemma escape_keyword (s kw : string) :
  keyword kw = true -> JS.toLowerCase s = kw -> Json.escape s = s.
Proof.
  revert kw. induction s as [|c s IH]; intros kw Hk Hl; [reflexivity|].
  simpl JS.toLowerCase in Hl. subst kw. simpl in Hk.
  apply andb_true_iff in Hk as [Hc Hk].
  simpl Json.escape. rewrite (escape_char_keyword c Hc), (IH _ Hk eq_refl).
  reflexivity.
Qed.

Lemma includes_quote (s kw : string) :
  keyword kw = true ->
  JS.includes (JS.toLowerCase s) kw = true ->
  JS.includes (JS.toLowerCase (Json.quote s)) kw = true.
Proof.
  intros Hk H. apply includes_iff in H as (a & b & H).
  apply toLowerCase_split in H as (sa & s' & -> & <- & H).
  apply toLowerCase_split in H as (sk & sb & -> & Hkw & <-).
  unfold Json.quote. rewrite !escape_app, (escape_keyword sk kw Hk Hkw).
  rewrite !toLowerCase_app, Hkw.
  apply includes_app_r, includes_app_l, includes_app_r.
  apply includes_prefix, prefix_refl_app.
Qed.

Lemma existsb_agree {A} (f g : A -> bool) (l : list A) :
  (forall x, In x l -> f x = g x) -> existsb f l = existsb g l.
Proof.
  induction l as [|x l IH]; intros H; [reflexivity|].
  simpl. rewrite (H x (or_introl eq_refl)), IH; [reflexivity|].
  intros y Hy. apply H. right. exact Hy.
Qed.

Lemma stringify_shape (tx : HeliusTransaction) :
  exists first rest,
    JSON_stringify tx
    = "{" ++ ((first ++ ("," ++ ((Json.quote "type" ++ (":" ++ Json.quote (Helius.type tx)))
                                 ++ ("," ++ rest)))) ++ "}").
Proof.
  exists (stringify_prop ("signature", Json.JStr (Helius.signature tx))).
  exists (Json.join ","
            (map stringify_prop
                 (("timestamp", Json.JNum (Helius.timestamp tx))
                  :: ("slot", Json.JNum (slot tx))
                  :: ("fee", Json.JNum (Helius.fee tx))
                  :: (Json.prop_opt "nativeTransfers"
                        (fun l => Json.JArr (map NativeTransfer.to_json l))
                        (nativeTransfers tx)
                      ++ Json.prop_opt "tokenTransfers"
                           (fun l => Json.JArr (map TokenTransfer.to_json l))
                           (tokenTransfers tx)
                      ++ Json.prop_opt "accountData"
                           (fun l => Json.JArr (map AccountData.to_json l))
                           (accountData tx)
                      ++ Json.prop_opt "source" Json.JStr (source tx))%list))).
  reflexivity.
Qed.

Lemma type_seen_in_body (tx : HeliusTransaction) kw :
  keyword kw = true -> type_hint tx kw = true -> body_has tx kw = true.
Proof.
  unfold type_hint, body_has. intros Hk H.
  destruct (stringify_shape tx) as (first & rest & ->).
  rewrite !toLowerCase_app.
  apply includes_app_r, includes_app_l, includes_app_r, includes_app_r,
    includes_app_l, includes_app_r, includes_app_r.
  apply includes_quote; assumption.
Qed.

(** X27: a keyword (lower-case letters and underscores) found in the
    lower-cased type string is found in the lower-cased serialized body as
    well, since the body quotes the type string.  So a raw type that
    contains 'swap' in any case makes the normalizer label the record a
    swap, and the test of the type string in [isTradeTransaction] adds
    nothing to its test of the body. *)
Theorem X27_type_keyword_in_body (tx : HeliusTransaction) :
  (forall kw, keyword kw = true -> type_hint tx kw = true -> body_has tx kw = true)
  /\ (type_hint tx "swap" = true -> Solana.mentions_swap tx = true)
  /\ isTradeTransaction (Some tx)
     = (existsb (body_has tx) tradePatterns
        || (JS.nonempty (nativeTransfers tx) || JS.nonempty (tokenTransfers tx))
           && match accountData tx with
              | Some accounts =>
                  existsb (fun account =>
                             negb (JS.Qstrict_eq (AccountData.nativeBalanceChange account) 0)
                             || JS.nonempty (AccountData.tokenBalanceChanges account))
                          accounts
              | None => false
              end).
Proof.
  split; [intros kw; apply type_seen_in_body|]. split.
  - intros H. apply (type_seen_in_body tx "swap" eq_refl) in H.
    unfold Solana.mentions_swap. unfold body_has in H. rewrite H. reflexivity.
  - unfold isTradeTransaction, JS.some. rewrite str_or_else_empty.
    f_equal. apply existsb_agree.
    intros pattern Hin. fold (type_hint tx pattern). fold (body_has tx pattern).
    destruct (type_hint tx pattern) eqn:E; [|reflexivity].
    simpl. symmetry. apply type_seen_in_body; [|exact E].
    simpl in Hin. repeat (destruct Hin as [<-|Hin]; [reflexivity|]). destruct Hin.
Qed.

End ClassifyFacts.

(** ** The sign of the average *)

Section AverageFacts.
Import Helius Analysis Spec.
Local Open Scope Q_scope.

Lemma value_nonneg (tx : HeliusTransaction) :
  nonneg_transfers tx -> 0 <= calculateTradeValue (Some tx).
Proof.
  intros Hnn. rewrite calculateTradeValue_eq.
  pose proof (abs_transfers_nonneg tx) as Ha.
  rewrite <- (plain_transfers_abs tx Hnn) in Ha.
  destruct (JS.nonempty (accountData tx)); [|exact Ha].
  pose proof (proj1 (Math_max_lub (plain_transfers tx) (net_balance_changes tx))).
  lra.
Qed.

Lemma trades_of_values transactions :
  (forall tx, In (Some tx) transactions -> nonneg_transfers tx) ->
  forall t, In t (trades_of transactions) -> 0 <= value t.
Proof.
  intros H t Hin. unfold trades_of in Hin.
  apply list_elem_of_In, list_elem_of_omap in Hin as (otx & Hotx & Ht).
  apply list_elem_of_In, filter_In in Hotx as [Hotx _].
  destruct otx as [tx|]; [|discriminate].
  injection Ht as <-. simpl. apply value_nonneg, H, Hotx.
Qed.

Lemma sum_of_values_nonneg (trades : list Trade) :
  (forall t, In t trades -> 0 <= value t) -> JS.nonneg (sum_of_values trades).
Proof.
  unfold sum_of_values, reduce_number.
  assert (Hacc : JS.nonneg (JS.Fin 0)) by apply Qle_refl.
  revert Hacc. generalize (JS.Fin 0).
  induction trades as [|t trades IH]; intros acc Hacc H; simpl; [exact Hacc|].
  apply IH.
  - apply add_nonneg; [exact Hacc|]. apply round64_nonneg, H. left. reflexivity.
  - intros t' Ht'. apply H. right. exact Ht'.
Qed.

(** X28: when no transfer of the batch moves a negative amount, the
    average trade value is not negative: it is zero, a positive number or
    +Infinity, and never NaN. *)
Theorem X28_average_not_negative transactions :
  (forall tx, In (Some tx) transactions -> nonneg_transfers tx) ->
  JS.lt (averageTradeValue (analyzeBatch_metrics transactions)) (JS.Fin 0) = false
  /\ averageTradeValue (analyzeBatch_metrics transactions) <> JS.NaN.
Proof.
  intros H. apply nonneg_not_negative.
  unfold analyzeBatch_metrics, metrics_of. simpl.
  pose proof (trades_of_values transactions H) as Hv.
  destruct (trades_of transactions) as [|t0 trades] eqn:E.
  - vm_compute. discriminate.
  - apply or_else_nonneg, div_nonneg; [apply sum_of_values_nonneg; exact Hv|].
    unfold Qlt. simpl. lia.
Qed.

(** The average leaves the finite range with the sum. *)
Example average_overflows :
  averageTradeValue (analyzeBatch_metrics [Some Samples.huge_tx]) = JS.PInf.
Proof. vm_compute. reflexivity. Qed.

End AverageFacts.

(** ** Errors in the normalizer *)

Section DynamicFacts.
Import Json Dynamic.

Lemma get_ok v k : nullish v = false -> get v k = JS.Ok (prop v k).
Proof. unfold get. intros ->. reflexivity. Qed.

Lemma get_throw v k : nullish v = true -> exists e, get v k = JS.Throw e.
Proof. unfold get. intros ->. eauto. Qed.

Lemma truthy_not_nullish v : truthy v = true -> nullish v = false.
Proof. destruct v as [|x|[]]; simpl; congruence. Qed.

Lemma dynamic_returns now tx w :
  exists r, processTransaction now tx w = JS.Ok r.
Proof.
  unfold processTransaction. destruct (processTransaction_try now tx w); simpl; eauto.
Qed.

Lemma dynamic_caught now tx w e :
  processTransaction_try now tx w = JS.Throw e ->
  processTransaction now tx w = JS.Ok None.
Proof. unfold processTransaction. intros ->. reflexivity. Qed.

Lemma bind_ok {A B} (a : A) (k : A -> JS.result B) : mbind k (JS.Ok a) = k a.
Proof. reflexivity. Qed.

Lemma bind_throw {A B} (e : JS.exn) (k : A -> JS.result B) :
  mbind k (JS.Throw e) = JS.Throw e.
Proof. reflexivity. Qed.

Lemma native_missing tx w v :
  nullish tx = false -> missing_first tx "nativeTransfers" = true ->
  exists e, native_step tx w v = JS.Throw e.
Proof.
  intros En H. unfold missing_first, first_transfer in H. unfold native_step.
  rewrite (get_ok tx _ En), bind_ok.
  destruct (truthy (prop tx "nativeTransfers")) eqn:Et; [|discriminate].
  rewrite (get_ok _ "length" (truthy_not_nullish _ Et)), bind_ok.
  destruct (to_number (prop (prop tx "nativeTransfers") "length")) as [len|] eqn:El;
    [|discriminate].
  rewrite bind_ok. destruct (JS.gt len (JS.Fin 0)) eqn:Eg; [|discriminate].
  rewrite (get_ok _ "0" (truthy_not_nullish _ Et)), bind_ok.
  destruct (get_throw _ "amount" H) as [e ->]. rewrite bind_throw. eauto.
Qed.

Lemma token_missing tx w v :
  nullish tx = false -> missing_first tx "tokenTransfers" = true ->
  exists e, token_step tx w v = JS.Throw e.
Proof.
  intros En H. unfold missing_first, first_transfer in H. unfold token_step.
  rewrite (get_ok tx _ En), bind_ok.
  destruct (truthy (prop tx "tokenTransfers")) eqn:Et; [|discriminate].
  rewrite (get_ok _ "length" (truthy_not_nullish _ Et)), bind_ok.
  destruct (to_number (prop (prop tx "tokenTransfers") "length")) as [len|] eqn:El;
    [|discriminate].
  rewrite bind_ok. destruct (JS.gt len (JS.Fin 0)) eqn:Eg; [|discriminate].
  rewrite (get_ok _ "0" (truthy_not_nullish _ Et)), bind_ok.
  destruct (get_throw _ "amount" H) as [e ->]. rewrite bind_throw. eauto.
Qed.

Lemma malformed_raises now tx w :
  malformed tx = true -> exists e, processTransaction_try now tx w = JS.Throw e.
Proof.
  unfold malformed, processTransaction_try. intros H.
  destruct (nullish tx) eqn:En.
  - destruct (get_throw tx "type" En) as [e ->]. simpl. eauto.
  - rewrite (get_ok tx "type" En). simpl in *.
    set (v0 := {| l_type := _; l_amount := _; l_tokenSymbol := _; l_description := _ |}).
    destruct (missing_first tx "nativeTransfers") eqn:Em.
    + destruct (native_missing tx w v0 En Em) as [e ->]. simpl. eauto.
    + simpl in H. destruct (native_step tx w v0) as [v1|e]; simpl; [|eauto].
      destruct (token_missing tx w v1 En H) as [e ->]. simpl. eauto.
Qed.

Lemma dynamic_processAll_returns clock txs address :
  forall i, exists rs, processAll clock i txs address = JS.Ok rs.
Proof.
  induction txs as [|tx txs IH]; intros i; simpl; [eauto|].
  destruct (dynamic_returns (clock i) tx address) as [r ->]. simpl.
  destruct (IH (S i)) as [rs ->]. simpl. eauto.
Qed.

Lemma dynamic_processAll_app clock (pre post : list value) address :
  forall i before after,
    processAll clock i pre address = JS.Ok before ->
    processAll clock (i + length pre) post address = JS.Ok after ->
    processAll clock i (pre ++ post) address = JS.Ok (before ++ after)%list.
Proof.
  induction pre as [|tx pre IH]; intros i before after Hb Ha; simpl in *.
  - injection Hb as <-. rewrite Nat.add_0_r in Ha. exact Ha.
  - destruct (processTransaction (clock i) tx address) as [r|e]; simpl in *; [|discriminate].
    destruct (processAll clock (S i) pre address) as [rs|e] eqn:E; simpl in *; [|discriminate].
    injection Hb as <-. rewrite Nat.add_succ_r in Ha.
    rewrite (IH (S i) rs after E Ha). simpl. destruct r; reflexivity.
Qed.

(** *** Transactions with the declared properties *)

Lemma prop_to_json (tx : Helius.HeliusTransaction) :
  prop (Parsed (Helius.to_json tx)) "type" = Parsed (JStr (Helius.type tx))
  /\ prop (Parsed (Helius.to_json tx)) "signature" = Parsed (JStr (Helius.signature tx))
  /\ prop (Parsed (Helius.to_json tx)) "timestamp" = Parsed (JNum (Helius.timestamp tx))
  /\ prop (Parsed (Helius.to_json tx)) "fee" = Parsed (JNum (Helius.fee tx))
  /\ prop (Parsed (Helius.to_json tx)) "nativeTransfers"
     = of_property (option_map (fun l => JArr (map NativeTransfer.to_json l))
                               (Helius.nativeTransfers tx))
  /\ prop (Parsed (Helius.to_json tx)) "tokenTransfers"
     = of_property (option_map (fun l => JArr (map TokenTransfer.to_json l))
                               (Helius.tokenTransfers tx)).
Proof.
  destruct tx as [sig ty ts sl fe [nt|] [tt|] [ad|] [src|]]; repeat split; reflexivity.
Qed.

Lemma nonempty_length {A} (x : A) (l : list A) :
  JS.gt (JS.Fin (inject_Z (Z.of_nat (length (x :: l))))) (JS.Fin 0) = true.
Proof.
  unfold JS.gt, JS.lt. apply Qlt_b_true. unfold Qlt. simpl. lia.
Qed.

Lemma prop_length items :
  prop (Parsed (JArr items)) "length"
  = Number (JS.Fin (inject_Z (Z.of_nat (length items)))).
Proof. reflexivity. Qed.

Lemma prop_first item items : prop (Parsed (JArr (item :: items))) "0" = Parsed item.
Proof. reflexivity. Qed.

Lemma prop_native_transfer (t : NativeTransfer.t) :
  prop (Parsed (NativeTransfer.to_json t)) "amount" = Parsed (JNum (NativeTransfer.amount t)).
Proof. reflexivity. Qed.

Lemma prop_token_transfer (t : TokenTransfer.t) :
  prop (Parsed (TokenTransfer.to_json t)) "amount" = Parsed (JNum (TokenTransfer.amount t)).
Proof. reflexivity. Qed.

(** The reads of a property of a value that is visibly an object, an
    array or a string. *)
Ltac read_properties :=
  repeat match goal with
         | |- context [get ?v ?k] => rewrite (get_ok v k eq_refl)
         end;
  cbn [mbind mret result_bind result_ret JS.bind].

Lemma native_step_typed (tx : Helius.HeliusTransaction) w v t :
  same_labels v t ->
  exists v', native_step (Parsed (Helius.to_json tx)) w v = JS.Ok v'
             /\ same_labels v' (Solana.native_step tx w t).
Proof.
  intros (Hty & Hsym & Hd & Hv). unfold native_step, Solana.native_step. read_properties.
  destruct (prop_to_json tx) as (_ & _ & _ & _ & -> & _).
  destruct (Helius.nativeTransfers tx) as [[|n l]|]; cbn [option_map of_property].
  - eexists. split; [reflexivity | repeat split; assumption].
  - change (truthy (Parsed (JArr (map NativeTransfer.to_json (n :: l))))) with true.
    read_properties. rewrite prop_length.
    cbn [to_number map mbind mret result_bind result_ret JS.bind].
    rewrite nonempty_length, prop_first. read_properties.
    rewrite prop_native_transfer.
    cbn [to_number mbind mret result_bind result_ret JS.bind].
    change (is_string (prop (Parsed (NativeTransfer.to_json n)) "fromUserAccount") w)
      with (String.eqb (NativeTransfer.fromUserAccount n) w).
    change (is_string (prop (Parsed (NativeTransfer.to_json n)) "toUserAccount") w)
      with (String.eqb (NativeTransfer.toUserAccount n) w).
    destruct (String.eqb (NativeTransfer.fromUserAccount n) w);
      [eexists; split; [reflexivity|repeat split; assumption]|].
    destruct (String.eqb (NativeTransfer.toUserAccount n) w);
      eexists; (split; [reflexivity|repeat split; assumption]).
  - eexists. split; [reflexivity | repeat split; assumption].
Qed.

Lemma token_step_typed (tx : Helius.HeliusTransaction) w v t :
  same_labels v t ->
  exists v', token_step (Parsed (Helius.to_json tx)) w v = JS.Ok v'
             /\ same_labels v' (Solana.token_step tx w t).
Proof.
  intros (Hty & Hsym & Hd & Hv). unfold token_step, Solana.token_step. read_properties.
  destruct (prop_to_json tx) as (_ & _ & _ & _ & _ & ->).
  destruct (Helius.tokenTransfers tx) as [[|n l]|]; cbn [option_map of_property].
  - eexists. split; [reflexivity | repeat split; assumption].
  - change (truthy (Parsed (JArr (map TokenTransfer.to_json (n :: l))))) with true.
    read_properties. rewrite prop_length.
    cbn [to_number map mbind mret result_bind result_ret JS.bind].
    rewrite nonempty_length, prop_first. read_properties.
    rewrite prop_token_transfer.
    cbn [to_string json_to_string mbind mret result_bind result_ret JS.bind].
    change (is_string (prop (Parsed (TokenTransfer.to_json n)) "fromUserAccount") w)
      with (String.eqb (TokenTransfer.fromUserAccount n) w).
    change (is_string (prop (Parsed (TokenTransfer.to_json n)) "toUserAccount") w)
      with (String.eqb (TokenTransfer.toUserAccount n) w).
    destruct (String.eqb (TokenTransfer.fromUserAccount n) w);
      [eexists; split; [reflexivity|repeat split; assumption]|].
    destruct (String.eqb (TokenTransfer.toUserAccount n) w);
      eexists; (split; [reflexivity|repeat split; assumption]).
  - eexists. split; [reflexivity | repeat split; assumption].
Qed.

Lemma swap_step_typed (tx : Helius.HeliusTransaction) v t :
  same_labels v t ->
  exists v', swap_step (Parsed (Helius.to_json tx)) v = JS.Ok v'
             /\ same_labels v' (Solana.swap_step tx t).
Proof.
  intros (Hty & Hsym & Hd & Hv).
  unfold swap_step, Solana.swap_step, Solana.mentions_swap, Helius.JSON_stringify.
  cbn [JSON_stringify JS.deref mbind result_bind JS.bind].
  destruct (_ || _ || _); eexists; (split; [reflexivity|repeat split; assumption]).
Qed.

Lemma init_typed (tx : Helius.HeliusTransaction) :
  same_labels
    {| l_type := or_else (Parsed (JStr (Helius.type tx))) (Parsed (JStr "Unknown"));
       l_amount := Number (JS.Fin 0);
       l_tokenSymbol := "SOL";
       l_description := EmptyString |}
    (Solana.init_locals tx).
Proof.
  repeat split. simpl. destruct (Helius.type tx); reflexivity.
Qed.

Lemma to_number_of_number v :
  is_number v = true -> exists x, to_number v = JS.Ok x.
Proof. destruct v as [|x|[]]; simpl; try discriminate; eauto. Qed.

Lemma finish_typed now (tx : Helius.HeliusTransaction) v :
  is_number (l_amount v) = true ->
  exists r, finish now (Parsed (Helius.to_json tx)) v = JS.Ok r.
Proof.
  intros Hv. unfold finish, too_small.
  destruct (String.eqb (l_tokenSymbol v) "SOL").
  - destruct (to_number_of_number _ Hv) as [x ->].
    cbn [mbind result_bind JS.bind mret result_ret].
    destruct (JS.lt x _); [eauto|].
    destruct (is_zero (l_amount v)); [eauto|].
    read_properties. eauto.
  - cbn [JS.bind mret result_ret].
    destruct (is_zero (l_amount v)); [eauto|].
    read_properties. eauto.
Qed.

(** The variables before the two filters. *)
Lemma resolve_typed (tx : Helius.HeliusTransaction) w :
  exists v,
    (type ← get (Parsed (Helius.to_json tx)) "type";
     v ← native_step (Parsed (Helius.to_json tx)) w
           {| l_type := or_else type (Parsed (JStr "Unknown"));
              l_amount := Number (JS.Fin 0);
              l_tokenSymbol := "SOL";
              l_description := EmptyString |};
     v ← token_step (Parsed (Helius.to_json tx)) w v;
     swap_step (Parsed (Helius.to_json tx)) v) = JS.Ok v
    /\ same_labels v (Solana.resolve tx w).
Proof.
  read_properties. destruct (prop_to_json tx) as (-> & _).
  destruct (native_step_typed tx w _ _ (init_typed tx)) as (v1 & -> & H1). rewrite bind_ok.
  destruct (token_step_typed tx w v1 _ H1) as (v2 & -> & H2). rewrite bind_ok.
  destruct (swap_step_typed tx v2 _ H2) as (v3 & -> & H3).
  exists v3. split; [reflexivity | exact H3].
Qed.

Lemma typed_never_raises now (tx : Helius.HeliusTransaction) w :
  exists r, processTransaction_try now (Parsed (Helius.to_json tx)) w = JS.Ok r.
Proof.
  unfold processTransaction_try.
  read_properties. destruct (prop_to_json tx) as (-> & _).
  destruct (native_step_typed tx w _ _ (init_typed tx)) as (v1 & -> & H1). rewrite bind_ok.
  destruct (token_step_typed tx w v1 _ H1) as (v2 & -> & H2). rewrite bind_ok.
  destruct (swap_step_typed tx v2 _ H2) as (v3 & -> & H3). rewrite bind_ok.
  apply finish_typed. apply H3.
Qed.

(** The labels of a record are those of the typed model. *)
Lemma typed_labels now (tx : Helius.HeliusTransaction) w r :
  processTransaction_try now (Parsed (Helius.to_json tx)) w = JS.Ok (Some r) ->
  type r = Parsed (JStr (Solana.l_type (Solana.resolve tx w)))
  /\ tokenSymbol r = Solana.l_tokenSymbol (Solana.resolve tx w)
  /\ description r = Solana.l_description (Solana.resolve tx w).
Proof.
  unfold processTransaction_try.
  read_properties. destruct (prop_to_json tx) as (-> & _).
  destruct (native_step_typed tx w _ _ (init_typed tx)) as (v1 & -> & H1). rewrite bind_ok.
  destruct (token_step_typed tx w v1 _ H1) as (v2 & -> & H2). rewrite bind_ok.
  destruct (swap_step_typed tx v2 _ H2) as (v3 & -> & H3). rewrite bind_ok.
  fold (Solana.resolve tx w) in H3. destruct H3 as (Hty & Hsym & Hd & Hv).
  unfold finish, too_small.
  destruct (to_number_of_number _ Hv) as [x Hx].
  destruct (String.eqb (l_tokenSymbol v3) "SOL"); [rewrite Hx|];
    cbn [mbind result_bind JS.bind mret result_ret];
    try (destruct (JS.lt x _); [discriminate|]);
    (destruct (is_zero (l_amount v3)); [discriminate|]);
    read_properties; intros [= <-]; simpl; auto.
Qed.

(** C6: [processTransaction] raises nothing, whatever value it is given,
    and an error raised while a transaction is processed gives null for
    that transaction.  Such errors do occur: a transaction that is null or
    undefined, or whose list of native or token transfers starts with null,
    raises in the [try] block.  The batch goes on: the [map] of
    [getTransactions] raises nothing either, and the records of a batch
    with such a transaction in it are those of the transactions before it
    followed by those of the transactions after it. *)
Theorem C6_errors_become_null clock i (pre : list value) (bad : value)
        (post : list value) address :
  (exists r, processTransaction (clock (i + length pre)%nat) bad address = JS.Ok r)
  /\ (forall e,
        processTransaction_try (clock (i + length pre)%nat) bad address = JS.Throw e ->
        processTransaction (clock (i + length pre)%nat) bad address = JS.Ok None)
  /\ (malformed bad = true ->
      exists e,
        processTransaction_try (clock (i + length pre)%nat) bad address = JS.Throw e)
  /\ exists before after,
       processAll clock i pre address = JS.Ok before
       /\ processAll clock (S (i + length pre)) post address = JS.Ok after
       /\ (forall e,
             processTransaction_try (clock (i + length pre)%nat) bad address
             = JS.Throw e ->
             processAll clock i (pre ++ bad :: post) address
             = JS.Ok (before ++ after)%list).
Proof.
  split; [apply dynamic_returns|].
  split; [apply dynamic_caught|].
  split; [apply malformed_raises|].
  destruct (dynamic_processAll_returns clock pre address i) as [before Hb].
  destruct (dynamic_processAll_returns clock post address (S (i + length pre)))
    as [after Ha].
  exists before, after. split; [exact Hb|]. split; [exact Ha|].
  intros e He. apply dynamic_processAll_app; [exact Hb|].
  simpl. rewrite (dynamic_caught _ _ _ _ He), bind_ok, Ha. reflexivity.
Qed.

(** X29: a transaction object that has the declared properties is not
    malformed and raises nothing in the [try] block of [processTransaction];
    the type, the token symbol and the description of its record are those
    that the typed model gives. *)
Theorem X29_declared_shape (now : Q) (tx : Helius.HeliusTransaction) (w : string) :
  malformed (Parsed (Helius.to_json tx)) = false
  /\ (exists r, processTransaction_try now (Parsed (Helius.to_json tx)) w = JS.Ok r)
  /\ forall r,
       processTransaction now (Parsed (Helius.to_json tx)) w = JS.Ok (Some r) ->
       type r = Parsed (JStr (Solana.l_type (Solana.resolve tx w)))
       /\ tokenSymbol r = Solana.l_tokenSymbol (Solana.resolve tx w)
       /\ description r = Solana.l_description (Solana.resolve tx w).
Proof.
  destruct (typed_never_raises now tx w) as [r0 Hr0].
  split; [|split; [eauto|]].
  - destruct (malformed (Parsed (Helius.to_json tx))) eqn:E; [|reflexivity].
    destruct (malformed_raises now _ w E) as [e He]. congruence.
  - intros r Hr. unfold processTransaction in Hr. rewrite Hr0 in Hr. simpl in Hr.
    apply (typed_labels now). congruence.
Qed.

End DynamicFacts.

(** ** The properties above at sample inputs *)

Section Instances.
Import Exn Samples MoreSamples.
Local Open Scope Q_scope.

Lemma X3_recent_activity_witness :
  (length (Feed.recentActivity feed3) <= 5)%nat
  /\ (Feed.recentActivity feed3 ++ skipn 5 feed3)%list = feed3
  /\ (forall shown hidden,
         In shown (Feed.recentActivity feed3) -> In hidden (skipn 5 feed3) ->
         Solana.timestamp hidden <= Solana.timestamp shown).
Proof.
  exact (X3_recent_activity (fun _ => 0) history3 W feed3 eq_refl).
Defined.

Lemma X4_log_bounded_witness :
  (length (@nil Logger.LogEntry) <= Logger.maxLogs)%nat
  /\ (length (Logger.calls [secret_call; plain_call] []) <= Logger.maxLogs)%nat.
Proof.
  split; [apply Nat.le_0_l|].
  apply (X4_log_bounded [secret_call; plain_call] []). apply Nat.le_0_l.
Defined.

Lemma X8_buffer_holds_no_secret_witness :
  In (Logger.entry_of secret_call) (Logger.calls [plain_call; secret_call] [])
  /\ JsValue.lookup "password" (Logger.redact secret_props) = Some Logger.REDACTED
  /\ Logger.REDACTED = Logger.REDACTED.
Proof.
  split; [right; left; reflexivity|]. split; [reflexivity|].
  apply (X8_buffer_holds_no_secret [plain_call; secret_call]
           (Logger.entry_of secret_call) (Logger.redact secret_props)
           "password" Logger.REDACTED).
  - right. left. reflexivity.
  - reflexivity.
  - right. right. left. reflexivity.
  - reflexivity.
Defined.

Lemma X11_swaps_are_trades_witness :
  Solana.mentions_swap bystander_swap_tx = true
  /\ Analysis.isTradeTransaction (Some bystander_swap_tx) = true.
Proof.
  split; [reflexivity|].
  apply (X11_swaps_are_trades bystander_swap_tx). left. reflexivity.
Defined.

Lemma X14_answers_never_empty_witness :
  Advice.analyzeBatch_answer answered = "Mostly buys, few sells."
  /\ Advice.analyzeTransaction_answer answered = "Mostly buys, few sells.".
Proof.
  apply (proj1 (proj2 (proj2 (X14_answers_never_empty answered)))
           (Advice.mkChoice (Some "Mostly buys, few sells.")) []
           "Mostly buys, few sells." eq_refl eq_refl).
  discriminate.
Defined.

Lemma X15_first_provider_wins_witness :
  Price.getSolanaPrice online ∅
  = (Price.mkPrice (JS.Fin 150) (JS.Fin 0),
     <["solana" := Price.mkEntry (JS.Fin 150) (JS.Fin 0) 30]> ∅).
Proof.
  apply (X15_first_provider_wins online [Price.CoinGecko] Price.Jupiter [Price.Binance]
           (Price.mkPrice (JS.Fin 150) (JS.Fin 0)) ∅).
  - reflexivity.
  - intros e' [<-|[]]. reflexivity.
  - reflexivity.
  - reflexivity.
Defined.

Lemma X16_cache_window_witness :
  Price.calls [online; soon] ∅
  = ([Price.mkPrice (JS.Fin 150) (JS.Fin 0); Price.mkPrice (JS.Fin 150) (JS.Fin 0)],
     <["solana" := Price.mkEntry (JS.Fin 150) (JS.Fin 0) 30]> ∅).
Proof.
  apply (X16_cache_window online soon [Price.CoinGecko] Price.Jupiter [Price.Binance]
           (Price.mkPrice (JS.Fin 150) (JS.Fin 0)) ∅).
  - reflexivity.
  - intros e' [<-|[]]. reflexivity.
  - reflexivity.
  - reflexivity.
  - reflexivity.
Defined.

Lemma X18_last_metadata_wins_witness :
  Solana.symbol (Solana.enhance (Solana.metadataMap []) ("Mint9", "Owner1", 5, 6))
  = "Unknown"
  /\ Solana.name (Solana.enhance (Solana.metadataMap []) ("Mint9", "Owner1", 5, 6))
     = "Unknown Token".
Proof.
  apply (proj2 (X18_last_metadata_wins [] "Mint9")). reflexivity.
Defined.

Lemma C4_classify_precedence_witness :
  exists t,
    In t (Spec.native_from_source purchase_tx)
    /\ JS.lt (JS.Fin 0) (JS.round64 (NativeTransfer.amount t)) = true.
Proof.
  apply (proj2 (C4_classify_precedence purchase_tx)).
  - split; simpl.
    + intros t [<-|[]]. discriminate.
    + intros t [<-|[]]. discriminate.
  - reflexivity.
Defined.

Lemma C6_errors_become_null_witness :
  Dynamic.malformed first_is_null = true
  /\ Dynamic.processTransaction 0 first_is_null W = JS.Ok None
  /\ Dynamic.processAll (fun _ => 0) 0
       [Dynamic.Parsed (Helius.to_json send_tx); first_is_null;
        Dynamic.Parsed (Helius.to_json bystander_tx)] W
     = JS.Ok [send_seen; bystander_seen].
Proof.
  destruct (C6_errors_become_null (fun _ => 0) 0
              [Dynamic.Parsed (Helius.to_json send_tx)] first_is_null
              [Dynamic.Parsed (Helius.to_json bystander_tx)] W)
    as (_ & Hnull & Hraises & before & after & Hb & Ha & Hall).
  destruct (Hraises eq_refl) as [e He].
  split; [reflexivity|]. split; [exact (Hnull e He)|].
  transitivity (JS.Ok (before ++ after)%list); [exact (Hall e He)|].
  assert (Eb : JS.Ok before = JS.Ok [send_seen]) by (rewrite <- Hb; vm_compute; reflexivity).
  assert (Ea : JS.Ok after = JS.Ok [bystander_seen]) by (rewrite <- Ha; vm_compute; reflexivity).
  injection Eb as ->. injection Ea as ->. reflexivity.
Defined.

Lemma X29_declared_shape_witness :
  Dynamic.type send_seen = Dynamic.Parsed (Json.JStr "Send SOL")
  /\ Dynamic.tokenSymbol send_seen = "SOL"
  /\ Dynamic.description send_seen = "Sent 2.000 SOL".
Proof.
  exact (proj2 (proj2 (X29_declared_shape 0 send_tx W)) send_seen eq_refl).
Defined.

Lemma X22_history_errors_witness :
  HeliusApi.fetchWithTimeout 500
    (HeliusApi.Responded
       (HeliusApi.mkResponse false 429 "Too Many Requests"
          (HeliusApi.BodyText "slow down" None)))
  = HeliusApi.failure "HTTP 429: slow down"
  /\ HeliusApi.getTransactionHistory (HeliusApi.failure "HTTP 429: slow down")
     = Raised "Failed to fetch transaction history: HTTP 429: slow down".
Proof.
  split; [|reflexivity].
  exact (proj1 (proj2 (proj2 (proj2 (X22_history_errors 500
           (HeliusApi.Responded
              (HeliusApi.mkResponse false 429 "Too Many Requests"
                 (HeliusApi.BodyText "slow down" None)))))))
           _ "slow down" None eq_refl eq_refl eq_refl).
Defined.

Lemma X23_missing_list_witness :
  HeliusApi.getTransactionHistory
    (HeliusApi.mkApiResponse true (Some (Json.JObj error_props)) None)
  = Returned []
  /\ HeliusApi.parseTransaction
       (HeliusApi.mkApiResponse true (Some (Json.JObj error_props)) None)
     = Raised "Invalid response format: expected array with transaction data".
Proof.
  destruct (X23_missing_list error_props eq_refl eq_refl) as (H1 & _ & H3 & _).
  split; [exact H1 | exact H3].
Defined.

Lemma X24_swap_only_relabels_witness :
  Solana.processTransaction 0 (Some bystander_swap_tx) W = Some bystander_swap_record.
Proof.
  exact (X24_swap_only_relabels 0 bystander_swap_tx W eq_refl).
Defined.

Lemma X25_native_direction_witness :
  exists r,
    Solana.processTransaction 0 (Some fraction_tx) W = Some r
    /\ Solana.type r = "Send SOL"
    /\ Solana.description r = "Sent 1.000 SOL".
Proof.
  destruct (X25_native_direction 0 fraction_tx W (NativeTransfer.mk W X 1000500000) [])
    as (r & Hr & _ & _ & Hsend & _).
  - reflexivity.
  - reflexivity.
  - reflexivity.
  - discriminate.
  - exists r. split; [exact Hr|]. exact (Hsend eq_refl).
Defined.

Lemma X26_no_source_no_transfer_rule_witness :
  Analysis.classifyTradeType (Some both_tx)
  = Spec.first_rule Reading.text_rules both_tx.
Proof.
  exact (X26_no_source_no_transfer_rule both_tx eq_refl).
Defined.

Lemma X27_type_keyword_in_body_witness :
  Spec.type_hint bystander_swap_tx "swap" = true
  /\ Solana.mentions_swap bystander_swap_tx = true.
Proof.
  split; [reflexivity|].
  exact (proj1 (proj2 (X27_type_keyword_in_body bystander_swap_tx)) eq_refl).
Defined.

Lemma X28_average_not_negative_witness :
  JS.lt (Analysis.averageTradeValue
           (Analysis.analyzeBatch_metrics [Some bystander_swap_tx; None; Some quiet_tx]))
        (JS.Fin 0) = false
  /\ Analysis.averageTradeValue
       (Analysis.analyzeBatch_metrics [Some bystander_swap_tx; None; Some quiet_tx])
     <> JS.NaN.
Proof.
  apply (X28_average_not_negative [Some bystander_swap_tx; None; Some quiet_tx]).
  intros tx [[= <-]|[[=]|[[= <-]|[]]]]; split; simpl.
  - intros t [<-|[]]. discriminate.
  - intros t [].
  - intros t [].
  - intros t [].
Defined.

End Instances.
